(** * The test-execution and retry engine of the structured-output benchmark

    A shallow embedding of [src/lib/test-runner.ts] (attempt executor,
    scenario runners, suite orchestrator), of the start handler of
    [src/app/api/run/route.ts] and of the summary aggregator, followed by
    the properties of the specification that were checked against them.

    Conventions.
    - Asynchronous code is sequential code in a state-and-exception monad
      [M]: a computation takes the [World] and gives back a [Completion]
      (a value, or a thrown JavaScript value) and the new world.
    - The outside is an [Environment]: the provider behind [generateText]
      and [generateObject], the wall clock, [JSON.parse], the Zod schemas,
      the prompt templates and the model factory.  The provider and the
      clock are functions of the number of earlier calls, so every
      deterministic run of the program is covered.
    - Counts ([maxRetries], [runsPerScenario], attempt and run numbers)
      are [nat]; milliseconds and HTTP statuses are [Z].  The
      [maxRetries] of a start request, which nothing keeps from being
      negative, is taken up as an integer in [Requested]. *)

From Stdlib Require Import ZArith List Ascii String Lia Bool.
From Stdlib Require Import QArith_base Qreduction.
From stdpp Require Import base option list gmap strings pretty.

Local Open Scope Z_scope.
Local Open Scope string_scope.
Local Open Scope list_scope.
Local Open Scope nat_scope.

(** ** Strings *)

Module JsString.

(** [String.prototype.toLowerCase] on the ASCII letters. *)
Definition lower_ascii (c : ascii) : ascii :=
  let n := nat_of_ascii c in
  if (65 <=? n)%nat && (n <=? 90)%nat then ascii_of_nat (n + 32) else c.

Fixpoint toLowerCase (s : string) : string :=
  match s with
  | EmptyString => EmptyString
  | String c t => String (lower_ascii c) (toLowerCase t)
  end.

(** [hay.includes(needle)]. *)
Fixpoint includes (needle hay : string) : bool :=
  if String.prefix needle hay then true
  else match hay with
       | EmptyString => false
       | String _ t => includes needle t
       end.

(** [xs.join(sep)]. *)
Fixpoint join (sep : string) (xs : list string) : string :=
  match xs with
  | [] => ""
  | [x] => x
  | x :: rest => x +:+ sep +:+ join sep rest
  end.

End JsString.

(** ** Thrown values *)

Inductive ErrorClass :=
| ZodErrorClass        (* instanceof ZodError *)
| SyntaxErrorClass     (* instanceof SyntaxError *)
| OtherErrorClass      (* any other instance of Error *)
| NotAnError.          (* a thrown value that is no Error *)

Inductive PathSegment := PKey (k : string) | PIndex (i : nat).

Record ZodIssue := {
  issue_path : list PathSegment;
  issue_message : string;
  issue_code : string;
}.

(** What the program can observe of a thrown value: its class, its
    [message] (for a value that is no Error, [String(error)]), a [status]
    field when it is an object that has one, a [text] field likewise, and
    the issues of a ZodError. *)
Record JsError := {
  err_class : ErrorClass;
  err_message : string;
  err_status : option Z;
  err_text : option string;
  err_issues : list ZodIssue;
}.

Definition instanceofError (e : JsError) : bool :=
  match err_class e with NotAnError => false | _ => true end.

Definition instanceofZodError (e : JsError) : bool :=
  match err_class e with ZodErrorClass => true | _ => false end.

Definition instanceofSyntaxError (e : JsError) : bool :=
  match err_class e with SyntaxErrorClass => true | _ => false end.

(** [new Error(msg)] *)
Definition newError (msg : string) : JsError :=
  {| err_class := OtherErrorClass; err_message := msg; err_status := None;
     err_text := None; err_issues := [] |}.

(** The value of a variable that was never assigned. *)
Definition jsUndefined : JsError :=
  {| err_class := NotAnError; err_message := "undefined"; err_status := None;
     err_text := None; err_issues := [] |}.

(** ** The monad *)

Inductive Completion (A : Type) :=
| Normal (a : A)
| Thrown (e : JsError).
Arguments Normal {A} a.
Arguments Thrown {A} e.

Definition ST (S A : Type) : Type := S -> Completion A * S.

Definition ret {S A} (a : A) : ST S A := fun s => (Normal a, s).
Definition throw {S A} (e : JsError) : ST S A := fun s => (Thrown e, s).
Definition bind {S A B} (m : ST S A) (k : A -> ST S B) : ST S B :=
  fun s => match m s with
           | (Normal a, s') => k a s'
           | (Thrown e, s') => (Thrown e, s')
           end.
Definition modify {S} (f : S -> S) : ST S unit := fun s => (Normal tt, f s).

(** [try { body } catch (error) { handler(error) }] *)
Definition tryCatch {S A} (body : ST S A) (handler : JsError -> ST S A) : ST S A :=
  fun s => match body s with
           | (Normal a, s') => (Normal a, s')
           | (Thrown e, s') => handler e s'
           end.

Declare Scope js_scope.
Delimit Scope js_scope with js.
Notation "x <- m ;; k" := (bind m (fun x => k))
  (at level 100, m at next level, right associativity) : js_scope.
Notation "m ;;; k" := (bind m (fun _ => k))
  (at level 100, right associativity) : js_scope.
Local Open Scope js_scope.

(** ** Data model ([storage.ts] types as used by the runner) *)

Record ValidationError := {
  ve_path : list string;
  ve_message : string;
  ve_code : string;
}.

Record AttemptResult {Json : Type} := {
  attemptNumber : nat;
  timestamp : Z;
  success : bool;
  durationMs : Z;
  inputTokens : option nat;
  outputTokens : option nat;
  prompt : string;
  rawResponse : string;
  parsedResponse : option Json;
  validationErrors : list ValidationError;
  errorMessage : option string;
}.
Arguments AttemptResult Json : clear implicits.

Record StepResult {Json : Type} := {
  stepNumber : nat;
  stepName : string;
  stepSuccess : bool;
  stepAttempts : list (AttemptResult Json);
}.
Arguments StepResult Json : clear implicits.

(** A sequential run has [attempts: []] and a [steps] array; a one-shot
    run has no [steps] field. *)
Record RunResult {Json : Type} := {
  runNumber : nat;
  runSuccess : bool;
  attempts : list (AttemptResult Json);
  steps : option (list (StepResult Json));
  totalDurationMs : Z;
  finalResponse : option Json;
}.
Arguments RunResult Json : clear implicits.

Inductive Role := system | user | assistant.

Record Message := { role : Role; content : string }.

Definition roleName (r : Role) : string :=
  match r with system => "system" | user => "user" | assistant => "assistant" end.

(** [messages.map(m => `[${m.role}] ${m.content}`).join('\n\n')] *)
Definition renderPrompt (messages : list Message) : string :=
  JsString.join (String "010" (String "010" ""))
    (map (fun m => "[" +:+ roleName (role m) +:+ "] " +:+ content m) messages).

(** *** Progress events *)

Inductive ProgressStatus := StRunning | StSuccess | StFailed | StRetrying.
Inductive LogType := LogRequest | LogResponse | LogValidation.

Record ValidationOutcome := {
  vr_success : bool;
  vr_errors : option (list ValidationError);
}.

Record LogEntry := {
  log_timestamp : Z;
  log_modelId : string;
  log_modelName : string;
  log_scenario : nat;
  log_runNumber : nat;
  log_stepNumber : option nat;
  log_stepName : option string;
  log_attemptNumber : nat;
  log_type : LogType;
  log_prompt : option string;
  log_response : option string;
  log_validationResult : option ValidationOutcome;
}.

Record TestProgress := {
  tp_modelId : string;
  tp_modelName : string;
  tp_scenario : nat;
  tp_runNumber : nat;
  tp_stepNumber : option nat;
  tp_stepName : option string;
  tp_attemptNumber : nat;
  tp_status : ProgressStatus;
  tp_message : option string;
  tp_logEntry : option LogEntry;
}.

Record RunCompleteEvent {Json : Type} := {
  rc_modelId : string;
  rc_scenario : nat;
  rc_runNumber : nat;
  rc_runResult : RunResult Json;
  rc_isSequential : bool;
}.
Arguments RunCompleteEvent Json : clear implicits.

(** *** Models and configuration *)

Record ModelConfig := {
  model_id : string;
  model_name : string;
  model_provider : string;
  model_handle : string;       (* the LanguageModel, known by its model name *)
  supportsStrictMode : bool;
  isReasoningModel : bool;     (* optional in the source; absent is falsy *)
}.

Record ModelDefinition := {
  def_id : string;
  def_name : string;
  def_provider : string;
  def_modelName : string;
  def_supportsStrictMode : bool;
  def_isReasoningModel : bool;
}.

Record ApiKeys := {
  key_openai : option string;
  key_anthropic : option string;
  key_google : option string;
  key_groq : option string;
  key_openrouter : option string;
}.

Definition noApiKeys : ApiKeys :=
  {| key_openai := None; key_anthropic := None; key_google := None;
     key_groq := None; key_openrouter := None |}.

Record TestConfig {Temperature : Type} := {
  temperature : Temperature;
  maxRetries : nat;
  runsPerScenario : nat;
  apiKeys : option ApiKeys;
}.
Arguments TestConfig Temperature : clear implicits.

(** *** What a provider call is given and gives back *)

Record GenerateArgs {Temperature : Type} := {
  ga_model : string;
  ga_messages : list Message;
  ga_temperature : option Temperature;
  ga_reasoningEffort : option string;
}.
Arguments GenerateArgs Temperature : clear implicits.

Record Usage := {
  usage_inputTokens : option nat;
  usage_outputTokens : option nat;
}.

Record TextResult := { tr_text : string; tr_usage : option Usage }.
Record ObjectResult {Json : Type} := { or_object : Json; or_usage : option Usage }.
Arguments ObjectResult Json : clear implicits.

Inductive ZodResult (Json : Type) :=
| ZodOk (value : Json)
| ZodFail (issues : list ZodIssue).
Arguments ZodOk {Json} value.
Arguments ZodFail {Json} issues.

Inductive StepId := Step1 | Step2 | Step3.

(** ** The environment *)

Class Environment := {
  Json : Type;
  Temperature : Type;
  (* built-ins *)
  JSON_parse : string -> string + Json;       (* inl: message of the SyntaxError *)
  JSON_stringify : Json -> string;
  JSON_stringify_indent2 : Json -> string;
  clock : nat -> Z;                           (* the n-th reading of the clock *)
  (* ai *)
  generateText : nat -> GenerateArgs Temperature -> Completion TextResult;
  generateObject : nat -> GenerateArgs Temperature -> Completion (ObjectResult Json);
  (* ./schemas *)
  ResponseSchema : Json -> ZodResult Json;
  SequentialPart1Schema : Json -> ZodResult Json;
  SequentialPart2Schema : Json -> ZodResult Json;
  SequentialPart3Schema : Json -> ZodResult Json;
  mergeSequentialParts : Json -> Json -> Json -> Json;
  (* ./conversation and ./prompts *)
  formatConversation : string;
  systemPrompt : string;
  getOneShotPrompt : string;
  oneShotStrictPrompt : string;
  sequentialPrompts : StepId -> bool -> string;   (* step, strict? *)
  getRetryPrompt : string -> list ValidationError -> string;
  extractJson : string -> string;
  (* process.env *)
  processEnv : string -> option string;
}.

(** ** The summary aggregator

    [src/lib/storage.ts] is not among the sources; the runner imports
    [calculateScenarioSummary] from it and [src/__tests__/storage.test.ts]
    exercises it.  The aggregator below is written from section 4.4 of
    the specification; [StorageFacts] further down runs it on the inputs
    of that test file. *)

Module Storage.
Section Summary.
Context {Json : Type}.

Local Abbreviation Attempt := (AttemptResult Json).
Local Abbreviation Step := (StepResult Json).
Local Abbreviation Run := (RunResult Json).

(** The fields are those of the summary literal in [route.ts]; rates and
    averages are exact rationals. *)
Record ScenarioSummary := {
  successRate : Q;
  firstAttemptSuccessRate : Q;
  afterRetry1SuccessRate : Q;
  afterRetry2SuccessRate : Q;
  afterRetry3SuccessRate : Q;
  averageDurationMs : Q;
  averageAttempts : Q;
  averageAttemptsPerSuccess : Q;
  averageTokensPerSuccess : Q;
  totalTokensUsed : nat;
}.

Record ScenarioResult := {
  sr_runs : list Run;
  sr_summary : ScenarioSummary;
}.

(** Modelled from the spec: [storage.ts] is missing.  The 0-based index
    of the first successful attempt of an attempt list
    ([attempts.findIndex(a => a.success)]), [None] when there is none. *)
Fixpoint successfulAttemptIndex (atts : list Attempt) : option nat :=
  match atts with
  | [] => None
  | a :: rest => if success a then Some 0 else S <$> successfulAttemptIndex rest
  end.

(** Modelled from the spec: [storage.ts] is missing.  The steps of a run
    ([run.steps], an absent field read as no steps). *)
Definition stepsOf (run : Run) : list Step := default [] (steps run).

(** Modelled from the spec: [storage.ts] is missing.  The per-step
    successful attempt indices of a sequential run, [None] as soon as one
    step has no successful attempt. *)
Definition stepIndices (run : Run) : option (list nat) :=
  mapM (fun s => successfulAttemptIndex (stepAttempts s)) (stepsOf run).

(** Modelled from the spec: [storage.ts] is missing.  The attempt index of
    a run, [None] when it has none.  For a flat run it is the index of its
    successful attempt.  For a sequential run it is, in the words of
    section 4.4, "the sum across its steps of (that step's successful
    attempt index)", the number of retries the whole pipeline consumed; a
    step with no successful attempt leaves the run without an index. *)
Definition runAttemptIndex (isSequential : bool) (run : Run) : option nat :=
  if isSequential then foldr Nat.add 0 <$> stepIndices run
  else successfulAttemptIndex (attempts run).

(** Modelled from the spec: [storage.ts] is missing.  Whether a run is in
    the numerator of [afterRetryD]: "runs whose successful attempt index,
    0-based, is <= d".  A run that did not succeed (a step ran out of
    attempts, the merge was refused, or no step was recorded at all) has no
    successful attempt to its name and "contributes 0 to every afterRetryD
    numerator". *)
Definition countsTowardRetry (isSequential : bool) (d : nat) (run : Run) : bool :=
  runSuccess run
  && match runAttemptIndex isSequential run with
     | Some i => i <=? d
     | None => false
     end.

(** Modelled from the spec: [storage.ts] is missing.  The attempts of a
    run: the flat list, or those of every step in order. *)
Definition allAttempts (isSequential : bool) (run : Run) : list Attempt :=
  if isSequential then concat (map stepAttempts (stepsOf run)) else attempts run.

(** Modelled from the spec: [storage.ts] is missing.  Tokens of a run,
    missing counts read as 0. *)
Definition runTokens (isSequential : bool) (run : Run) : nat :=
  foldr Nat.add 0
    (map (fun a => default 0 (inputTokens a) + default 0 (outputTokens a))
         (allAttempts isSequential run)).

(** Modelled from the spec: [storage.ts] is missing.  [num / den], and 0
    when [den] is 0. *)
Definition ratio (num : Z) (den : nat) : Q :=
  match den with
  | O => 0%Q
  | S _ => Qred (Qmake num (Pos.of_nat den))
  end.

(** Modelled from the spec: [storage.ts] is missing.  Percentage of the
    runs that satisfy [p]. *)
Definition percentage (p : Run -> bool) (runs : list Run) : Q :=
  ratio (100 * Z.of_nat (length (filter (fun r => p r = true) runs))) (length runs).

(** Modelled from the spec: [storage.ts] is missing.  Sums of counts and
    of durations. *)
Definition sumNat (xs : list nat) : Z := Z.of_nat (foldr Nat.add 0 xs).
Definition sumZ (xs : list Z) : Z := foldr Z.add 0%Z xs.

(** Modelled from the spec: [storage.ts] is missing.
    [calculateScenarioSummary(runs, isSequential = false)] after section
    4.4; with no runs every field is 0. *)
Definition calculateScenarioSummary (runs : list Run) (isSequential : bool)
    : ScenarioSummary :=
  let successful := filter (fun r => runSuccess r = true) runs in
  {| successRate := percentage runSuccess runs;
     firstAttemptSuccessRate := percentage (countsTowardRetry isSequential 0) runs;
     afterRetry1SuccessRate := percentage (countsTowardRetry isSequential 1) runs;
     afterRetry2SuccessRate := percentage (countsTowardRetry isSequential 2) runs;
     afterRetry3SuccessRate := percentage (countsTowardRetry isSequential 3) runs;
     averageDurationMs := ratio (sumZ (map totalDurationMs runs)) (length runs);
     averageAttempts :=
       ratio (sumNat (map (fun r => length (allAttempts isSequential r)) runs))
             (length runs);
     averageAttemptsPerSuccess :=
       ratio (sumNat (map (fun r => length (allAttempts isSequential r)) successful))
             (length successful);
     averageTokensPerSuccess :=
       ratio (sumNat (map (runTokens isSequential) successful)) (length successful);
     totalTokensUsed := foldr Nat.add 0 (map (runTokens isSequential) runs) |}.

End Summary.
Arguments ScenarioSummary : clear implicits.
Arguments ScenarioResult Json : clear implicits.
End Storage.

(** ** The world and its primitive effects *)

Section Runner.
Context `{env : Environment}.

Local Abbreviation Attempt := (AttemptResult Json).
Local Abbreviation Step := (StepResult Json).
Local Abbreviation Run := (RunResult Json).
Local Abbreviation Config := (TestConfig Temperature).

Record World := {
  calls : nat;                                 (* provider calls made so far *)
  ticks : nat;                                 (* clock readings made so far *)
  slept : list Z;                              (* arguments of sleep, oldest first *)
  events : list TestProgress;                  (* what onProgress received *)
  completed : list (RunCompleteEvent Json);    (* what onRunComplete received *)
}.

Definition M (A : Type) : Type := ST World A.

Definition initialWorld : World :=
  {| calls := 0; ticks := 0; slept := []; events := []; completed := [] |}.

(** [Date.now()], and the reading behind [new Date().toISOString()]. *)
Definition dateNow : M Z := fun w =>
  (Normal (clock (ticks w)),
   {| calls := calls w; ticks := S (ticks w); slept := slept w;
      events := events w; completed := completed w |}).

(** [await sleep(ms)] *)
Definition sleep (ms : Z) : M unit := fun w =>
  (Normal tt,
   {| calls := calls w; ticks := ticks w; slept := slept w ++ [ms];
      events := events w; completed := completed w |}).

Definition nextCall (w : World) : World :=
  {| calls := S (calls w); ticks := ticks w; slept := slept w;
     events := events w; completed := completed w |}.

Definition callGenerateText (args : GenerateArgs Temperature) : M TextResult :=
  fun w => (generateText (calls w) args, nextCall w).

Definition callGenerateObject (args : GenerateArgs Temperature)
    (schema : Json -> ZodResult Json) : M (ObjectResult Json) :=
  fun w => (generateObject (calls w) args, nextCall w).

(** [onProgress?.(p)] and [onRunComplete?.(e)] with the callbacks present. *)
Definition onProgress (p : TestProgress) : M unit := fun w =>
  (Normal tt,
   {| calls := calls w; ticks := ticks w; slept := slept w;
      events := events w ++ [p]; completed := completed w |}).

Definition onRunComplete (e : RunCompleteEvent Json) : M unit := fun w =>
  (Normal tt,
   {| calls := calls w; ticks := ticks w; slept := slept w;
      events := events w; completed := completed w ++ [e] |}).

(** ** The model factory ([models-factory.ts]) *)

Definition mkDefinition (id name provider modelName : string)
    (strict reasoning : bool) : ModelDefinition :=
  {| def_id := id; def_name := name; def_provider := provider;
     def_modelName := modelName; def_supportsStrictMode := strict;
     def_isReasoningModel := reasoning |}.

Definition modelDefinitions : list ModelDefinition :=
  [ mkDefinition "openai-gpt5" "GPT-5" "openai" "gpt-5" true true;
    mkDefinition "openai-gpt4o" "GPT-4o" "openai" "gpt-4o" true false;
    mkDefinition "anthropic-sonnet" "Claude Sonnet 4.5" "anthropic"
      "claude-sonnet-4-5-20250929" true false;
    mkDefinition "anthropic-opus" "Claude Opus 4.5" "anthropic"
      "claude-opus-4-5-20251101" true false;
    mkDefinition "google-flash" "Gemini 2.5 Flash" "google" "gemini-2.5-flash" true false;
    mkDefinition "google-pro" "Gemini 3 Pro" "google" "gemini-3-pro-preview" true false;
    mkDefinition "groq-gpt-oss-120b" "GPT-OSS 120B" "groq" "openai/gpt-oss-120b" false false;
    mkDefinition "groq-kimi-k2" "Kimi K2" "groq"
      "moonshotai/kimi-k2-instruct-0905" false false;
    mkDefinition "groq-llama-3.3-70b" "Llama 3.3 70B" "groq"
      "llama-3.3-70b-versatile" false false;
    mkDefinition "openrouter-qwen3-235b" "Qwen3 235B" "openrouter"
      "qwen/qwen3-235b-a22b" false false ].

(** A string option as a condition: absent and empty are falsy. *)
Definition truthy (s : option string) : bool :=
  match s with
  | Some v => negb (String.eqb v "")
  | None => false
  end.

(** [a || b] on optional strings. *)
Definition orElse (a b : option string) : option string :=
  if truthy a then a else b.

(** The key a provider is called with: the request's, else the process's. *)
Definition providerKey (apiKeys : ApiKeys) (provider : string) : option string :=
  if String.eqb provider "openai" then
    orElse (key_openai apiKeys) (processEnv "OPENAI_API_KEY")
  else if String.eqb provider "anthropic" then
    orElse (key_anthropic apiKeys) (processEnv "ANTHROPIC_API_KEY")
  else if String.eqb provider "google" then
    orElse (key_google apiKeys) (processEnv "GOOGLE_GENERATIVE_AI_API_KEY")
  else if String.eqb provider "groq" then
    orElse (key_groq apiKeys) (processEnv "GROQ_API_KEY")
  else if String.eqb provider "openrouter" then
    orElse (key_openrouter apiKeys) (processEnv "OPENROUTER_API_KEY")
  else None.

Definition createModelWithKeys (definition : ModelDefinition) (apiKeys : ApiKeys)
    : option ModelConfig :=
  if truthy (providerKey apiKeys (def_provider definition)) then
    Some {| model_id := def_id definition;
            model_name := def_name definition;
            model_provider := def_provider definition;
            model_handle := def_modelName definition;
            supportsStrictMode := def_supportsStrictMode definition;
            isReasoningModel := def_isReasoningModel definition |}
  else None.

Definition getModelDefinition (id : string) : option ModelDefinition :=
  find (fun m => String.eqb (def_id m) id) modelDefinitions.

Definition getModelWithKeys (id : string) (apiKeys : ApiKeys) : option ModelConfig :=
  match getModelDefinition id with
  | None => None
  | Some definition => createModelWithKeys definition apiKeys
  end.

(** ** Attempt executor *)

Definition stringOfSegment (p : PathSegment) : string :=
  match p with PKey k => k | PIndex i => pretty i end.

Definition parseZodErrors (issues : list ZodIssue) : list ValidationError :=
  map (fun e => {| ve_path := map stringOfSegment (issue_path e);
                   ve_message := issue_message e;
                   ve_code := issue_code e |}) issues.

Definition RATE_LIMITED_PROVIDERS : list string := ["groq"; "openrouter"].
Definition RATE_LIMIT_DELAY_MS : Z := 5000.
Definition BACKOFF_BASE_MS : Z := 5000.
Definition BACKOFF_MAX_RETRIES : nat := 4.

Definition isRateLimitError (error : JsError) : bool :=
  if instanceofError error &&
     (let message := JsString.toLowerCase (err_message error) in
      JsString.includes "429" message
      || JsString.includes "rate limit" message
      || JsString.includes "too many requests" message)
  then true
  else match err_status error with
       | Some status => (status =? 429)%Z
       | None => false
       end.

(** The loop of [withExponentialBackoff]; [fuel] is the number of
    iterations left, [maxRetries + 1 - attempt]. *)
Fixpoint backoffLoop {T} (fn : M T) (maxRetries fuel attempt : nat)
    (lastError : JsError) : M T :=
  match fuel with
  | O => throw lastError
  | S fuel' =>
      tryCatch fn (fun error =>
        if isRateLimitError error && (attempt <? maxRetries)
        then
          (let delayMs := (BACKOFF_BASE_MS * 2 ^ Z.of_nat attempt)%Z in
           sleep delayMs ;;;
           backoffLoop fn maxRetries fuel' (S attempt) error)
        else throw error)
  end.

Definition withExponentialBackoff {T} (fn : M T) (maxRetries : nat) : M T :=
  backoffLoop fn maxRetries (maxRetries + 1) 0 jsUndefined.

(** The world in which [withExponentialBackoff] invokes [fn] for the
    [n+1]-th time, when each of the first [n] invocations was followed by
    a backoff: the wrapper slept [BACKOFF_BASE_MS * 2^i] after the
    [i+1]-th. *)
Fixpoint worldAtInvocation {T} (fn : M T) (n : nat) (w : World) : World :=
  match n with
  | O => w
  | S n' =>
      snd (sleep (BACKOFF_BASE_MS * 2 ^ Z.of_nat n')%Z
             (snd (fn (worldAtInvocation fn n' w))))
  end.

(** The delays of the first [n] retries. *)
Definition backoffDelays (n : nat) : list Z :=
  map (fun i => (BACKOFF_BASE_MS * 2 ^ Z.of_nat i)%Z) (seq 0 n).

(** The uniform result of one attempt. *)
Record AttemptOutcome := {
  ao_success : bool;
  ao_data : option Json;
  ao_raw : string;
  ao_errors : option (list ValidationError);
  ao_tokens : option (nat * nat);
}.

Definition generateArgs (model : ModelConfig) (messages : list Message)
    (config : Config) : GenerateArgs Temperature :=
  {| ga_model := model_handle model;
     ga_messages := messages;
     ga_temperature := if isReasoningModel model then None else Some (temperature config);
     ga_reasoningEffort := if isReasoningModel model then Some "low" else None |}.

Definition isRateLimitedProvider (model : ModelConfig) : bool :=
  existsb (String.eqb (model_provider model)) RATE_LIMITED_PROVIDERS.

(** [usage?.inputTokens || 0] and [usage?.outputTokens || 0] *)
Definition tokensOf (usage : option Usage) : nat * nat :=
  (default 0 (usage ≫= usage_inputTokens), default 0 (usage ≫= usage_outputTokens)).

Definition zodError (issues : list ZodIssue) : JsError :=
  {| err_class := ZodErrorClass; err_message := "ZodError"; err_status := None;
     err_text := None; err_issues := issues |}.

Definition syntaxError (msg : string) : JsError :=
  {| err_class := SyntaxErrorClass; err_message := msg; err_status := None;
     err_text := None; err_issues := [] |}.

(** [JSON.parse(text)] and [schema.parse(value)] as throwing computations. *)
Definition jsonParse {S} (text : string) : ST S Json :=
  match JSON_parse text with
  | inr value => ret value
  | inl msg => throw (syntaxError msg)
  end.

Definition schemaParse {S} (schema : Json -> ZodResult Json) (value : Json) : ST S Json :=
  match schema value with
  | ZodOk validated => ret validated
  | ZodFail issues => throw (zodError issues)
  end.

(** Non-strict mode: [generateText], then parse and validate. *)
Definition runNonStrictAttempt (model : ModelConfig) (messages : list Message)
    (schema : Json -> ZodResult Json) (config : Config) : M AttemptOutcome :=
  result <- withExponentialBackoff
              (callGenerateText (generateArgs model messages config))
              BACKOFF_MAX_RETRIES ;;
  (if isRateLimitedProvider model then sleep RATE_LIMIT_DELAY_MS else ret tt) ;;;
  let raw := tr_text result in
  let cleaned := extractJson raw in
  tryCatch
    (parsed <- jsonParse cleaned ;;
     validated <- schemaParse schema parsed ;;
     ret {| ao_success := true; ao_data := Some validated; ao_raw := raw;
            ao_errors := None; ao_tokens := Some (tokensOf (tr_usage result)) |})
    (fun error =>
       if instanceofZodError error then
         ret {| ao_success := false; ao_data := None; ao_raw := raw;
                ao_errors := Some (parseZodErrors (err_issues error));
                ao_tokens := Some (tokensOf (tr_usage result)) |}
       else if instanceofSyntaxError error then
         ret {| ao_success := false; ao_data := None; ao_raw := raw;
                ao_errors := Some [ {| ve_path := [];
                                       ve_message := "Invalid JSON: " +:+ err_message error;
                                       ve_code := "invalid_json" |} ];
                ao_tokens := Some (tokensOf (tr_usage result)) |}
       else throw error).

(** Strict mode: [generateObject]; everything thrown is caught. *)
Definition runStrictAttempt (model : ModelConfig) (messages : list Message)
    (schema : Json -> ZodResult Json) (config : Config) : M AttemptOutcome :=
  tryCatch
    (result <- withExponentialBackoff
                 (callGenerateObject (generateArgs model messages config) schema)
                 BACKOFF_MAX_RETRIES ;;
     (if isRateLimitedProvider model then sleep RATE_LIMIT_DELAY_MS else ret tt) ;;;
     ret {| ao_success := true; ao_data := Some (or_object result);
            ao_raw := JSON_stringify_indent2 (or_object result);
            ao_errors := None; ao_tokens := Some (tokensOf (or_usage result)) |})
    (fun error =>
       let rawText := match err_text error with
                      | Some t => t
                      | None => ""
                      end in
       if instanceofZodError error then
         ret {| ao_success := false; ao_data := None; ao_raw := rawText;
                ao_errors := Some (parseZodErrors (err_issues error));
                ao_tokens := None |}
       else
         let errorMessage := err_message error in
         ret {| ao_success := false; ao_data := None;
                ao_raw := if String.eqb rawText "" then "Error: " +:+ errorMessage else rawText;
                ao_errors := Some [ {| ve_path := []; ve_message := errorMessage;
                                       ve_code := "api_error" |} ];
                ao_tokens := None |}).

(** ** Scenario runners *)

Definition requestEvent (model : ModelConfig) (scenario runNum : nat)
    (step : option (nat * string)) (attempt : nat) (ts : Z) (promptText : string)
    : TestProgress :=
  {| tp_modelId := model_id model;
     tp_modelName := model_name model;
     tp_scenario := scenario;
     tp_runNumber := runNum;
     tp_stepNumber := fst <$> step;
     tp_stepName := snd <$> step;
     tp_attemptNumber := attempt;
     tp_status := if attempt =? 1 then StRunning else StRetrying;
     tp_message := None;
     tp_logEntry := Some
       {| log_timestamp := ts;
          log_modelId := model_id model;
          log_modelName := model_name model;
          log_scenario := scenario;
          log_runNumber := runNum;
          log_stepNumber := fst <$> step;
          log_stepName := snd <$> step;
          log_attemptNumber := attempt;
          log_type := LogRequest;
          log_prompt := Some promptText;
          log_response := None;
          log_validationResult := None |} |}.

Definition responseEvent (model : ModelConfig) (scenario runNum : nat)
    (step : option (nat * string)) (attempt : nat) (ts : Z)
    (result : AttemptOutcome) (message : option string) : TestProgress :=
  {| tp_modelId := model_id model;
     tp_modelName := model_name model;
     tp_scenario := scenario;
     tp_runNumber := runNum;
     tp_stepNumber := fst <$> step;
     tp_stepName := snd <$> step;
     tp_attemptNumber := attempt;
     tp_status := if ao_success result then StSuccess else StFailed;
     tp_message := message;
     tp_logEntry := Some
       {| log_timestamp := ts;
          log_modelId := model_id model;
          log_modelName := model_name model;
          log_scenario := scenario;
          log_runNumber := runNum;
          log_stepNumber := fst <$> step;
          log_stepName := snd <$> step;
          log_attemptNumber := attempt;
          log_type := LogResponse;
          log_prompt := None;
          log_response := Some (ao_raw result);
          log_validationResult := Some
            {| vr_success := ao_success result; vr_errors := ao_errors result |} |} |}.

(** The object literal that builds an [AttemptResult]; the same at all
    twelve places of the four runners. *)
Definition mkAttemptResult (attempt : nat) (ts duration : Z) (promptText : string)
    (result : AttemptOutcome) : Attempt :=
  {| attemptNumber := attempt;
     timestamp := ts;
     success := ao_success result;
     durationMs := duration;
     inputTokens := fst <$> ao_tokens result;
     outputTokens := snd <$> ao_tokens result;
     prompt := promptText;
     rawResponse := ao_raw result;
     parsedResponse := if ao_success result then ao_data result else None;
     validationErrors := default [] (ao_errors result);
     errorMessage := None |}.

(** The entries of [validationErrors] that the runners write for an
    outcome ([result.errors || []]). *)
Definition recordedErrors (result : AttemptOutcome) : list ValidationError :=
  default [] (ao_errors result).

(** The error list is empty exactly on success. *)
Definition errorsAgree (result : AttemptOutcome) : Prop :=
  if ao_success result then recordedErrors result = [] else recordedErrors result <> [].

Definition invalidJsonEntry (msg : string) : ValidationError :=
  {| ve_path := []; ve_message := "Invalid JSON: " +:+ msg; ve_code := "invalid_json" |}.

Definition apiErrorEntry (msg : string) : ValidationError :=
  {| ve_path := []; ve_message := msg; ve_code := "api_error" |}.

(** The attempt function of a mode. *)
Definition attemptIn (strict : bool) :=
  if strict then runStrictAttempt else runNonStrictAttempt.

Definition conversationMessage : Message :=
  {| role := user;
     content := "Here is a conversation between team members:"
                +:+ String "010" (String "010" "") +:+ formatConversation |}.

(** [result.errors?.[0]?.message] *)
Definition firstErrorMessage (result : AttemptOutcome) : option string :=
  ve_message <$> (ao_errors result ≫= head).

(** *** One-shot scenarios (1 and 2) *)

Definition oneShotMessages (strict : bool) (attempt : nat) (attempts : list Attempt)
    : list Message :=
  [ {| role := system; content := systemPrompt |};
    conversationMessage;
    {| role := user; content := if strict then oneShotStrictPrompt else getOneShotPrompt |} ]
  ++ match last attempts with
     | Some lastAttempt =>
         if 1 <? attempt
         then [ {| role := assistant; content := rawResponse lastAttempt |};
                {| role := user;
                   content := getRetryPrompt (rawResponse lastAttempt)
                                (validationErrors lastAttempt) |} ]
         else []
     | None => []
     end.

(** The attempt loop of a one-shot run.  It gives back the locals
    [attempts], [success] and [finalResponse] as the loop leaves them. *)
Fixpoint oneShotAttempts (strict : bool) (scenario : nat) (model : ModelConfig)
    (config : Config) (runNum fuel attempt : nat) (attempts : list Attempt)
    : M (list Attempt * bool * option Json) :=
  match fuel with
  | O => ret (attempts, false, None)
  | S fuel' =>
      attemptStartTime <- dateNow ;;
      let messages := oneShotMessages strict attempt attempts in
      let promptText := renderPrompt messages in
      ts <- dateNow ;;
      onProgress (requestEvent model scenario runNum None attempt ts promptText) ;;;
      result <- attemptIn strict model messages ResponseSchema config ;;
      now <- dateNow ;;
      let attemptDuration := (now - attemptStartTime)%Z in
      ts <- dateNow ;;
      let attemptResult := mkAttemptResult attempt ts attemptDuration promptText result in
      let attempts := attempts ++ [attemptResult] in
      ts <- dateNow ;;
      onProgress (responseEvent model scenario runNum None attempt ts result
                    (firstErrorMessage result)) ;;;
      if ao_success result
      then ret (attempts, true, ao_data result)
      else oneShotAttempts strict scenario model config runNum fuel' (S attempt) attempts
  end.

Definition oneShotRun (strict : bool) (scenario : nat) (model : ModelConfig)
    (config : Config) (runNum : nat) : M Run :=
  runStartTime <- dateNow ;;
  r <- oneShotAttempts strict scenario model config runNum (maxRetries config + 1) 1 [] ;;
  let '(attempts, success, finalResponse) := r in
  now <- dateNow ;;
  let runResult :=
    {| runNumber := runNum; runSuccess := success; attempts := attempts;
       steps := None; totalDurationMs := (now - runStartTime)%Z;
       finalResponse := finalResponse |} in
  onRunComplete {| rc_modelId := model_id model; rc_scenario := scenario;
                   rc_runNumber := runNum; rc_runResult := runResult;
                   rc_isSequential := false |} ;;;
  ret runResult.

(** [for (let runNum = 1; runNum <= config.runsPerScenario; runNum++)] *)
Fixpoint runLoop (oneRun : nat -> M Run) (fuel runNum : nat) (runs : list Run)
    : M (list Run) :=
  match fuel with
  | O => ret runs
  | S fuel' =>
      runResult <- oneRun runNum ;;
      runLoop oneRun fuel' (S runNum) (runs ++ [runResult])
  end.

Definition runScenario1 (model : ModelConfig) (config : Config) : M (list Run) :=
  runLoop (oneShotRun false 1 model config) (runsPerScenario config) 1 [].

Definition runScenario2 (model : ModelConfig) (config : Config) : M (list Run) :=
  runLoop (oneShotRun true 2 model config) (runsPerScenario config) 1 [].

(** *** Sequential scenarios (3 and 4) *)

Definition stepNumberOf (k : StepId) : nat :=
  match k with Step1 => 1 | Step2 => 2 | Step3 => 3 end.

Definition stepNameOf (k : StepId) : string :=
  match k with Step1 => "Recommendation" | Step2 => "Details" | Step3 => "AI Config" end.

Definition stepSchema (k : StepId) : Json -> ZodResult Json :=
  match k with
  | Step1 => SequentialPart1Schema
  | Step2 => SequentialPart2Schema
  | Step3 => SequentialPart3Schema
  end.

(** The attempt loop of one step.  It gives back [step.attempts],
    [step.success] and [stepNResult] as the loop leaves them. *)
Fixpoint stepAttemptLoop (strict : bool) (scenario : nat) (model : ModelConfig)
    (config : Config) (runNum : nat) (k : StepId) (fuel attempt : nat)
    (stepMessages : list Message) (stepAtts : list Attempt)
    : M (list Attempt * bool * option Json) :=
  match fuel with
  | O => ret (stepAtts, false, None)
  | S fuel' =>
      attemptStartTime <- dateNow ;;
      let promptText := renderPrompt stepMessages in
      let here := Some (stepNumberOf k, stepNameOf k) in
      ts <- dateNow ;;
      onProgress (requestEvent model scenario runNum here attempt ts promptText) ;;;
      result <- attemptIn strict model stepMessages (stepSchema k) config ;;
      ts <- dateNow ;;
      now <- dateNow ;;
      let attemptResult :=
        mkAttemptResult attempt ts (now - attemptStartTime)%Z promptText result in
      let stepAtts := stepAtts ++ [attemptResult] in
      ts <- dateNow ;;
      onProgress (responseEvent model scenario runNum here attempt ts result None) ;;;
      if ao_success result
      then ret (stepAtts, true, ao_data result)
      else
        let stepMessages :=
          stepMessages ++
          [ {| role := assistant; content := ao_raw result |};
            {| role := user;
               content := getRetryPrompt (ao_raw result) (default [] (ao_errors result)) |} ] in
        stepAttemptLoop strict scenario model config runNum k fuel' (S attempt)
          stepMessages stepAtts
  end.

(** One step up to the point where it is pushed: the finished
    [StepResult] and [stepNResult]. *)
Definition runStep (strict : bool) (scenario : nat) (model : ModelConfig)
    (config : Config) (runNum : nat) (k : StepId) (stepMessages : list Message)
    : M (Step * option Json) :=
  r <- stepAttemptLoop strict scenario model config runNum k
         (maxRetries config + 1) 1 stepMessages [] ;;
  let '(stepAtts, ok, stepResult) := r in
  ret ({| stepNumber := stepNumberOf k; stepName := stepNameOf k;
          stepSuccess := ok; stepAttempts := stepAtts |}, stepResult).

Definition step1Messages (strict : bool) : list Message :=
  [ {| role := system; content := systemPrompt |};
    conversationMessage;
    {| role := user; content := sequentialPrompts Step1 strict |} ].

Definition step2Messages (strict : bool) (step1Result : Json) : list Message :=
  [ {| role := system; content := systemPrompt |};
    conversationMessage;
    {| role := assistant; content := JSON_stringify step1Result |};
    {| role := user; content := sequentialPrompts Step2 strict |} ].

Definition step3Messages (strict : bool) (step1Result step2Result : Json)
    : list Message :=
  [ {| role := system; content := systemPrompt |};
    conversationMessage;
    {| role := assistant; content := JSON_stringify step1Result |};
    {| role := assistant; content := JSON_stringify step2Result |};
    {| role := user; content := sequentialPrompts Step3 strict |} ].

(** Inside the [try] block the local [steps] is state next to the world:
    what was pushed before a throw is still there in the [catch]. *)
Definition SeqState : Type := list Step * World.

Definition liftWorld {A} (m : M A) : ST SeqState A :=
  fun st => let '(c, w) := m (snd st) in (c, (fst st, w)).

Definition pushStep (step : Step) : ST SeqState unit :=
  modify (fun st => (fst st ++ [step], snd st)).

(** [if (!stepNResult) throw new Error(msg)]: the step schemas are object
    schemas, so a result that is present is an object and is truthy. *)
Definition requireResult (stepResult : option Json) (msg : string) : ST SeqState Json :=
  match stepResult with
  | Some value => ret value
  | None => throw (newError msg)
  end.

(** The body of the [try] block; its value is [merged]. *)
Definition sequentialPipeline (strict : bool) (scenario : nat) (model : ModelConfig)
    (config : Config) (runNum : nat) : ST SeqState Json :=
  s1 <- liftWorld (runStep strict scenario model config runNum Step1
                     (step1Messages strict)) ;;
  pushStep (fst s1) ;;;
  step1Result <- requireResult (snd s1) "Step 1 failed" ;;
  s2 <- liftWorld (runStep strict scenario model config runNum Step2
                     (step2Messages strict step1Result)) ;;
  pushStep (fst s2) ;;;
  step2Result <- requireResult (snd s2) "Step 2 failed" ;;
  s3 <- liftWorld (runStep strict scenario model config runNum Step3
                     (step3Messages strict step1Result step2Result)) ;;
  pushStep (fst s3) ;;;
  step3Result <- requireResult (snd s3) "Step 3 failed" ;;
  let merged := mergeSequentialParts step1Result step2Result step3Result in
  schemaParse ResponseSchema merged ;;;
  ret merged.

(** [try { ... success = true; finalResponse = merged } catch { }]: the
    locals [steps], [success] and [finalResponse] after the statement. *)
Definition sequentialTry (strict : bool) (scenario : nat) (model : ModelConfig)
    (config : Config) (runNum : nat) : M (list Step * bool * option Json) :=
  fun w =>
    match sequentialPipeline strict scenario model config runNum ([], w) with
    | (Normal merged, st) => (Normal (fst st, true, Some merged), snd st)
    | (Thrown _, st) => (Normal (fst st, false, None), snd st)
    end.

Definition sequentialRun (strict : bool) (scenario : nat) (model : ModelConfig)
    (config : Config) (runNum : nat) : M Run :=
  runStartTime <- dateNow ;;
  r <- sequentialTry strict scenario model config runNum ;;
  let '(steps, success, finalResponse) := r in
  now <- dateNow ;;
  let runResult :=
    {| runNumber := runNum; runSuccess := success; attempts := [];
       steps := Some steps; totalDurationMs := (now - runStartTime)%Z;
       finalResponse := finalResponse |} in
  onRunComplete {| rc_modelId := model_id model; rc_scenario := scenario;
                   rc_runNumber := runNum; rc_runResult := runResult;
                   rc_isSequential := true |} ;;;
  ret runResult.

Definition runScenario3 (model : ModelConfig) (config : Config) : M (list Run) :=
  runLoop (sequentialRun false 3 model config) (runsPerScenario config) 1 [].

Definition runScenario4 (model : ModelConfig) (config : Config) : M (list Run) :=
  runLoop (sequentialRun true 4 model config) (runsPerScenario config) 1 [].

(** ** What the attempt loops leave behind *)

Definition allFailed (atts : list Attempt) : Prop :=
  Forall (fun a => success a = false) atts.

(** At most [maxRetries + 1] attempts, numbered 1, 2, ...; only the last
    one can have succeeded; the flag says whether one did. *)
Definition attemptsWellFormed (maxRetries : nat) (atts : list Attempt) (flag : bool)
    : Prop :=
  length atts <= maxRetries + 1
  /\ map attemptNumber atts = seq 1 (length atts)
  /\ (forall i a, atts !! i = Some a -> S i < length atts -> success a = false)
  /\ (flag = true <-> exists a, a ∈ atts /\ success a = true).

(** Every attempt of a run, flat or in steps. *)
Definition attemptsOfRun (run : Run) : list Attempt :=
  attempts run ++ concat (map stepAttempts (default [] (steps run))).

(** A sequential run that is recorded as failed with the steps [sts]:
    it completes, nothing is attempted or reported after the world [wk]
    in which its last step ended, and the loop over the runs goes on with
    the next run. *)
Definition recordedAsFailed (strict : bool) (scenario : nat) (model : ModelConfig)
    (config : Config) (runNum : nat) (w wk : World) (sts : list Step) : Prop :=
  exists run w',
    sequentialRun strict scenario model config runNum w = (Normal run, w')
    /\ runSuccess run = false
    /\ finalResponse run = None
    /\ steps run = Some sts
    /\ attempts run = []
    /\ calls w' = calls wk
    /\ events w' = events wk
    /\ forall fuel runs,
         runLoop (sequentialRun strict scenario model config) (S fuel) runNum runs w
         = runLoop (sequentialRun strict scenario model config) fuel (S runNum)
             (runs ++ [run]) w'.

(** ** Suite orchestrator *)

Local Abbreviation Results := (gmap string (Storage.ScenarioResult Json)).

Definition dispatchScenario (scenario : nat) (model : ModelConfig) (config : Config)
    : M (list Run) :=
  match scenario with
  | 1 => runScenario1 model config
  | 2 => runScenario2 model config
  | 3 => runScenario3 model config
  | 4 => runScenario4 model config
  | _ => throw (newError ("Invalid scenario: " +:+ pretty scenario))
  end.

(** [for (const scenario of scenarios)] in [runModelTests]. *)
Fixpoint scenarioLoop (model : ModelConfig) (config : Config) (scenarios : list nat)
    (results : Results) : M Results :=
  match scenarios with
  | [] => ret results
  | scenario :: rest =>
      let isStrictScenario := (scenario =? 2) || (scenario =? 4) in
      if isStrictScenario && negb (supportsStrictMode model)
      then scenarioLoop model config rest results              (* continue *)
      else
        runs <- dispatchScenario scenario model config ;;
        let isSequential := (scenario =? 3) || (scenario =? 4) in
        scenarioLoop model config rest
          (<[ pretty scenario :=
                {| Storage.sr_runs := runs;
                   Storage.sr_summary :=
                     Storage.calculateScenarioSummary runs isSequential |} ]> results)
  end.

Definition runModelTests (modelId : string) (scenarios : list nat) (config : Config)
    : M Results :=
  match getModelWithKeys modelId (default noApiKeys (apiKeys config)) with
  | None => throw (newError ("Model not found or missing API key: " +:+ modelId))
  | Some model => scenarioLoop model config scenarios ∅
  end.

(** [for (const modelId of modelIds)] in [runFullTestSuite]. *)
Fixpoint modelLoop (modelIds : list string) (scenarios : list nat)
    (config : Config) (results : gmap string Results) : M (gmap string Results) :=
  match modelIds with
  | [] => ret results
  | modelId :: rest =>
      r <- runModelTests modelId scenarios config ;;
      modelLoop rest scenarios config (<[ modelId := r ]> results)
  end.

Definition runFullTestSuite (modelIds : list string) (scenarios : list nat)
    (config : Config) : M (gmap string Results) :=
  modelLoop modelIds scenarios config ∅.

End Runner.

(** ** The start handler ([app/api/run/route.ts]) and the active-runs table *)

Module Route.
Section Handler.
Context `{env : Environment}.

Inductive RunStatus := running | complete | cancelled | error.

#[export] Instance RunStatus_eq_dec : EqDecision RunStatus.
Proof. solve_decision. Defined.

(** An entry of [activeRuns]; of [progress] and [run] only what the
    start handler decides is kept (the grid of status cells is left out). *)
Record ActiveRun := {
  status : RunStatus;
  ar_models : list string;
  ar_scenarios : list nat;
  ar_runsPerScenario : nat;
  ar_maxAttempts : nat;
  ar_totalScenarios : nat;
  ar_error : option string;
}.

Record Body := {
  body_models : option (list string);
  body_scenarios : option (list nat);
  body_runsPerScenario : option nat;
  body_temperature : option Temperature;
  body_maxRetries : option nat;
}.

(** A request: its API-key headers and what [request.json()] resolves to
    ([None] when it rejects). *)
Record Request := {
  req_keys : ApiKeys;
  req_body : option Body;
}.

Record Response := {
  resp_status : Z;
  resp_payload : string;       (* the error text, or the run id *)
}.

Definition hasKeyForProvider (apiKeys : ApiKeys) (provider : string) : bool :=
  if String.eqb provider "openai" then
    truthy (orElse (key_openai apiKeys) (processEnv "OPENAI_API_KEY"))
  else if String.eqb provider "anthropic" then
    truthy (orElse (key_anthropic apiKeys) (processEnv "ANTHROPIC_API_KEY"))
  else if String.eqb provider "google" then
    truthy (orElse (key_google apiKeys) (processEnv "GOOGLE_GENERATIVE_AI_API_KEY"))
  else if String.eqb provider "groq" then
    truthy (orElse (key_groq apiKeys) (processEnv "GROQ_API_KEY"))
  else if String.eqb provider "openrouter" then
    truthy (orElse (key_openrouter apiKeys) (processEnv "OPENROUTER_API_KEY"))
  else false.

(** [Array.from(activeRuns.values()).filter(r => r.status === 'running')] *)
Definition runningRuns (activeRuns : gmap string ActiveRun) : list ActiveRun :=
  filter (fun r => status r = running) (snd <$> map_to_list activeRuns).

(** [POST] from its first statement to [await request.json()]: the
    response when the handler answers at once, [None] when it goes on to
    wait for the body. *)
Definition POST_until_await (activeRuns : gmap string ActiveRun) : option Response :=
  if 0 <? length (runningRuns activeRuns)
  then Some {| resp_status := 409;
               resp_payload := "A test is already running. Please wait for it to complete or cancel it." |}
  else None.

(** [POST] from the point where [request.json()] has settled; [runId] is
    the identifier [createTestRun] draws. *)
Definition POST_after_await (request : Request) (runId : string)
    (activeRuns : gmap string ActiveRun) : Response * gmap string ActiveRun :=
  match req_body request with
  | None =>
      ({| resp_status := 500; resp_payload := "Failed to start test run" |}, activeRuns)
  | Some body =>
      let modelIds := default (map def_id modelDefinitions) (body_models body) in
      let scenarios := default [1; 2; 3; 4] (body_scenarios body) in
      let runsPerScenario := default 10 (body_runsPerScenario body) in
      let maxRetries := default 3 (body_maxRetries body) in
      let validModelIds :=
        List.filter (fun id => match getModelDefinition id with
                               | None => false
                               | Some def => hasKeyForProvider (req_keys request)
                                               (def_provider def)
                               end) modelIds in
      if length validModelIds =? 0 then
        ({| resp_status := 400;
            resp_payload := "No valid models specified or missing API keys. Configure API keys in Settings." |},
         activeRuns)
      else
        let validScenarios := List.filter (fun s => (1 <=? s) && (s <=? 4)) scenarios in
        if length validScenarios =? 0 then
          ({| resp_status := 400; resp_payload := "No valid scenarios specified" |},
           activeRuns)
        else
          ({| resp_status := 200; resp_payload := runId |},
           <[ runId :=
                {| status := running;
                   ar_models := validModelIds;
                   ar_scenarios := validScenarios;
                   ar_runsPerScenario := runsPerScenario;
                   ar_maxAttempts := maxRetries + 1;
                   ar_totalScenarios := length validModelIds * length validScenarios;
                   ar_error := None |} ]> activeRuns)
  end.

(** The server between two turns of the event loop: the table, and the
    handlers that wait for their request body. *)
Record Server := {
  activeRuns : gmap string ActiveRun;
  waiting : list Request;
}.

Definition emptyServer : Server := {| activeRuns := ∅; waiting := [] |}.

Inductive Turn :=
| Arrive (request : Request)           (* a POST starts and runs to its await *)
| BodyRead (i : nat) (runId : string)  (* the i-th waiting handler resumes *)
| Settle (runId : string) (st : RunStatus)   (* the background task ends *)
| Collect (runId : string).            (* the delayed [activeRuns.delete] *)

Definition setStatus (st : RunStatus) (r : ActiveRun) : ActiveRun :=
  {| status := st; ar_models := ar_models r; ar_scenarios := ar_scenarios r;
     ar_runsPerScenario := ar_runsPerScenario r; ar_maxAttempts := ar_maxAttempts r;
     ar_totalScenarios := ar_totalScenarios r; ar_error := ar_error r |}.

Definition turn (t : Turn) (s : Server) : Server * option Response :=
  match t with
  | Arrive request =>
      match POST_until_await (activeRuns s) with
      | Some response => (s, Some response)
      | None => ({| activeRuns := activeRuns s; waiting := waiting s ++ [request] |}, None)
      end
  | BodyRead i runId =>
      match waiting s !! i with
      | None => (s, None)
      | Some request =>
          let '(response, table) := POST_after_await request runId (activeRuns s) in
          ({| activeRuns := table; waiting := delete i (waiting s) |}, Some response)
      end
  | Settle runId st =>
      ({| activeRuns := alter (setStatus st) runId (activeRuns s); waiting := waiting s |},
       None)
  | Collect runId =>
      ({| activeRuns := delete runId (activeRuns s); waiting := waiting s |}, None)
  end.

Definition turns (ts : list Turn) (s : Server) : Server :=
  foldl (fun s t => fst (turn t s)) s ts.

Definition runningCount (s : Server) : nat := length (runningRuns (activeRuns s)).

End Handler.
End Route.

(** ** A small concrete environment

    JSON values are their own text, a text parses when it opens with a
    brace, and a schema rejects a value that contains the word "bad".
    The provider is given as two scripts. *)

Module Demo.

Definition parseText (s : string) : string + string :=
  if String.prefix "{" s then inr s else inl "Unexpected token".

Definition requiredIssue : ZodIssue :=
  {| issue_path := [PKey "recommendation"; PIndex 0];
     issue_message := "Required";
     issue_code := "invalid_type" |}.

Definition rejectBad (s : string) : ZodResult string :=
  if JsString.includes "bad" s then ZodFail [requiredIssue] else ZodOk s.

(** The full schema also wants the three parts to be there. *)
Definition rejectShort (s : string) : ZodResult string :=
  if JsString.includes "bad" s || (String.length s <? 8)
  then ZodFail [requiredIssue] else ZodOk s.

Definition usage (i o : nat) : option Usage :=
  Some {| usage_inputTokens := Some i; usage_outputTokens := Some o |}.

Definition text (s : string) : Completion TextResult :=
  Normal {| tr_text := s; tr_usage := usage 100 50 |}.

Definition object (s : string) : Completion (ObjectResult string) :=
  Normal {| or_object := s; or_usage := usage 100 50 |}.

Definition networkError : JsError := newError "connect ECONNREFUSED".

Definition tooManyRequests : JsError :=
  {| err_class := OtherErrorClass; err_message := "Too Many Requests";
     err_status := Some 429%Z; err_text := None; err_issues := [] |}.

Definition environment (texts : nat -> Completion TextResult)
    (objects : nat -> Completion (ObjectResult string))
    (fullSchema : string -> ZodResult string) : Environment :=
  {| Json := string;
     Temperature := nat;
     JSON_parse := parseText;
     JSON_stringify := fun s => s;
     JSON_stringify_indent2 := fun s => s;
     clock := fun n => (1000 * Z.of_nat n)%Z;
     generateText := fun n _ => texts n;
     generateObject := fun n _ => objects n;
     ResponseSchema := fullSchema;
     SequentialPart1Schema := rejectBad;
     SequentialPart2Schema := rejectBad;
     SequentialPart3Schema := rejectBad;
     mergeSequentialParts := fun a b c => a +:+ b +:+ c;
     formatConversation := "Ana: which vendor? Ben: the second one.";
     systemPrompt := "You answer in JSON.";
     getOneShotPrompt := "Give the recommendation as JSON.";
     oneShotStrictPrompt := "Give the recommendation.";
     sequentialPrompts := fun k strict =>
       match k with
       | Step1 => "Recommend."
       | Step2 => "Give the details."
       | Step3 => "Give the AI configuration."
       end;
     getRetryPrompt := fun raw errors => "Your answer was not valid; try again.";
     extractJson := fun s => s;
     processEnv := fun name => if String.eqb name "GROQ_API_KEY" then Some "gsk" else None |}.

Definition config (retries runs : nat) : TestConfig nat :=
  {| temperature := 1; maxRetries := retries; runsPerScenario := runs; apiKeys := None |}.

Definition groqModel : ModelConfig :=
  {| model_id := "groq-kimi-k2"; model_name := "Kimi K2"; model_provider := "groq";
     model_handle := "moonshotai/kimi-k2-instruct-0905";
     supportsStrictMode := false; isReasoningModel := false |}.

Definition gpt4o : ModelConfig :=
  {| model_id := "openai-gpt4o"; model_name := "GPT-4o"; model_provider := "openai";
     model_handle := "gpt-4o"; supportsStrictMode := true; isReasoningModel := false |}.

(** Every call answers with a valid object. *)
Definition alwaysValid : Environment :=
  environment (fun _ => text "{ok}") (fun _ => object "{ok}") rejectBad.

(** Every call fails in the network. *)
Definition offline : Environment :=
  environment (fun _ => Thrown networkError) (fun _ => Thrown networkError) rejectBad.

(** The second call and the ones after it answer; the first is invalid. *)
Definition secondTry : Environment :=
  environment (fun n => if n =? 0 then text "{bad}" else text "{ok}")
              (fun n => if n =? 0 then Thrown networkError else object "{ok}")
              rejectBad.

(** The first two calls are answered 429, the third one answers. *)
Definition rateLimitedTwice : Environment :=
  environment (fun n => if n <? 2 then Thrown tooManyRequests else text "{ok}")
              (fun n => if n <? 2 then Thrown tooManyRequests else object "{ok}")
              rejectBad.

(** Every call answers with an invalid object. *)
Definition alwaysBad : Environment :=
  environment (fun _ => text "{bad}") (fun _ => Thrown networkError) rejectBad.

(** Each step answers "{}", which its schema accepts; the merge of the
    three is too short for the full schema. *)
Definition mergeFails : Environment :=
  environment (fun _ => text "{}") (fun _ => object "{}") rejectShort.

(** The first two steps answer; every later call is invalid. *)
Definition thirdStepFails : Environment :=
  environment (fun n => if n <? 2 then text "{ok}" else text "{bad}")
              (fun n => if n <? 2 then object "{ok}" else Thrown networkError)
              rejectBad.

(** The first step answers; every later call is invalid. *)
Definition secondStepFails : Environment :=
  environment (fun n => if n =? 0 then text "{ok}" else text "{bad}")
              (fun n => if n =? 0 then object "{ok}" else Thrown networkError)
              rejectBad.

End Demo.

(** * More of the code *)

(** ** What the runners leave in the logs *)

Section RunnerLogs.
Context `{env : Environment}.

Local Abbreviation Attempt := (AttemptResult Json).
Local Abbreviation Step := (StepResult Json).
Local Abbreviation Run := (RunResult Json).
Local Abbreviation Config := (TestConfig Temperature).

(** The two messages a retry adds after a failed attempt. *)
Definition retryMessages (a : Attempt) : list Message :=
  [ {| role := assistant; content := rawResponse a |};
    {| role := user;
       content := getRetryPrompt (rawResponse a) (validationErrors a) |} ].

(** The three messages every one-shot attempt starts from. *)
Definition oneShotBase (strict : bool) : list Message :=
  [ {| role := system; content := systemPrompt |};
    conversationMessage;
    {| role := user; content := if strict then oneShotStrictPrompt else getOneShotPrompt |} ].

(** The coordinate and status of a progress event: what the live table
    reads of it. *)
Record EventKey := {
  ek_modelId : string;
  ek_scenario : nat;
  ek_runNumber : nat;
  ek_stepNumber : option nat;
  ek_attemptNumber : nat;
  ek_status : ProgressStatus;
}.

Definition eventKey (p : TestProgress) : EventKey :=
  {| ek_modelId := tp_modelId p; ek_scenario := tp_scenario p;
     ek_runNumber := tp_runNumber p; ek_stepNumber := tp_stepNumber p;
     ek_attemptNumber := tp_attemptNumber p; ek_status := tp_status p |}.

(** The events of one recorded attempt: the request, then the response. *)
Definition attemptEventKeys (model : ModelConfig) (scenario runNum : nat)
    (stepNum : option nat) (a : Attempt) : list EventKey :=
  [ {| ek_modelId := model_id model; ek_scenario := scenario; ek_runNumber := runNum;
       ek_stepNumber := stepNum; ek_attemptNumber := attemptNumber a;
       ek_status := if attemptNumber a =? 1 then StRunning else StRetrying |};
    {| ek_modelId := model_id model; ek_scenario := scenario; ek_runNumber := runNum;
       ek_stepNumber := stepNum; ek_attemptNumber := attemptNumber a;
       ek_status := if success a then StSuccess else StFailed |} ].

(** What [onRunComplete] is called with for a run. *)
Definition reported (model : ModelConfig) (scenario : nat) (isSequential : bool)
    (run : Run) : RunCompleteEvent Json :=
  {| rc_modelId := model_id model; rc_scenario := scenario;
     rc_runNumber := runNumber run; rc_runResult := run;
     rc_isSequential := isSequential |}.

(** An attempt result that records an outcome of the attempt executor. *)
Definition recordsOutcome (strict : bool) (a : Attempt) : Prop :=
  exists model messages schema (config : Config) w r w' ts duration,
    attemptIn strict model messages schema config w = (Normal r, w')
    /\ a = mkAttemptResult (attemptNumber a) ts duration (renderPrompt messages) r.

(** What every recorded attempt satisfies, by mode. *)
Definition attemptConsistent (strict : bool) (a : Attempt) : Prop :=
  (success a = true <-> is_Some (parsedResponse a))
  /\ (success a = true -> validationErrors a = [])
  /\ (is_Some (inputTokens a) <-> is_Some (outputTokens a))
  /\ (if strict
      then is_Some (inputTokens a) <-> success a = true
      else is_Some (inputTokens a)).

(** How a one-shot run ends: on a success, with the parsed value of its
    last attempt as [finalResponse]; otherwise with the whole budget of
    [maxRetries + 1] attempts used and failed, and no [finalResponse]. *)
Definition oneShotEnding (config : Config) (run : Run) : Prop :=
  if runSuccess run
  then exists a, last (attempts run) = Some a
                 /\ success a = true
                 /\ finalResponse run = parsedResponse a
                 /\ is_Some (finalResponse run)
  else finalResponse run = None
       /\ allFailed (attempts run)
       /\ length (attempts run) = maxRetries config + 1.

(** The validated output of a step: the parsed value of its last attempt. *)
Definition stepOutput (s : Step) : option Json :=
  last (stepAttempts s) ≫= parsedResponse.

(** How a sequential run ends: on a success, with three successful steps
    and, as [finalResponse], the merge of their outputs, which the full
    schema accepts; otherwise without a [finalResponse] and with at most
    three steps. *)
Definition sequentialEnding (run : Run) : Prop :=
  if runSuccess run
  then exists s1 s2 s3 r1 r2 r3,
         steps run = Some [s1; s2; s3]
         /\ stepSuccess s1 = true /\ stepSuccess s2 = true /\ stepSuccess s3 = true
         /\ stepOutput s1 = Some r1 /\ stepOutput s2 = Some r2 /\ stepOutput s3 = Some r3
         /\ finalResponse run = Some (mergeSequentialParts r1 r2 r3)
         /\ exists validated,
              ResponseSchema (mergeSequentialParts r1 r2 r3) = ZodOk validated
  else finalResponse run = None
       /\ exists sts, steps run = Some sts /\ length sts <= 3.

(** Whether [runModelTests] runs a scenario for a model: a strict
    scenario only when the model supports strict mode. *)
Definition scenarioRuns (model : ModelConfig) (scenario : nat) : bool :=
  negb (((scenario =? 2) || (scenario =? 4)) && negb (supportsStrictMode model)).

(** An entry of the result map as [runModelTests] builds it for a
    scenario. *)
Definition entryOf (config : Config) (scenario : nat)
    (entry : Storage.ScenarioResult Json) : Prop :=
  length (Storage.sr_runs entry) = runsPerScenario config
  /\ Storage.sr_summary entry
     = Storage.calculateScenarioSummary (Storage.sr_runs entry)
         ((scenario =? 3) || (scenario =? 4)).

(** The attempt executor calls the provider and sleeps; it reads no clock
    and reports nothing. *)
Definition quiet (w w' : World) : Prop :=
  events w' = events w /\ completed w' = completed w /\ ticks w' = ticks w.

Definition loopLogs (strict : bool) (model : ModelConfig) (scenario runNum : nat)
    (stepNum : option nat) (w w' : World) (new : list Attempt) : Prop :=
  completed w' = completed w
  /\ map eventKey (events w')
     = map eventKey (events w)
       ++ concat (map (attemptEventKeys model scenario runNum stepNum) new)
  /\ Forall (recordsOutcome strict) new.

(** The events of the attempts of a recorded step, and of the steps of a
    sequential run. *)
Definition stepKeys (model : ModelConfig) (scenario runNum : nat) (s : Step)
    : list EventKey :=
  concat (map (attemptEventKeys model scenario runNum (Some (stepNumber s)))
            (stepAttempts s)).

Definition sequentialKeys (model : ModelConfig) (scenario : nat) (run : Run)
    : list EventKey :=
  concat (map (stepKeys model scenario (runNumber run)) (default [] (steps run))).

(** [getAvailableModels]: the models of the table that can be created,
    in the order of the table. *)
Definition getAvailableModels (apiKeys : ApiKeys) : list ModelConfig :=
  omap (fun definition => createModelWithKeys definition apiKeys) modelDefinitions.

End RunnerLogs.

(** ** The runners under the configuration of a start request

    [POST] reads [maxRetries] from the body of the request and hands it
    to the runners unvalidated.  Here it is an integer, so that a request
    with a negative [maxRetries] is covered: its loops
    [for (let attempt = 1; attempt <= config.maxRetries + 1; attempt++)]
    run no round at all.  The runners below are those of [test-runner.ts]
    once more, with such a configuration. *)

Module Requested.

(** The [config] that [runTestsInBackground] is called with. *)
Record RequestConfig {Temperature : Type} := {
  rq_temperature : Temperature;
  rq_maxRetries : Z;
  rq_runsPerScenario : nat;
  rq_apiKeys : option ApiKeys;
}.
Arguments RequestConfig Temperature : clear implicits.

Section Runner.
Context `{env : Environment}.

Local Abbreviation Attempt := (AttemptResult Json).
Local Abbreviation Step := (StepResult Json).
Local Abbreviation Run := (RunResult Json).
Local Abbreviation Config := (TestConfig Temperature).
Local Abbreviation RequestConfig := (Requested.RequestConfig Temperature).

(** What the attempt executor reads of it is the temperature. *)
Definition runnerConfig (config : RequestConfig) : Config :=
  {| temperature := rq_temperature config;
     maxRetries := Z.to_nat (rq_maxRetries config);
     runsPerScenario := rq_runsPerScenario config;
     apiKeys := rq_apiKeys config |}.

(** The rounds that [attempt <= config.maxRetries + 1] allows from
    [attempt = 1] on: [maxRetries + 1] of them, and none when that is not
    positive. *)
Definition attemptRounds (config : RequestConfig) : nat :=
  Z.to_nat (rq_maxRetries config + 1).

Definition oneShotRun (strict : bool) (scenario : nat) (model : ModelConfig)
    (config : RequestConfig) (runNum : nat) : M Run :=
  runStartTime <- dateNow ;;
  r <- oneShotAttempts strict scenario model (runnerConfig config) runNum
         (attemptRounds config) 1 [] ;;
  let '(attempts, success, finalResponse) := r in
  now <- dateNow ;;
  let runResult :=
    {| runNumber := runNum; runSuccess := success; attempts := attempts;
       steps := None; totalDurationMs := (now - runStartTime)%Z;
       finalResponse := finalResponse |} in
  onRunComplete {| rc_modelId := model_id model; rc_scenario := scenario;
                   rc_runNumber := runNum; rc_runResult := runResult;
                   rc_isSequential := false |} ;;;
  ret runResult.

Definition runScenario1 (model : ModelConfig) (config : RequestConfig) : M (list Run) :=
  runLoop (oneShotRun false 1 model config) (rq_runsPerScenario config) 1 [].

Definition runScenario2 (model : ModelConfig) (config : RequestConfig) : M (list Run) :=
  runLoop (oneShotRun true 2 model config) (rq_runsPerScenario config) 1 [].

Definition runStep (strict : bool) (scenario : nat) (model : ModelConfig)
    (config : RequestConfig) (runNum : nat) (k : StepId) (stepMessages : list Message)
    : M (Step * option Json) :=
  r <- stepAttemptLoop strict scenario model (runnerConfig config) runNum k
         (attemptRounds config) 1 stepMessages [] ;;
  let '(stepAtts, ok, stepResult) := r in
  ret ({| stepNumber := stepNumberOf k; stepName := stepNameOf k;
          stepSuccess := ok; stepAttempts := stepAtts |}, stepResult).

Definition sequentialPipeline (strict : bool) (scenario : nat) (model : ModelConfig)
    (config : RequestConfig) (runNum : nat) : ST SeqState Json :=
  s1 <- liftWorld (runStep strict scenario model config runNum Step1
                     (step1Messages strict)) ;;
  pushStep (fst s1) ;;;
  step1Result <- requireResult (snd s1) "Step 1 failed" ;;
  s2 <- liftWorld (runStep strict scenario model config runNum Step2
                     (step2Messages strict step1Result)) ;;
  pushStep (fst s2) ;;;
  step2Result <- requireResult (snd s2) "Step 2 failed" ;;
  s3 <- liftWorld (runStep strict scenario model config runNum Step3
                     (step3Messages strict step1Result step2Result)) ;;
  pushStep (fst s3) ;;;
  step3Result <- requireResult (snd s3) "Step 3 failed" ;;
  let merged := mergeSequentialParts step1Result step2Result step3Result in
  schemaParse ResponseSchema merged ;;;
  ret merged.

Definition sequentialTry (strict : bool) (scenario : nat) (model : ModelConfig)
    (config : RequestConfig) (runNum : nat) : M (list Step * bool * option Json) :=
  fun w =>
    match sequentialPipeline strict scenario model config runNum ([], w) with
    | (Normal merged, st) => (Normal (fst st, true, Some merged), snd st)
    | (Thrown _, st) => (Normal (fst st, false, None), snd st)
    end.

Definition sequentialRun (strict : bool) (scenario : nat) (model : ModelConfig)
    (config : RequestConfig) (runNum : nat) : M Run :=
  runStartTime <- dateNow ;;
  r <- sequentialTry strict scenario model config runNum ;;
  let '(steps, success, finalResponse) := r in
  now <- dateNow ;;
  let runResult :=
    {| runNumber := runNum; runSuccess := success; attempts := [];
       steps := Some steps; totalDurationMs := (now - runStartTime)%Z;
       finalResponse := finalResponse |} in
  onRunComplete {| rc_modelId := model_id model; rc_scenario := scenario;
                   rc_runNumber := runNum; rc_runResult := runResult;
                   rc_isSequential := true |} ;;;
  ret runResult.

Definition runScenario3 (model : ModelConfig) (config : RequestConfig) : M (list Run) :=
  runLoop (sequentialRun false 3 model config) (rq_runsPerScenario config) 1 [].

Definition runScenario4 (model : ModelConfig) (config : RequestConfig) : M (list Run) :=
  runLoop (sequentialRun true 4 model config) (rq_runsPerScenario config) 1 [].

Definition dispatchScenario (scenario : nat) (model : ModelConfig)
    (config : RequestConfig) : M (list Run) :=
  match scenario with
  | 1 => runScenario1 model config
  | 2 => runScenario2 model config
  | 3 => runScenario3 model config
  | 4 => runScenario4 model config
  | _ => throw (newError ("Invalid scenario: " +:+ pretty scenario))
  end.

End Runner.
End Requested.

(** ** The live progress table ([active-runs.ts] and the callbacks of
    [runTestsInBackground] in [route.ts]) *)

Module Live.

Inductive AttemptStatus := AsPending | AsRunning | AsFailed | AsSuccess | AsSkipped.

#[export] Instance AttemptStatus_eq_dec : EqDecision AttemptStatus.
Proof. solve_decision. Defined.

(** An array of cells; [None] is an empty slot, which an assignment past
    the end of a JavaScript array leaves behind. *)
Definition Cells : Type := list (option AttemptStatus).

Record StepProgress := {
  sp_stepNumber : nat;
  sp_stepName : string;
  sp_attempts : Cells;
}.

Record RunProgress := {
  rp_run : nat;
  rp_attempts : option Cells;
  rp_steps : option (list StepProgress);
  rp_final : AttemptStatus;          (* pending, success, failed or skipped *)
}.

Record ScenarioProgress := {
  sc_modelId : string;
  sc_modelName : string;
  sc_scenario : nat;
  sc_isSequential : bool;
  sc_isSkipped : bool;
  sc_runs : list RunProgress;
  sc_completedRuns : nat;
  sc_totalRuns : nat;
}.

Record DetailedProgress := {
  currentModel : string;
  currentModelName : string;
  currentScenario : nat;
  currentRun : nat;
  currentStep : option nat;
  currentStepName : option string;
  currentAttempt : nat;
  currentStatus : ProgressStatus;
  statusMessage : string;
  scenarios : list ScenarioProgress;
  totalScenarios : nat;
  completedScenarios : nat;
  maxAttempts : nat;
  logEntries : list LogEntry;
}.

(** *** The grid the start handler builds *)

(** [Array(n).fill(status)] *)
Definition filled (n : nat) (status : AttemptStatus) : Cells :=
  replicate n (Some status).

Definition initialRun (isSequential isSkipped : bool) (maxAttempts i : nat) : RunProgress :=
  let status := if isSkipped then AsSkipped else AsPending in
  if isSequential then
    {| rp_run := i + 1;
       rp_attempts := None;
       rp_steps := Some
         [ {| sp_stepNumber := 1; sp_stepName := "Recommendation";
              sp_attempts := filled maxAttempts status |};
           {| sp_stepNumber := 2; sp_stepName := "Details";
              sp_attempts := filled maxAttempts status |};
           {| sp_stepNumber := 3; sp_stepName := "AI Config";
              sp_attempts := filled maxAttempts status |} ];
       rp_final := status |}
  else
    {| rp_run := i + 1;
       rp_attempts := Some (filled maxAttempts status);
       rp_steps := None;
       rp_final := status |}.

Definition initialScenario (runsPerScenario maxAttempts : nat) (modelId : string)
    (scenario : nat) : ScenarioProgress :=
  let modelDef := getModelDefinition modelId in
  let isSequential := (scenario =? 3) || (scenario =? 4) in
  let isStrictScenario := (scenario =? 2) || (scenario =? 4) in
  let isSkipped :=
    isStrictScenario && negb (default false (def_supportsStrictMode <$> modelDef)) in
  {| sc_modelId := modelId;
     sc_modelName := match modelDef with
                     | Some def => if String.eqb (def_name def) "" then modelId
                                   else def_name def
                     | None => modelId
                     end;
     sc_scenario := scenario;
     sc_isSequential := isSequential;
     sc_isSkipped := isSkipped;
     sc_runs := map (initialRun isSequential isSkipped maxAttempts) (seq 0 runsPerScenario);
     sc_completedRuns := if isSkipped then runsPerScenario else 0;
     sc_totalRuns := runsPerScenario |}.

(** [scenariosProgress]: for each model, for each scenario. *)
Definition initialScenarios (validModelIds : list string) (validScenarios : list nat)
    (runsPerScenario maxAttempts : nat) : list ScenarioProgress :=
  concat (map (fun modelId =>
                 map (initialScenario runsPerScenario maxAttempts modelId) validScenarios)
              validModelIds).

(** *** Array assignment *)

(** [cells[i] = status], for an index that may be negative or past the
    end: a negative index names a property and changes no element, an
    index past the end extends the array with empty slots. *)
Definition setCell (i : Z) (status : AttemptStatus) (cells : Cells) : Cells :=
  if (i <? 0)%Z then cells
  else
    let n := Z.to_nat i in
    if n <? length cells then <[n := Some status]> cells
    else cells ++ replicate (n - length cells) None ++ [Some status].

(** [for (let i = from; i < upto; i++) cells[i] = status] *)
Definition setCellsFrom (from upto : nat) (status : AttemptStatus) (cells : Cells) : Cells :=
  foldl (fun cs i => setCell (Z.of_nat i) status cs) cells (seq from (upto - from)).

(** [cells.map(() => status)]: empty slots stay empty. *)
Definition mapCells (status : AttemptStatus) (cells : Cells) : Cells :=
  map (fun c => match c with Some _ => Some status | None => None end) cells.

(** *** The progress callback *)

(** The callback's own state: the entry's [progress] and the variables
    [lastModel] and [lastScenario] of the enclosing function. *)
Record State := {
  progress : DetailedProgress;
  lastModel : string;
  lastScenario : nat;
}.

Definition scenarioNames (scenario : nat) : string :=
  match scenario with
  | 1 => "one-shot non-strict mode"
  | 2 => "one-shot strict mode"
  | 3 => "sequential non-strict mode"
  | 4 => "sequential strict mode"
  | _ => "undefined"
  end.

Definition stepNames (stepNumber : nat) : string :=
  match stepNumber with
  | 1 => "Recommendation"
  | 2 => "Details"
  | 3 => "AI Config"
  | _ => "undefined"
  end.

(** A step number as a condition: absent and 0 are falsy. *)
Definition stepGiven (stepNumber : option nat) : option nat :=
  match stepNumber with
  | Some 0 => None
  | other => other
  end.

Definition statusMessageOf (maxAttempts : nat) (p : TestProgress) : string :=
  let isSequential := (tp_scenario p =? 3) || (tp_scenario p =? 4) in
  let scenarioName := scenarioNames (tp_scenario p) in
  let modelName := tp_modelName p in
  let step := if isSequential then stepGiven (tp_stepNumber p) else None in
  match tp_status p with
  | StRunning =>
      match step with
      | Some n => "Testing step " +:+ pretty n +:+ " (" +:+ stepNames n +:+ ") in "
                  +:+ scenarioName +:+ " with " +:+ modelName
      | None => "Testing " +:+ scenarioName +:+ " with " +:+ modelName
      end
  | StRetrying =>
      match step with
      | Some n => "Step " +:+ pretty n +:+ " (" +:+ stepNames n +:+ ") in "
                  +:+ scenarioName +:+ " with " +:+ modelName
                  +:+ " failed - retrying (" +:+ pretty (tp_attemptNumber p) +:+ "/"
                  +:+ pretty maxAttempts +:+ ")"
      | None => scenarioName +:+ " with " +:+ modelName
                +:+ " failed - retrying (" +:+ pretty (tp_attemptNumber p) +:+ "/"
                +:+ pretty maxAttempts +:+ ")"
      end
  | StSuccess =>
      match step with
      | Some n =>
          if n <? 3
          then "Step " +:+ pretty n +:+ " succeeded, moving to step "
               +:+ pretty (n + 1) +:+ "..."
          else "Run " +:+ pretty (tp_runNumber p) +:+ " succeeded!"
      | None => "Run " +:+ pretty (tp_runNumber p) +:+ " succeeded!"
      end
  | StFailed =>
      match step with
      | Some n => "Step " +:+ pretty n +:+ " (" +:+ stepNames n +:+ ") failed after "
                  +:+ pretty maxAttempts +:+ " attempts"
      | None => "Run failed after " +:+ pretty maxAttempts +:+ " attempts"
      end
  end.

(** [logEntries.push(entry)], then [slice(-100)] when there are more
    than 100. *)
Definition pushLog (entry : LogEntry) (entries : list LogEntry) : list LogEntry :=
  let pushed := entries ++ [entry] in
  if 100 <? length pushed then drop (length pushed - 100) pushed else pushed.

(** How the part of the callback that paints the grid is left. *)
Inductive Painted :=
| FellThrough                 (* the statements after it are run *)
| Returned                    (* [return] *)
| Threw (e : JsError).

Definition typeError (msg : string) : JsError :=
  {| err_class := OtherErrorClass; err_message := msg; err_status := None;
     err_text := None; err_issues := [] |}.

(** The cells of one attempt list after an event at [attemptIndex]; the
    flag says whether the run or step is thereby over. *)
Definition paintCells (maxAttempts : nat) (status : ProgressStatus) (attemptIndex : Z)
    (cells : Cells) : Cells :=
  match status with
  | StRunning => setCell attemptIndex AsRunning cells
  | StRetrying =>
      setCell attemptIndex AsRunning
        (if (0 <? attemptIndex)%Z then setCell (attemptIndex - 1) AsFailed cells else cells)
  | StSuccess =>
      setCellsFrom (Z.to_nat (attemptIndex + 1)) maxAttempts AsSkipped
        (setCell attemptIndex AsSuccess cells)
  | StFailed => setCell attemptIndex AsFailed cells
  end.

(** [for (let i = stepIndex + 1; i < 3; i++) steps[i].attempts = ...]:
    reading [attempts] of a step that is not there throws. *)
Fixpoint skipLaterSteps (indices : list nat) (steps : list StepProgress)
    : list StepProgress * option JsError :=
  match indices with
  | [] => (steps, None)
  | i :: rest =>
      match steps !! i with
      | None =>
          (steps,
           Some (typeError "Cannot read properties of undefined (reading 'attempts')"))
      | Some step =>
          skipLaterSteps rest
            (<[i := {| sp_stepNumber := sp_stepNumber step;
                       sp_stepName := sp_stepName step;
                       sp_attempts := mapCells AsSkipped (sp_attempts step) |}]> steps)
      end
  end.

Definition finish (final : AttemptStatus) (runIndex : nat) (runData : RunProgress)
    (sp : ScenarioProgress) (runs : list RunProgress) : ScenarioProgress :=
  {| sc_modelId := sc_modelId sp; sc_modelName := sc_modelName sp;
     sc_scenario := sc_scenario sp; sc_isSequential := sc_isSequential sp;
     sc_isSkipped := sc_isSkipped sp;
     sc_runs := <[runIndex := {| rp_run := rp_run runData;
                                 rp_attempts := rp_attempts runData;
                                 rp_steps := rp_steps runData;
                                 rp_final := final |}]> runs;
     sc_completedRuns := sc_completedRuns sp + 1;
     sc_totalRuns := sc_totalRuns sp |}.

Definition withRuns (sp : ScenarioProgress) (runs : list RunProgress) : ScenarioProgress :=
  {| sc_modelId := sc_modelId sp; sc_modelName := sc_modelName sp;
     sc_scenario := sc_scenario sp; sc_isSequential := sc_isSequential sp;
     sc_isSkipped := sc_isSkipped sp; sc_runs := runs;
     sc_completedRuns := sc_completedRuns sp; sc_totalRuns := sc_totalRuns sp |}.

Definition withSteps (runData : RunProgress) (steps : list StepProgress) : RunProgress :=
  {| rp_run := rp_run runData; rp_attempts := rp_attempts runData;
     rp_steps := Some steps; rp_final := rp_final runData |}.

Definition withAttempts (runData : RunProgress) (cells : Cells) : RunProgress :=
  {| rp_run := rp_run runData; rp_attempts := Some cells;
     rp_steps := rp_steps runData; rp_final := rp_final runData |}.

Definition withCells (step : StepProgress) (cells : Cells) : StepProgress :=
  {| sp_stepNumber := sp_stepNumber step; sp_stepName := sp_stepName step;
     sp_attempts := cells |}.

(** The block [if (runIndex >= 0 && runIndex < scenarioProgress.runs.length)]. *)
Definition paint (maxAttempts : nat) (p : TestProgress) (sp : ScenarioProgress)
    : ScenarioProgress * Painted :=
  let isSequential := (tp_scenario p =? 3) || (tp_scenario p =? 4) in
  let attemptIndex := (Z.of_nat (tp_attemptNumber p) - 1)%Z in
  let stepIndex := match stepGiven (tp_stepNumber p) with
                   | Some n => n - 1
                   | None => 0
                   end in
  match tp_runNumber p with
  | O => (sp, FellThrough)                       (* runIndex is -1 *)
  | S runIndex =>
      match sc_runs sp !! runIndex with
      | None => (sp, FellThrough)
      | Some runData =>
          match (if isSequential then rp_steps runData else None), rp_attempts runData with
          | Some steps, _ =>
              match steps !! stepIndex with
              | None => (sp, Returned)
              | Some step =>
                  let step' :=
                    withCells step
                      (paintCells maxAttempts (tp_status p) attemptIndex (sp_attempts step)) in
                  let steps' := <[stepIndex := step']> steps in
                  let painted := withSteps runData steps' in
                  match tp_status p with
                  | StSuccess =>
                      if stepIndex =? 2
                      then (finish AsSuccess runIndex painted sp (sc_runs sp), FellThrough)
                      else (withRuns sp (<[runIndex := painted]> (sc_runs sp)), FellThrough)
                  | StFailed =>
                      if (attemptIndex =? Z.of_nat maxAttempts - 1)%Z
                      then
                        match skipLaterSteps (seq (stepIndex + 1) (3 - (stepIndex + 1)))
                                steps' with
                        | (steps'', None) =>
                            (finish AsFailed runIndex (withSteps runData steps'') sp
                               (sc_runs sp), FellThrough)
                        | (steps'', Some e) =>
                            (withRuns sp (<[runIndex := withSteps runData steps'']>
                                            (sc_runs sp)), Threw e)
                        end
                      else (withRuns sp (<[runIndex := painted]> (sc_runs sp)), FellThrough)
                  | _ => (withRuns sp (<[runIndex := painted]> (sc_runs sp)), FellThrough)
                  end
              end
          | None, Some cells =>
              let painted :=
                withAttempts runData
                  (paintCells maxAttempts (tp_status p) attemptIndex cells) in
              match tp_status p with
              | StSuccess =>
                  (finish AsSuccess runIndex painted sp (sc_runs sp), FellThrough)
              | StFailed =>
                  if (attemptIndex =? Z.of_nat maxAttempts - 1)%Z
                  then (finish AsFailed runIndex painted sp (sc_runs sp), FellThrough)
                  else (withRuns sp (<[runIndex := painted]> (sc_runs sp)), FellThrough)
              | _ => (withRuns sp (<[runIndex := painted]> (sc_runs sp)), FellThrough)
              end
          | None, None => (sp, FellThrough)
          end
      end
  end.

(** [s => s.modelId === progress.modelId && s.scenario === progress.scenario] *)
Definition isFor (p : TestProgress) (s : ScenarioProgress) : bool :=
  String.eqb (sc_modelId s) (tp_modelId p) && (sc_scenario s =? tp_scenario p).

(** The object that [find] returned is changed in place: the first
    element that matches is replaced. *)
Fixpoint replaceFirst (matches : ScenarioProgress -> bool) (new : ScenarioProgress)
    (l : list ScenarioProgress) : list ScenarioProgress :=
  match l with
  | [] => []
  | s :: rest => if matches s then new :: rest else s :: replaceFirst matches new rest
  end.

Definition onProgress (maxAttempts : nat) (p : TestProgress) : ST State unit :=
  fun st =>
    let old := progress st in
    match find (isFor p) (scenarios old) with
    | None => (Normal tt, st)
    | Some scenarioProgress =>
        let '(painted, how) := paint maxAttempts p scenarioProgress in
        let updated :=
          {| currentModel := tp_modelId p;
             currentModelName := tp_modelName p;
             currentScenario := tp_scenario p;
             currentRun := tp_runNumber p;
             currentStep := tp_stepNumber p;
             currentStepName := tp_stepName p;
             currentAttempt := tp_attemptNumber p;
             currentStatus := tp_status p;
             statusMessage := statusMessageOf maxAttempts p;
             scenarios := replaceFirst (isFor p) painted (scenarios old);
             totalScenarios := totalScenarios old;
             completedScenarios := completedScenarios old;
             maxAttempts := Live.maxAttempts old;
             logEntries := match tp_logEntry p with
                           | Some entry => pushLog entry (logEntries old)
                           | None => logEntries old
                           end |} in
        match how with
        | Threw e =>
            (Thrown e, {| progress := updated; lastModel := lastModel st;
                          lastScenario := lastScenario st |})
        | Returned =>
            (Normal tt, {| progress := updated; lastModel := lastModel st;
                           lastScenario := lastScenario st |})
        | FellThrough =>
            if negb (String.eqb (lastModel st) (tp_modelId p))
               || negb (lastScenario st =? tp_scenario p)
            then
              (Normal tt,
               {| progress :=
                    {| currentModel := currentModel updated;
                       currentModelName := currentModelName updated;
                       currentScenario := currentScenario updated;
                       currentRun := currentRun updated;
                       currentStep := currentStep updated;
                       currentStepName := currentStepName updated;
                       currentAttempt := currentAttempt updated;
                       currentStatus := currentStatus updated;
                       statusMessage := statusMessage updated;
                       scenarios := scenarios updated;
                       totalScenarios := totalScenarios updated;
                       completedScenarios :=
                         length (List.filter
                                   (fun s => sc_completedRuns s =? sc_totalRuns s)
                                   (scenarios updated));
                       maxAttempts := Live.maxAttempts updated;
                       logEntries := logEntries updated |};
                  lastModel := tp_modelId p;
                  lastScenario := tp_scenario p |})
            else
              (Normal tt, {| progress := updated; lastModel := lastModel st;
                             lastScenario := lastScenario st |})
        end
    end.

(** The state after a sequence of events; an event whose callback throws
    leaves what it had changed. *)
Definition afterEvents (maxAttempts : nat) (events : list TestProgress) (st : State)
    : State :=
  foldl (fun st p => snd (onProgress maxAttempts p st)) st events.

(** The status titles of the cells that [RunProgressBars] draws for an
    attempt list: "Success" or "Failed" for an attempt that is there,
    "Skipped" for the rest of the [maxAttempts] cells. *)
Definition barCells {Json : Type} (maxAttempts : nat) (atts : list (AttemptResult Json))
    : Cells :=
  map (fun attemptIdx =>
         match atts !! attemptIdx with
         | Some attempt => Some (if success attempt then AsSuccess else AsFailed)
         | None => Some AsSkipped
         end) (seq 0 maxAttempts).

(** The entry's progress as the start handler registers it, with the
    callback's variables as [runTestsInBackground] initialises them.  The
    handler has answered 400 before this point when a list is empty, so
    the first elements are there. *)
Definition initialState (validModelIds : list string) (validScenarios : list nat)
    (runsPerScenario maxRetries : nat) : State :=
  let firstModel := default "" (head validModelIds) in
  {| progress :=
       {| currentModel := firstModel;
          currentModelName :=
            match getModelDefinition firstModel with
            | Some def => if String.eqb (def_name def) "" then firstModel else def_name def
            | None => firstModel
            end;
          currentScenario := default 0 (head validScenarios);
          currentRun := 1;
          currentStep := None;
          currentStepName := None;
          currentAttempt := 1;
          currentStatus := StRunning;
          statusMessage := "Starting tests...";
          scenarios := initialScenarios validModelIds validScenarios runsPerScenario
                         (maxRetries + 1);
          totalScenarios := length validModelIds * length validScenarios;
          completedScenarios := 0;
          maxAttempts := maxRetries + 1;
          logEntries := [] |};
     lastModel := "";
     lastScenario := 0 |}.

(** The row of a model and scenario, as the callback finds it. *)
Definition rowOf (modelId : string) (scenario : nat) (st : State)
    : option ScenarioProgress :=
  find (fun s => String.eqb (sc_modelId s) modelId && (sc_scenario s =? scenario))
       (scenarios (progress st)).

(** The events the callback does not ignore: those of a row of the table. *)
Definition hasRow (st : State) (p : TestProgress) : bool :=
  match rowOf (tp_modelId p) (tp_scenario p) st with
  | Some _ => true
  | None => false
  end.

(** [l.slice(-n)] *)
Definition lastEntries {A : Type} (n : nat) (l : list A) : list A :=
  drop (length l - n) l.

(** The row [sp] with other runs and [finished] more completed runs. *)
Definition repainted (sp : ScenarioProgress) (runs : list RunProgress) (finished : nat)
    : ScenarioProgress :=
  {| sc_modelId := sc_modelId sp; sc_modelName := sc_modelName sp;
     sc_scenario := sc_scenario sp; sc_isSequential := sc_isSequential sp;
     sc_isSkipped := sc_isSkipped sp;
     sc_runs := runs;
     sc_completedRuns := sc_completedRuns sp + finished;
     sc_totalRuns := sc_totalRuns sp |}.

(** The row [sp] with the flat run at [runIndex] repainted. *)
Definition flatRow (sp : ScenarioProgress) (runIndex : nat) (row : RunProgress)
    (cells : Cells) (final : AttemptStatus) (finished : nat) : ScenarioProgress :=
  repainted sp
    (<[runIndex := {| rp_run := rp_run row; rp_attempts := Some cells;
                      rp_steps := rp_steps row; rp_final := final |}]> (sc_runs sp))
    finished.

(** The row [sp] with the steps of the sequential run at [runIndex]
    repainted. *)
Definition stepsRow (sp : ScenarioProgress) (runIndex : nat) (row : RunProgress)
    (steps : list StepProgress) (final : AttemptStatus) (finished : nat)
    : ScenarioProgress :=
  repainted sp
    (<[runIndex := {| rp_run := rp_run row; rp_attempts := rp_attempts row;
                      rp_steps := Some steps; rp_final := final |}]> (sc_runs sp))
    finished.

(** A row after the events of its model and scenario. *)
Definition paintAll (maxAttempts : nat) (events : list TestProgress)
    (sp : ScenarioProgress) : ScenarioProgress :=
  foldl (fun sp p => fst (paint maxAttempts p sp)) sp events.

(** The run of the table that shows the bars of a one-shot run result. *)
Definition barsOfRun {Json : Type} (maxAttempts : nat) (row : RunProgress)
    (run : RunResult Json) : RunProgress :=
  {| rp_run := rp_run row;
     rp_attempts := Some (barCells maxAttempts (attempts run));
     rp_steps := rp_steps row;
     rp_final := if runSuccess run then AsSuccess else AsFailed |}.

(** The steps of the table that show the bars of the recorded steps of a
    sequential run, as [RunProgressBars] draws them; the cells of a step
    that was not reached are skipped. *)
Definition barsOfSteps {Json : Type} (maxAttempts : nat) (gridSteps : list StepProgress)
    (sts : list (StepResult Json)) : list StepProgress :=
  imap (fun i g =>
          withCells g
            match sts !! i with
            | Some s => barCells maxAttempts (stepAttempts s)
            | None => mapCells AsSkipped (sp_attempts g)
            end) gridSteps.

(** The run of the table that shows the bars of a sequential run result:
    it is final as a success when every recorded step succeeded. *)
Definition barsOfSequentialRun {Json : Type} (maxAttempts : nat) (row : RunProgress)
    (run : RunResult Json) : RunProgress :=
  let sts := default [] (steps run) in
  {| rp_run := rp_run row;
     rp_attempts := rp_attempts row;
     rp_steps := Some (barsOfSteps maxAttempts (default [] (rp_steps row)) sts);
     rp_final := if forallb stepSuccess sts then AsSuccess else AsFailed |}.

(** A sequential run that no thrown error cut short: its last recorded
    step failed, or all three steps are recorded. *)
Definition notCutShort {Json : Type} (run : RunResult Json) : Prop :=
  let sts := default [] (steps run) in
  forallb stepSuccess sts = true -> length sts = 3.

#[global] Instance notCutShort_dec {Json : Type} (run : RunResult Json)
    : Decision (notCutShort run).
Proof. unfold notCutShort. simpl. apply _. Defined.

(** An event of one run of one model and scenario. *)
Definition fromRun (modelId : string) (scenario runNum : nat) (p : TestProgress) : Prop :=
  tp_modelId p = modelId /\ tp_scenario p = scenario /\ tp_runNumber p = runNum.

(** An event that ends no sequential run: it is not the success of a
    third step, and not a failure of the last attempt allowed. *)
Definition endsNoRun (maxAttempts : nat) (p : TestProgress) : Prop :=
  match tp_status p with
  | StSuccess => tp_stepNumber p <> Some 3
  | StFailed => tp_attemptNumber p <> maxAttempts
  | _ => True
  end.

(** Two rows with the same identity and number of runs. *)
Definition sameRow (sp sp' : ScenarioProgress) : Prop :=
  sc_modelId sp' = sc_modelId sp /\ sc_modelName sp' = sc_modelName sp
  /\ sc_scenario sp' = sc_scenario sp /\ sc_isSequential sp' = sc_isSequential sp
  /\ sc_isSkipped sp' = sc_isSkipped sp /\ sc_totalRuns sp' = sc_totalRuns sp
  /\ length (sc_runs sp') = length (sc_runs sp).

(** The cells before attempt [k + 1]: the attempts so far are painted as
    failed. *)
Definition failedBefore (maxAttempts k : nat) (cells : Cells) : Prop :=
  length cells = maxAttempts /\ forall j, j < k -> cells !! j = Some (Some AsFailed).

(** The cells of an attempt list after the request and the response
    event of attempt [k + 1]. *)
Definition attemptCells (maxAttempts k : nat) (ok : bool) (cells : Cells) : Cells :=
  paintCells maxAttempts (if ok then StSuccess else StFailed) (Z.of_nat k)
    (paintCells maxAttempts (if S k =? 1 then StRunning else StRetrying) (Z.of_nat k)
       cells).

(** [for (let i = stepIndex + 1; i < 3; i++)] on a run with three steps. *)
Definition skipLater (k : nat) (steps : list StepProgress) : list StepProgress :=
  fst (skipLaterSteps (seq (k + 1) (3 - (k + 1))) steps).

(** Every sequential run of the table has its three steps. *)
Definition threeSteps (st : State) : Prop :=
  Forall (fun sp =>
            Forall (fun row => forall steps, rp_steps row = Some steps -> length steps = 3)
                   (sc_runs sp))
         (scenarios (progress st)).

End Live.

Module LiveDemo.
Import Demo Live.

(** The table of a run of one Groq model on scenarios 1 and 3, two runs
    each, three retries. *)
Definition table : State := initialState ["groq-kimi-k2"] [1; 3] 2 3.

(** The first call fails in the network; every later call answers. *)
Definition firstCallDrops : Environment :=
  environment (fun n => if n =? 0 then Thrown networkError else text "{ok}")
              (fun n => if n =? 0 then Thrown networkError else object "{ok}")
              rejectBad.

(** The configuration of a start request. *)
Definition requested (retries : Z) (runs : nat) : Requested.RequestConfig nat :=
  {| Requested.rq_temperature := 1; Requested.rq_maxRetries := retries;
     Requested.rq_runsPerScenario := runs; Requested.rq_apiKeys := None |}.

(** The first event of scenario 1. *)
Definition firstRequest : TestProgress :=
  requestEvent groqModel 1 1 None 1 0%Z "prompt".

End LiveDemo.

(** * Properties *)

Section RunnerFacts.
Context `{env : Environment}.

Local Abbreviation Attempt := (AttemptResult Json).
Local Abbreviation Step := (StepResult Json).
Local Abbreviation Run := (RunResult Json).
Local Abbreviation Config := (TestConfig Temperature).

(** ** The backoff wrapper *)

Lemma isRateLimitError_spec (error : JsError) :
  isRateLimitError error = true <->
  (instanceofError error = true /\
   (JsString.includes "429" (JsString.toLowerCase (err_message error)) = true
    \/ JsString.includes "rate limit" (JsString.toLowerCase (err_message error)) = true
    \/ JsString.includes "too many requests"
         (JsString.toLowerCase (err_message error)) = true))
  \/ err_status error = Some 429%Z.
Proof.
  unfold isRateLimitError.
  destruct (instanceofError error); simpl.
  - destruct (JsString.includes "429" _) eqn:E1; simpl; [tauto|].
    destruct (JsString.includes "rate limit" _) eqn:E2; simpl; [tauto|].
    destruct (JsString.includes "too many requests" _) eqn:E3; simpl; [tauto|].
    destruct (err_status error) as [st|]; [|split; [discriminate | intros [[_ [|[|]]]|]; discriminate]].
    rewrite Z.eqb_eq. split.
    + intros ->. now right.
    + intros [[_ [|[|]]]|]; try discriminate. congruence.
  - destruct (err_status error) as [st|].
    + rewrite Z.eqb_eq. split; [intros ->; now right|].
      intros [[? _]|]; [discriminate | congruence].
    + split; [discriminate | intros [[? _]|]; discriminate].
Qed.

Lemma backoffLoop_reaches {T} (fn : M T) (maxRetries n : nat) (w : World) :
  n <= maxRetries ->
  (forall i, i < n ->
     exists e, fst (fn (worldAtInvocation fn i w)) = Thrown e
               /\ isRateLimitError e = true) ->
  (n = maxRetries \/
   forall e, fst (fn (worldAtInvocation fn n w)) = Thrown e -> isRateLimitError e = false) ->
  forall k a lastError,
    a + k = n ->
    backoffLoop fn maxRetries (maxRetries + 1 - a) a lastError (worldAtInvocation fn a w)
    = fn (worldAtInvocation fn n w).
Proof.
  intros Hn Hfail Hstop k.
  induction k as [|k IH]; intros a lastError Hak.
  - assert (a = n) by lia. subst a.
    replace (maxRetries + 1 - n) with (S (maxRetries - n)) by lia.
    simpl. unfold tryCatch.
    destruct (fn (worldAtInvocation fn n w)) as [[v|e] w'] eqn:E; [reflexivity|].
    destruct Hstop as [->|Hstop].
    + rewrite Nat.ltb_irrefl, andb_false_r. reflexivity.
    + rewrite (Hstop e eq_refl). reflexivity.
  - assert (Ha : a < n) by lia.
    replace (maxRetries + 1 - a) with (S (maxRetries + 1 - S a)) by lia.
    simpl. unfold tryCatch.
    destruct (Hfail a Ha) as (e & He & Hrl).
    destruct (fn (worldAtInvocation fn a w)) as [[v|e'] w'] eqn:E; simpl in He; [discriminate|].
    injection He as ->. rewrite Hrl.
    assert ((a <? maxRetries) = true) as -> by (apply Nat.ltb_lt; lia).
    simpl. unfold bind. simpl.
    assert (Hk : S a + k = n) by lia.
    specialize (IH (S a) e Hk).
    simpl in IH. rewrite E in IH. simpl in IH. exact IH.
Qed.

Lemma slept_worldAtInvocation {T} (fn : M T) (w : World) :
  (forall w0, slept (snd (fn w0)) = slept w0) ->
  forall n, slept (worldAtInvocation fn n w) = slept w ++ backoffDelays n.
Proof.
  intros Hframe n. induction n as [|n IH].
  - simpl. unfold backoffDelays. simpl. now rewrite app_nil_r.
  - simpl. rewrite Hframe, IH. unfold backoffDelays.
    rewrite seq_S, map_app, app_assoc. reflexivity.
Qed.

Lemma withExponentialBackoff_reaches {T} (fn : M T) (maxRetries n : nat) (w : World) :
  n <= maxRetries ->
  (forall i, i < n ->
     exists e, fst (fn (worldAtInvocation fn i w)) = Thrown e
               /\ isRateLimitError e = true) ->
  (n = maxRetries \/
   forall e, fst (fn (worldAtInvocation fn n w)) = Thrown e -> isRateLimitError e = false) ->
  withExponentialBackoff fn maxRetries w = fn (worldAtInvocation fn n w).
Proof.
  intros Hn Hfail Hstop.
  unfold withExponentialBackoff.
  pose proof (backoffLoop_reaches fn maxRetries n w Hn Hfail Hstop n 0 jsUndefined) as H.
  replace (maxRetries + 1 - 0) with (maxRetries + 1) in H by lia.
  apply H. reflexivity.
Qed.

Lemma withExponentialBackoff_rethrows_at_once {T} (fn : M T) (maxRetries : nat)
    (w w' : World) (e : JsError) :
  fn w = (Thrown e, w') ->
  isRateLimitError e = false ->
  withExponentialBackoff fn maxRetries w = (Thrown e, w').
Proof.
  intros Hfn Hrl.
  rewrite (withExponentialBackoff_reaches fn maxRetries 0 w).
  - exact Hfn.
  - lia.
  - intros i Hi. lia.
  - right. intros e0 He0. simpl in He0. rewrite Hfn in He0. simpl in He0.
    injection He0 as <-. exact Hrl.
Qed.

Lemma withExponentialBackoff_returns_at_once {T} (fn : M T) (maxRetries : nat)
    (w w' : World) (v : T) :
  fn w = (Normal v, w') ->
  withExponentialBackoff fn maxRetries w = (Normal v, w').
Proof.
  intros Hfn.
  rewrite (withExponentialBackoff_reaches fn maxRetries 0 w).
  - exact Hfn.
  - lia.
  - intros i Hi. lia.
  - right. intros e0 He0. simpl in He0. rewrite Hfn in He0. discriminate.
Qed.

(** C6. A call that fails with a rate-limit signal is repeated after a
    delay of [BACKOFF_BASE_MS] doubled at each retry, at most
    [maxRetries] times, and then the last error is thrown; any other error
    is thrown at once, with no further call and no delay.  The signal is
    an Error whose lower-cased message contains "429", "rate limit" or
    "too many requests", or a value with a [status] of 429. *)
Theorem withExponentialBackoff_policy :
  (forall error : JsError,
     isRateLimitError error = true <->
     (instanceofError error = true /\
      (JsString.includes "429" (JsString.toLowerCase (err_message error)) = true
       \/ JsString.includes "rate limit" (JsString.toLowerCase (err_message error)) = true
       \/ JsString.includes "too many requests"
            (JsString.toLowerCase (err_message error)) = true))
     \/ err_status error = Some 429%Z)
  /\ (forall (T : Type) (fn : M T) (maxRetries n : nat) (w : World),
        n <= maxRetries ->
        (forall i, i < n ->
           exists e, fst (fn (worldAtInvocation fn i w)) = Thrown e
                     /\ isRateLimitError e = true) ->
        (n = maxRetries \/
         forall e, fst (fn (worldAtInvocation fn n w)) = Thrown e ->
                   isRateLimitError e = false) ->
        withExponentialBackoff fn maxRetries w = fn (worldAtInvocation fn n w)
        /\ ((forall w0, slept (snd (fn w0)) = slept w0) ->
            slept (snd (withExponentialBackoff fn maxRetries w))
            = slept w ++ backoffDelays n))
  /\ (forall (T : Type) (fn : M T) (maxRetries : nat) (w w' : World) (e : JsError),
        fn w = (Thrown e, w') ->
        isRateLimitError e = false ->
        withExponentialBackoff fn maxRetries w = (Thrown e, w'))
  /\ backoffDelays BACKOFF_MAX_RETRIES = [5000; 10000; 20000; 40000]%Z.
Proof.
  split; [exact isRateLimitError_spec|].
  split; [|split].
  - intros T fn maxRetries n w Hn Hfail Hstop. split.
    + now apply withExponentialBackoff_reaches.
    + intros Hframe.
      rewrite (withExponentialBackoff_reaches fn maxRetries n w Hn Hfail Hstop).
      rewrite Hframe. now apply slept_worldAtInvocation.
  - intros T fn maxRetries w w' e. apply withExponentialBackoff_rethrows_at_once.
  - reflexivity.
Qed.

(** ** The attempt executor *)

Lemma backoffLoop_thrown_by_fn {T} (fn : M T) (maxRetries : nat) :
  forall fuel a lastError w e w',
    (fuel = 0 -> exists w0, fst (fn w0) = Thrown lastError) ->
    backoffLoop fn maxRetries fuel a lastError w = (Thrown e, w') ->
    exists w0, fst (fn w0) = Thrown e.
Proof.
  induction fuel as [|fuel IH]; intros a lastError w e w' Hlast Hrun.
  - simpl in Hrun. unfold throw in Hrun. injection Hrun as <- _. now apply Hlast.
  - simpl in Hrun. unfold tryCatch in Hrun.
    destruct (fn w) as [[v|e0] w1] eqn:E; [discriminate|].
    destruct (isRateLimitError e0 && (a <? maxRetries)).
    + unfold bind in Hrun. simpl in Hrun.
      eapply IH; [|exact Hrun].
      intros _. exists w. now rewrite E.
    + unfold throw in Hrun. injection Hrun as <- _. exists w. now rewrite E.
Qed.

Lemma withExponentialBackoff_thrown_by_fn {T} (fn : M T) (maxRetries : nat) w e w' :
  withExponentialBackoff fn maxRetries w = (Thrown e, w') ->
  exists w0, fst (fn w0) = Thrown e.
Proof.
  unfold withExponentialBackoff. apply backoffLoop_thrown_by_fn. lia.
Qed.

(** A transport error that is no rate-limit signal leaves [runStrictAttempt]
    as a failed attempt with one [api_error] entry. *)
Lemma runStrictAttempt_records_transport_error model messages schema config w e :
  generateObject (calls w) (generateArgs model messages config) = Thrown e ->
  isRateLimitError e = false ->
  instanceofZodError e = false ->
  runStrictAttempt model messages schema config w
  = (Normal {| ao_success := false; ao_data := None;
               ao_raw := if String.eqb (default "" (err_text e)) ""
                         then "Error: " +:+ err_message e
                         else default "" (err_text e);
               ao_errors := Some [apiErrorEntry (err_message e)];
               ao_tokens := None |}, nextCall w).
Proof.
  intros Hcall Hrl Hzod.
  unfold runStrictAttempt, tryCatch, bind.
  rewrite (withExponentialBackoff_rethrows_at_once _ BACKOFF_MAX_RETRIES w (nextCall w) e).
  - rewrite Hzod. unfold ret. destruct (err_text e); reflexivity.
  - unfold callGenerateObject. now rewrite Hcall.
  - exact Hrl.
Qed.

(** C2 (as the code behaves).  In non-strict mode the call is made outside
    any [try]: a transport error that is no rate-limit signal leaves
    [runNonStrictAttempt] as a thrown error, not as a failed attempt. *)
Theorem runNonStrictAttempt_lets_transport_error_escape :
  forall model messages schema (config : Config) w e,
    generateText (calls w) (generateArgs model messages config) = Thrown e ->
    isRateLimitError e = false ->
    runNonStrictAttempt model messages schema config w = (Thrown e, nextCall w).
Proof.
  intros model messages schema config w e Hcall Hrl.
  unfold runNonStrictAttempt, bind.
  rewrite (withExponentialBackoff_rethrows_at_once _ BACKOFF_MAX_RETRIES w (nextCall w) e).
  - reflexivity.
  - unfold callGenerateText. now rewrite Hcall.
  - exact Hrl.
Qed.

Lemma runNonStrictAttempt_outcome model messages schema (config : Config) w r w' :
  runNonStrictAttempt model messages schema config w = (Normal r, w') ->
  match JSON_parse (extractJson (ao_raw r)) with
  | inl msg =>
      ao_success r = false /\ ao_data r = None
      /\ ao_errors r = Some [invalidJsonEntry msg]
  | inr parsed =>
      match schema parsed with
      | ZodOk validated =>
          ao_success r = true /\ ao_data r = Some validated /\ ao_errors r = None
      | ZodFail issues =>
          ao_success r = false /\ ao_data r = None
          /\ ao_errors r = Some (parseZodErrors issues)
      end
  end.
Proof.
  unfold runNonStrictAttempt, bind.
  destruct (withExponentialBackoff _ _ w) as [[result|e] w1]; [|discriminate].
  unfold tryCatch, bind, jsonParse, schemaParse, ret, throw, sleep.
  destruct (JSON_parse (extractJson (tr_text result))) as [msg|parsed] eqn:Eparse;
    [|destruct (schema parsed) as [validated|issues] eqn:Eschema];
    destruct (isRateLimitedProvider model); simpl;
    intros [= <- _]; simpl; rewrite Eparse, ?Eschema; auto.
Qed.

Lemma runStrictAttempt_outcome model messages schema (config : Config) w :
  exists r w',
    runStrictAttempt model messages schema config w = (Normal r, w')
    /\ match fst (withExponentialBackoff
                    (callGenerateObject (generateArgs model messages config) schema)
                    BACKOFF_MAX_RETRIES w) with
       | Normal result =>
           ao_success r = true /\ ao_data r = Some (or_object result)
           /\ ao_errors r = None
       | Thrown e =>
           ao_success r = false /\ ao_data r = None
           /\ ao_errors r = Some (if instanceofZodError e
                                  then parseZodErrors (err_issues e)
                                  else [apiErrorEntry (err_message e)])
       end.
Proof.
  unfold runStrictAttempt, tryCatch, bind.
  destruct (withExponentialBackoff _ _ w) as [[result|e] w1]; simpl.
  - destruct (isRateLimitedProvider model); simpl; eauto 10.
  - destruct (instanceofZodError e); simpl; eauto 10.
Qed.

Lemma parseZodErrors_nonempty issues : issues <> [] -> parseZodErrors issues <> [].
Proof. destruct issues; [congruence | discriminate]. Qed.

(** Success comes with the validated value, failure without one. *)
Lemma attemptIn_data strict model messages schema (config : Config) w r w' :
  attemptIn strict model messages schema config w = (Normal r, w') ->
  if ao_success r then is_Some (ao_data r) else ao_data r = None.
Proof.
  destruct strict; simpl; intros Hrun.
  - destruct (runStrictAttempt_outcome model messages schema config w)
      as (r0 & w0 & Hrun0 & Hcase).
    rewrite Hrun in Hrun0. injection Hrun0 as <- <-.
    destruct (fst _) in Hcase; destruct Hcase as (-> & -> & _); eauto.
  - apply runNonStrictAttempt_outcome in Hrun.
    destruct (JSON_parse _); [destruct Hrun as (-> & -> & _); eauto|].
    destruct (schema _); destruct Hrun as (-> & -> & _); eauto.
Qed.

(** C9. The error list of an attempt result is empty exactly when the
    attempt succeeded: a Zod failure gives the parsed issues, a JSON
    failure one [invalid_json] entry, a strict-mode transport failure one
    [api_error] entry, a success no [errors] at all, recorded as the
    empty list.  A ZodError is taken to carry at least one issue. *)
Theorem attempt_errors_agree_with_success :
  (forall model messages schema (config : Config) w r w',
     (forall value issues, schema value = ZodFail issues -> issues <> []) ->
     runNonStrictAttempt model messages schema config w = (Normal r, w') ->
     errorsAgree r
     /\ match JSON_parse (extractJson (ao_raw r)) with
        | inl msg => ao_success r = false /\ ao_errors r = Some [invalidJsonEntry msg]
        | inr parsed =>
            match schema parsed with
            | ZodOk _ => ao_success r = true /\ ao_errors r = None
            | ZodFail issues =>
                ao_success r = false /\ ao_errors r = Some (parseZodErrors issues)
            end
        end)
  /\ (forall model messages schema (config : Config) w,
       (forall n args e, generateObject n args = Thrown e ->
                         instanceofZodError e = true -> err_issues e <> []) ->
       exists r w',
         runStrictAttempt model messages schema config w = (Normal r, w')
         /\ errorsAgree r
         /\ match fst (withExponentialBackoff
                         (callGenerateObject (generateArgs model messages config) schema)
                         BACKOFF_MAX_RETRIES w) with
            | Normal _ => ao_success r = true /\ ao_errors r = None
            | Thrown e =>
                ao_success r = false
                /\ ao_errors r = Some (if instanceofZodError e
                                       then parseZodErrors (err_issues e)
                                       else [apiErrorEntry (err_message e)])
            end)
  /\ (forall attempt ts duration promptText result,
       validationErrors (mkAttemptResult attempt ts duration promptText result)
       = recordedErrors result).
Proof.
  split; [|split].
  - intros model messages schema config w r w' Hzod Hrun.
    apply runNonStrictAttempt_outcome in Hrun.
    unfold errorsAgree, recordedErrors.
    destruct (JSON_parse _) as [msg|parsed].
    + destruct Hrun as (-> & _ & ->). simpl. split; [discriminate | auto].
    + destruct (schema parsed) as [validated|issues] eqn:Eschema.
      * destruct Hrun as (-> & _ & ->). simpl. auto.
      * destruct Hrun as (-> & _ & ->). simpl. split; [|auto].
        apply parseZodErrors_nonempty. eapply Hzod, Eschema.
  - intros model messages schema config w Hzod.
    destruct (runStrictAttempt_outcome model messages schema config w)
      as (r & w' & Hrun & Hcase).
    exists r, w'. split; [exact Hrun|].
    unfold errorsAgree, recordedErrors.
    destruct (withExponentialBackoff _ _ w) as [[result|e] w1] eqn:Ecall; simpl in Hcase.
    + destruct Hcase as (-> & _ & ->). simpl. auto.
    + destruct Hcase as (-> & _ & ->). simpl. split; [|auto].
      destruct (instanceofZodError e) eqn:Ez; [|discriminate].
      apply parseZodErrors_nonempty.
      destruct (withExponentialBackoff_thrown_by_fn _ _ _ _ _ Ecall) as (w0 & Hw0).
      unfold callGenerateObject in Hw0. simpl in Hw0.
      eapply Hzod; [exact Hw0 | exact Ez].
  - reflexivity.
Qed.

(** ** The attempt loops *)

Definition loopOutcome (acc : list Attempt) (fuel attempt : nat)
    (atts : list Attempt) (ok : bool) (final : option Json) : Prop :=
  exists new,
    atts = acc ++ new
    /\ length new <= fuel
    /\ map attemptNumber new = seq attempt (length new)
    /\ Forall (fun a => errorMessage a = None) new
    /\ ((ok = true
         /\ exists pre lastA,
             new = pre ++ [lastA] /\ allFailed pre /\ success lastA = true
             /\ final = parsedResponse lastA /\ is_Some final)
        \/ (ok = false /\ final = None /\ allFailed new /\ length new = fuel)).

Lemma loopOutcome_stop acc attempt : loopOutcome acc 0 attempt acc false None.
Proof.
  exists []. rewrite app_nil_r. repeat split; auto.
  right. repeat split; auto. constructor.
Qed.

Lemma loopOutcome_success acc fuel attempt ts d p (r : AttemptOutcome) :
  ao_success r = true -> is_Some (ao_data r) ->
  loopOutcome acc (S fuel) attempt (acc ++ [mkAttemptResult attempt ts d p r]) true (ao_data r).
Proof.
  intros Hok Hdata. exists [mkAttemptResult attempt ts d p r].
  repeat split; simpl; auto with arith.
  left. split; [reflexivity|].
  exists [], (mkAttemptResult attempt ts d p r). simpl. rewrite Hok.
  repeat split; auto. constructor.
Qed.

Lemma loopOutcome_retry acc fuel attempt ts d p (r : AttemptOutcome) atts ok final :
  ao_success r = false ->
  loopOutcome (acc ++ [mkAttemptResult attempt ts d p r]) fuel (S attempt) atts ok final ->
  loopOutcome acc (S fuel) attempt atts ok final.
Proof.
  intros Hfail (new & -> & Hlen & Hnum & Hmsg & Hcase).
  exists (mkAttemptResult attempt ts d p r :: new).
  rewrite <- app_assoc. simpl. repeat split; auto with arith.
  - now rewrite Hnum.
  - destruct Hcase as [(-> & pre & lastA & -> & Hpre & Hlast & Hfinal)|(-> & -> & Hall & <-)].
    + left. split; [reflexivity|].
      exists (mkAttemptResult attempt ts d p r :: pre), lastA.
      repeat split; auto; try tauto. constructor; auto.
    + right. repeat split; auto. constructor; auto.
Qed.

Lemma oneShotAttempts_spec strict scenario model (config : Config) runNum :
  forall fuel attempt acc w atts ok final w',
    oneShotAttempts strict scenario model config runNum fuel attempt acc w
    = (Normal (atts, ok, final), w') ->
    loopOutcome acc fuel attempt atts ok final.
Proof.
  induction fuel as [|fuel IH]; intros attempt acc w atts ok final w' Hrun.
  - simpl in Hrun. injection Hrun as <- <- <- <-. apply loopOutcome_stop.
  - simpl in Hrun. unfold bind, dateNow, onProgress in Hrun. simpl in Hrun.
    destruct (attemptIn _ _ _ _ _ _) as [[r|e] w1] eqn:Eatt; [|discriminate].
    apply attemptIn_data in Eatt.
    destruct (ao_success r) eqn:Hok.
    + unfold ret in Hrun. injection Hrun as <- <- <- <-.
      now apply loopOutcome_success.
    + eapply loopOutcome_retry; [exact Hok|]. eapply IH, Hrun.
Qed.

Lemma stepAttemptLoop_spec strict scenario model (config : Config) runNum k :
  forall fuel attempt stepMessages acc w atts ok final w',
    stepAttemptLoop strict scenario model config runNum k fuel attempt stepMessages acc w
    = (Normal (atts, ok, final), w') ->
    loopOutcome acc fuel attempt atts ok final.
Proof.
  induction fuel as [|fuel IH]; intros attempt stepMessages acc w atts ok final w' Hrun.
  - simpl in Hrun. injection Hrun as <- <- <- <-. apply loopOutcome_stop.
  - simpl in Hrun. unfold bind, dateNow, onProgress in Hrun. simpl in Hrun.
    destruct (attemptIn _ _ _ _ _ _) as [[r|e] w1] eqn:Eatt; [|discriminate].
    apply attemptIn_data in Eatt.
    destruct (ao_success r) eqn:Hok.
    + unfold ret in Hrun. injection Hrun as <- <- <- <-.
      now apply loopOutcome_success.
    + eapply loopOutcome_retry; [exact Hok|]. eapply IH, Hrun.
Qed.

Lemma allFailed_no_success (atts : list Attempt) :
  allFailed atts -> ~ exists a, a ∈ atts /\ success a = true.
Proof.
  intros Hall (a & Hin & Hok). unfold allFailed in Hall.
  rewrite Forall_forall in Hall. specialize (Hall a Hin). congruence.
Qed.

Lemma loopOutcome_wellFormed maxRetries atts ok final :
  loopOutcome [] (maxRetries + 1) 1 atts ok final ->
  attemptsWellFormed maxRetries atts ok.
Proof.
  intros (new & -> & Hlen & Hnum & _ & Hcase). simpl.
  repeat split; auto.
  - destruct Hcase as [(-> & pre & lastA & -> & Hpre & Hlast & _)|(-> & _ & Hall & _)];
      intros i a Hi Hlt.
    + rewrite length_app in Hlt. simpl in Hlt.
      rewrite lookup_app_l in Hi by lia.
      unfold allFailed in Hpre. rewrite Forall_lookup in Hpre. eapply Hpre, Hi.
    + unfold allFailed in Hall. rewrite Forall_lookup in Hall. eapply Hall, Hi.
  - intros ->.
    destruct Hcase as [(_ & pre & lastA & -> & _ & Hlast & _)|(? & _)]; [|discriminate].
    exists lastA. split; [|exact Hlast]. apply elem_of_app. right. now left.
  - intros Hex.
    destruct Hcase as [(-> & _)|(_ & _ & Hall & _)]; [reflexivity|].
    now apply allFailed_no_success in Hall.
Qed.

(** ** Runs *)

Lemma oneShotRun_spec strict scenario model (config : Config) runNum w run w' :
  oneShotRun strict scenario model config runNum w = (Normal run, w') ->
  loopOutcome [] (maxRetries config + 1) 1 (attempts run) (runSuccess run) (finalResponse run)
  /\ steps run = None /\ runNumber run = runNum.
Proof.
  unfold oneShotRun, bind, dateNow. simpl.
  destruct (oneShotAttempts _ _ _ _ _ _ _ _ _) as [[[[atts ok] final]|e] w1] eqn:Eloop;
    [|discriminate].
  unfold onRunComplete, ret. simpl. intros [= <- _]. simpl.
  split; [|auto]. eapply oneShotAttempts_spec, Eloop.
Qed.

Lemma runStep_spec strict scenario model (config : Config) runNum k msgs w step res w' :
  runStep strict scenario model config runNum k msgs w = (Normal (step, res), w') ->
  loopOutcome [] (maxRetries config + 1) 1 (stepAttempts step) (stepSuccess step) res
  /\ stepNumber step = stepNumberOf k /\ stepName step = stepNameOf k.
Proof.
  unfold runStep, bind.
  destruct (stepAttemptLoop _ _ _ _ _ _ _ _ _ _ _) as [[[[atts ok] final]|e] w1] eqn:Eloop;
    [|discriminate].
  unfold ret. intros [= <- <- _]. simpl.
  split; [|auto]. eapply stepAttemptLoop_spec, Eloop.
Qed.

(** In strict mode no attempt throws, so neither does a step. *)
Lemma stepAttemptLoop_strict_returns scenario model (config : Config) runNum k :
  forall fuel attempt stepMessages acc w,
    exists r w',
      stepAttemptLoop true scenario model config runNum k fuel attempt stepMessages acc w
      = (Normal r, w').
Proof.
  induction fuel as [|fuel IH]; intros attempt stepMessages acc w.
  - simpl. unfold ret. eauto.
  - simpl. unfold bind, dateNow, onProgress. simpl.
    match goal with
    | |- context [runStrictAttempt ?m ?ms ?sc ?c ?w0] =>
        destruct (runStrictAttempt_outcome m ms sc c w0) as (r & w1 & -> & _)
    end.
    destruct (ao_success r); [unfold ret; eauto | apply IH].
Qed.

Lemma oneShotAttempts_strict_returns scenario model (config : Config) runNum :
  forall fuel attempt acc w,
    exists r w',
      oneShotAttempts true scenario model config runNum fuel attempt acc w = (Normal r, w').
Proof.
  induction fuel as [|fuel IH]; intros attempt acc w.
  - simpl. unfold ret. eauto.
  - simpl. unfold bind, dateNow, onProgress. simpl.
    match goal with
    | |- context [runStrictAttempt ?m ?ms ?sc ?c ?w0] =>
        destruct (runStrictAttempt_outcome m ms sc c w0) as (r & w1 & -> & _)
    end.
    destruct (ao_success r); [unfold ret; eauto | apply IH].
Qed.

Lemma oneShotRun_strict_returns scenario model (config : Config) runNum w :
  exists run w', oneShotRun true scenario model config runNum w = (Normal run, w').
Proof.
  unfold oneShotRun, bind, dateNow. simpl.
  match goal with
  | |- context [oneShotAttempts true ?sc ?m ?c ?rn ?f ?a ?acc ?w0] =>
      destruct (oneShotAttempts_strict_returns sc m c rn f a acc w0)
        as ([[atts ok] final] & w1 & ->)
  end.
  unfold onRunComplete, ret. simpl. eauto.
Qed.

(** The [try] statement of a sequential run always completes. *)
Lemma sequentialTry_returns strict scenario model (config : Config) runNum w :
  exists r w', sequentialTry strict scenario model config runNum w = (Normal r, w').
Proof.
  unfold sequentialTry.
  destruct (sequentialPipeline _ _ _ _ _ _) as [[merged|e] st]; eauto.
Qed.

Lemma sequentialRun_returns strict scenario model (config : Config) runNum w :
  exists run w', sequentialRun strict scenario model config runNum w = (Normal run, w').
Proof.
  unfold sequentialRun, bind, dateNow. simpl.
  match goal with
  | |- context [sequentialTry ?s ?sc ?m ?c ?rn ?w0] =>
      destruct (sequentialTry_returns s sc m c rn w0) as ([[sts ok] final] & w1 & ->)
  end.
  unfold onRunComplete, ret. simpl. eauto.
Qed.

(** Every step that a sequential run records is a finished step. *)
Definition finishedStep strict scenario model (config : Config) runNum (s : Step) : Prop :=
  exists k msgs w0 res w1,
    runStep strict scenario model config runNum k msgs w0 = (Normal (s, res), w1).

Lemma sequentialTry_steps strict scenario model (config : Config) runNum w sts ok final w' :
  sequentialTry strict scenario model config runNum w = (Normal (sts, ok, final), w') ->
  Forall (finishedStep strict scenario model config runNum) sts.
Proof.
  unfold sequentialTry, sequentialPipeline, bind, liftWorld, pushStep, modify,
    requireResult, schemaParse, ret, throw. simpl.
  destruct (runStep _ _ _ _ _ Step1 _ _) as [[[s1 [r1|]]|e1] w1] eqn:E1; simpl;
    [| intros [= <- _ _ _]; repeat constructor; red; eauto 8
     | intros [= <- _ _ _]; constructor ].
  destruct (runStep _ _ _ _ _ Step2 _ _) as [[[s2 [r2|]]|e2] w2] eqn:E2; simpl;
    [| intros [= <- _ _ _]; repeat constructor; red; eauto 8
     | intros [= <- _ _ _]; repeat constructor; red; eauto 8 ].
  destruct (runStep _ _ _ _ _ Step3 _ _) as [[[s3 [r3|]]|e3] w3] eqn:E3; simpl;
    [| intros [= <- _ _ _]; repeat constructor; red; eauto 8
     | intros [= <- _ _ _]; repeat constructor; red; eauto 8 ].
  destruct (ResponseSchema _); simpl;
    intros [= <- _ _ _]; repeat constructor; red; eauto 8.
Qed.

Lemma sequentialRun_spec strict scenario model (config : Config) runNum w run w' :
  sequentialRun strict scenario model config runNum w = (Normal run, w') ->
  attempts run = []
  /\ runNumber run = runNum
  /\ exists sts, steps run = Some sts
                 /\ Forall (finishedStep strict scenario model config runNum) sts.
Proof.
  unfold sequentialRun, bind, dateNow. simpl.
  destruct (sequentialTry _ _ _ _ _ _) as [[[[sts ok] final]|e] w1] eqn:Etry;
    [|discriminate].
  unfold onRunComplete, ret. simpl. intros [= <- _]. simpl.
  repeat split. exists sts. split; [reflexivity|]. eapply sequentialTry_steps, Etry.
Qed.

(** The loop over the runs. *)
Lemma runLoop_spec (oneRun : nat -> M Run) (P : Run -> Prop) :
  (forall runNum w run w', oneRun runNum w = (Normal run, w') -> P run) ->
  forall fuel runNum acc w runs w',
    runLoop oneRun fuel runNum acc w = (Normal runs, w') ->
    Forall P acc ->
    Forall P runs /\ length runs = length acc + fuel.
Proof.
  intros Hone. induction fuel as [|fuel IH]; intros runNum acc w runs w' Hrun Hacc.
  - simpl in Hrun. injection Hrun as <- _. split; [exact Hacc | lia].
  - simpl in Hrun. unfold bind in Hrun.
    destruct (oneRun runNum w) as [[run|e] w1] eqn:Eone; [|discriminate].
    apply IH in Hrun.
    + rewrite length_app in Hrun. simpl in Hrun. split; [tauto | lia].
    + apply Forall_app. split; [exact Hacc|]. constructor; [|constructor].
      eapply Hone, Eone.
Qed.

Lemma runLoop_returns (oneRun : nat -> M Run) :
  (forall runNum w, exists run w', oneRun runNum w = (Normal run, w')) ->
  forall fuel runNum acc w,
    exists runs w', runLoop oneRun fuel runNum acc w = (Normal runs, w').
Proof.
  intros Hone. induction fuel as [|fuel IH]; intros runNum acc w.
  - simpl. unfold ret. eauto.
  - simpl. unfold bind. destruct (Hone runNum w) as (run & w1 & ->). apply IH.
Qed.

Lemma runLoop_next (oneRun : nat -> M Run) fuel runNum runs w run w' :
  oneRun runNum w = (Normal run, w') ->
  runLoop oneRun (S fuel) runNum runs w = runLoop oneRun fuel (S runNum) (runs ++ [run]) w'.
Proof. intros H. simpl. unfold bind. now rewrite H. Qed.

Lemma sequentialRun_of_try strict scenario model (config : Config) runNum w sts wk :
  sequentialTry strict scenario model config runNum (snd (dateNow w))
  = (Normal (sts, false, None), wk) ->
  recordedAsFailed strict scenario model config runNum w wk sts.
Proof.
  intros Htry. unfold recordedAsFailed.
  assert (Hrun : exists run w',
             sequentialRun strict scenario model config runNum w = (Normal run, w')
             /\ runSuccess run = false /\ finalResponse run = None
             /\ steps run = Some sts /\ attempts run = []
             /\ calls w' = calls wk /\ events w' = events wk).
  { unfold sequentialRun, bind. simpl in *. rewrite Htry.
    unfold dateNow, onRunComplete, ret. simpl. eauto 10. }
  destruct Hrun as (run & w' & Hrun & ? & ? & ? & ? & ? & ?).
  exists run, w'. split_and!; auto.
  intros fuel runs. now apply runLoop_next.
Qed.

Lemma runStep_some_succeeded strict scenario model (config : Config) runNum k msgs w s r w' :
  runStep strict scenario model config runNum k msgs w = (Normal (s, Some r), w') ->
  stepSuccess s = true.
Proof.
  intros H. apply runStep_spec in H.
  destruct H as ((new & _ & _ & _ & _ & [(-> & _)|(_ & ? & _)]) & _);
    [reflexivity | discriminate].
Qed.

Lemma runStep_allFailed strict scenario model (config : Config) runNum k msgs w s res w' :
  runStep strict scenario model config runNum k msgs w = (Normal (s, res), w') ->
  allFailed (stepAttempts s) ->
  res = None /\ stepSuccess s = false /\ length (stepAttempts s) = maxRetries config + 1.
Proof.
  intros H Hall. apply runStep_spec in H.
  destruct H as ((new & Hnew & _ & _ & _ & Hcase) & _). simpl in Hnew. subst new.
  destruct Hcase as [(_ & pre & lastA & Heq & _ & Hlast & _)|(-> & -> & _ & ->)]; [|auto].
  exfalso. apply (allFailed_no_success _ Hall).
  exists lastA. split; [|exact Hlast]. rewrite Heq. apply elem_of_app. right. now left.
Qed.

(** C3. When the three steps of a sequential run succeed and the merged
    object fails the full schema, the run is recorded with
    [success = false] and [finalResponse = null], its three steps keep
    [success = true], and the failure stays inside the run: the loop goes
    on with the next run and the scenario runner completes. *)
Theorem merge_failure_fails_the_run_not_the_steps :
  forall strict scenario model (config : Config) runNum w
         s1 r1 w1 s2 r2 w2 s3 r3 w3 issues,
    runStep strict scenario model config runNum Step1 (step1Messages strict)
      (snd (dateNow w)) = (Normal (s1, Some r1), w1) ->
    runStep strict scenario model config runNum Step2 (step2Messages strict r1) w1
      = (Normal (s2, Some r2), w2) ->
    runStep strict scenario model config runNum Step3 (step3Messages strict r1 r2) w2
      = (Normal (s3, Some r3), w3) ->
    ResponseSchema (mergeSequentialParts r1 r2 r3) = ZodFail issues ->
    recordedAsFailed strict scenario model config runNum w w3 [s1; s2; s3]
    /\ stepSuccess s1 = true /\ stepSuccess s2 = true /\ stepSuccess s3 = true
    /\ (forall w0, exists runs w',
          runScenario3 model config w0 = (Normal runs, w')
          /\ length runs = runsPerScenario config)
    /\ (forall w0, exists runs w',
          runScenario4 model config w0 = (Normal runs, w')
          /\ length runs = runsPerScenario config).
Proof.
  intros strict scenario model config runNum w s1 r1 w1 s2 r2 w2 s3 r3 w3 issues
    H1 H2 H3 Hmerge.
  split_and!.
  - apply sequentialRun_of_try.
    unfold sequentialTry, sequentialPipeline, bind, liftWorld, pushStep, modify,
      requireResult, schemaParse, ret, throw.
    simpl in *. rewrite H1. simpl. rewrite H2. simpl. rewrite H3. simpl.
    rewrite Hmerge. reflexivity.
  - eapply runStep_some_succeeded, H1.
  - eapply runStep_some_succeeded, H2.
  - eapply runStep_some_succeeded, H3.
  - intros w0. unfold runScenario3.
    destruct (runLoop_returns (sequentialRun false 3 model config)
                (sequentialRun_returns false 3 model config)
                (runsPerScenario config) 1 [] w0) as (runs & w' & Hruns).
    exists runs, w'. split; [exact Hruns|].
    eapply (runLoop_spec _ (fun _ => True)) in Hruns; [|auto|constructor].
    simpl in Hruns. tauto.
  - intros w0. unfold runScenario4.
    destruct (runLoop_returns (sequentialRun true 4 model config)
                (sequentialRun_returns true 4 model config)
                (runsPerScenario config) 1 [] w0) as (runs & w' & Hruns).
    exists runs, w'. split; [exact Hruns|].
    eapply (runLoop_spec _ (fun _ => True)) in Hruns; [|auto|constructor].
    simpl in Hruns. tauto.
Qed.

Ltac run_pipeline :=
  apply sequentialRun_of_try;
  unfold sequentialTry, sequentialPipeline, bind, liftWorld, pushStep, modify,
    requireResult, schemaParse, ret, throw;
  simpl in *.

(** C4. When step k of a sequential run uses up its [maxRetries + 1]
    attempts without a success, the run is recorded with exactly the
    steps 1 to k, [success = false] and [finalResponse = null]; no later
    step is attempted, and the loop goes on with the next run. *)
Theorem exhausted_step_ends_the_run :
  forall strict scenario model (config : Config) runNum w,
    (forall s1 res1 w1,
       runStep strict scenario model config runNum Step1 (step1Messages strict)
         (snd (dateNow w)) = (Normal (s1, res1), w1) ->
       allFailed (stepAttempts s1) ->
       length (stepAttempts s1) = maxRetries config + 1
       /\ stepSuccess s1 = false
       /\ recordedAsFailed strict scenario model config runNum w w1 [s1])
    /\ (forall s1 r1 w1 s2 res2 w2,
         runStep strict scenario model config runNum Step1 (step1Messages strict)
           (snd (dateNow w)) = (Normal (s1, Some r1), w1) ->
         runStep strict scenario model config runNum Step2 (step2Messages strict r1) w1
           = (Normal (s2, res2), w2) ->
         allFailed (stepAttempts s2) ->
         length (stepAttempts s2) = maxRetries config + 1
         /\ stepSuccess s2 = false
         /\ recordedAsFailed strict scenario model config runNum w w2 [s1; s2])
    /\ (forall s1 r1 w1 s2 r2 w2 s3 res3 w3,
         runStep strict scenario model config runNum Step1 (step1Messages strict)
           (snd (dateNow w)) = (Normal (s1, Some r1), w1) ->
         runStep strict scenario model config runNum Step2 (step2Messages strict r1) w1
           = (Normal (s2, Some r2), w2) ->
         runStep strict scenario model config runNum Step3
           (step3Messages strict r1 r2) w2 = (Normal (s3, res3), w3) ->
         allFailed (stepAttempts s3) ->
         length (stepAttempts s3) = maxRetries config + 1
         /\ stepSuccess s3 = false
         /\ recordedAsFailed strict scenario model config runNum w w3 [s1; s2; s3]).
Proof.
  intros strict scenario model config runNum w. split_and!.
  - intros s1 res1 w1 H1 Hall.
    destruct (runStep_allFailed _ _ _ _ _ _ _ _ _ _ _ H1 Hall) as (-> & Hs & Hlen).
    split_and!; [exact Hlen | exact Hs |].
    run_pipeline. rewrite H1. reflexivity.
  - intros s1 r1 w1 s2 res2 w2 H1 H2 Hall.
    destruct (runStep_allFailed _ _ _ _ _ _ _ _ _ _ _ H2 Hall) as (-> & Hs & Hlen).
    split_and!; [exact Hlen | exact Hs |].
    run_pipeline. rewrite H1. simpl. rewrite H2. reflexivity.
  - intros s1 r1 w1 s2 r2 w2 s3 res3 w3 H1 H2 H3 Hall.
    destruct (runStep_allFailed _ _ _ _ _ _ _ _ _ _ _ H3 Hall) as (-> & Hs & Hlen).
    split_and!; [exact Hlen | exact Hs |].
    run_pipeline. rewrite H1. simpl. rewrite H2. simpl. rewrite H3. reflexivity.
Qed.

(** ** All runs of a scenario *)

Definition flatRunWellFormed (config : Config) (run : Run) : Prop :=
  attemptsWellFormed (maxRetries config) (attempts run) (runSuccess run).

Definition stepsWellFormed (config : Config) (run : Run) : Prop :=
  Forall (fun s => attemptsWellFormed (maxRetries config) (stepAttempts s) (stepSuccess s))
         (default [] (steps run)).

Lemma oneShotRun_wellFormed strict scenario model (config : Config) runNum w run w' :
  oneShotRun strict scenario model config runNum w = (Normal run, w') ->
  flatRunWellFormed config run.
Proof.
  intros H. apply oneShotRun_spec in H. destruct H as (H & _).
  eapply loopOutcome_wellFormed, H.
Qed.

Lemma sequentialRun_wellFormed strict scenario model (config : Config) runNum w run w' :
  sequentialRun strict scenario model config runNum w = (Normal run, w') ->
  stepsWellFormed config run.
Proof.
  intros H. apply sequentialRun_spec in H.
  destruct H as (_ & _ & sts & Hsts & Hall).
  unfold stepsWellFormed. rewrite Hsts. simpl.
  eapply Forall_impl; [exact Hall|].
  intros s (k & msgs & w0 & res & w1 & Hstep). apply runStep_spec in Hstep.
  destruct Hstep as (Hstep & _). eapply loopOutcome_wellFormed, Hstep.
Qed.

(** C5. The attempt loop of a one-shot run, and of a step of a
    sequential run, makes at most [maxRetries + 1] attempts, numbered 1,
    2, ...; it stops at the first success, so only the last recorded
    attempt can have succeeded; and the success flag of the run (of the
    step) is set exactly when a recorded attempt succeeded.  Scenarios 2,
    3 and 4 always return their [runsPerScenario] runs; scenario 1 can be
    left by a thrown transport error. *)
Theorem attempt_loops_bounded_and_stop_at_success :
  forall model (config : Config) w,
    (forall runs w',
       runScenario1 model config w = (Normal runs, w') ->
       length runs = runsPerScenario config
       /\ Forall (flatRunWellFormed config) runs)
    /\ (exists runs w',
         runScenario2 model config w = (Normal runs, w')
         /\ length runs = runsPerScenario config
         /\ Forall (flatRunWellFormed config) runs)
    /\ (exists runs w',
         runScenario3 model config w = (Normal runs, w')
         /\ length runs = runsPerScenario config
         /\ Forall (stepsWellFormed config) runs)
    /\ (exists runs w',
         runScenario4 model config w = (Normal runs, w')
         /\ length runs = runsPerScenario config
         /\ Forall (stepsWellFormed config) runs).
Proof.
  intros model config w. split_and!.
  - intros runs w' Hruns. unfold runScenario1 in Hruns.
    eapply (runLoop_spec _ (flatRunWellFormed config)) in Hruns.
    + simpl in Hruns. tauto.
    + intros runNum w0 run w1. apply oneShotRun_wellFormed.
    + constructor.
  - unfold runScenario2.
    destruct (runLoop_returns (oneShotRun true 2 model config)
                (oneShotRun_strict_returns 2 model config)
                (runsPerScenario config) 1 [] w) as (runs & w' & Hruns).
    exists runs, w'. split; [exact Hruns|].
    eapply (runLoop_spec _ (flatRunWellFormed config)) in Hruns.
    + simpl in Hruns. tauto.
    + intros runNum w0 run w1. apply oneShotRun_wellFormed.
    + constructor.
  - unfold runScenario3.
    destruct (runLoop_returns (sequentialRun false 3 model config)
                (sequentialRun_returns false 3 model config)
                (runsPerScenario config) 1 [] w) as (runs & w' & Hruns).
    exists runs, w'. split; [exact Hruns|].
    eapply (runLoop_spec _ (stepsWellFormed config)) in Hruns.
    + simpl in Hruns. tauto.
    + intros runNum w0 run w1. apply sequentialRun_wellFormed.
    + constructor.
  - unfold runScenario4.
    destruct (runLoop_returns (sequentialRun true 4 model config)
                (sequentialRun_returns true 4 model config)
                (runsPerScenario config) 1 [] w) as (runs & w' & Hruns).
    exists runs, w'. split; [exact Hruns|].
    eapply (runLoop_spec _ (stepsWellFormed config)) in Hruns.
    + simpl in Hruns. tauto.
    + intros runNum w0 run w1. apply sequentialRun_wellFormed.
    + constructor.
Qed.

Definition noErrorMessage (run : Run) : Prop :=
  Forall (fun a => errorMessage a = None) (attemptsOfRun run).

Lemma loopOutcome_noErrorMessage fuel attempt atts ok final :
  loopOutcome [] fuel attempt atts ok final ->
  Forall (fun a : Attempt => errorMessage a = None) atts.
Proof. intros (new & -> & _ & _ & H & _). exact H. Qed.

Lemma oneShotRun_noErrorMessage strict scenario model (config : Config) runNum w run w' :
  oneShotRun strict scenario model config runNum w = (Normal run, w') ->
  noErrorMessage run.
Proof.
  intros H. apply oneShotRun_spec in H. destruct H as (H & Hsteps & _).
  unfold noErrorMessage, attemptsOfRun. rewrite Hsteps. simpl. rewrite app_nil_r.
  eapply loopOutcome_noErrorMessage, H.
Qed.

Lemma sequentialRun_noErrorMessage strict scenario model (config : Config) runNum w run w' :
  sequentialRun strict scenario model config runNum w = (Normal run, w') ->
  noErrorMessage run.
Proof.
  intros H. apply sequentialRun_spec in H.
  destruct H as (Hatts & _ & sts & Hsts & Hall).
  unfold noErrorMessage, attemptsOfRun. rewrite Hatts, Hsts. simpl. clear Hsts.
  induction Hall as [|s sts' Hs _ IH]; simpl; [constructor|].
  apply Forall_app. split; [|exact IH].
  destruct Hs as (k & msgs & w0 & res & w1 & Hstep). apply runStep_spec in Hstep.
  destruct Hstep as (Hstep & _). eapply loopOutcome_noErrorMessage, Hstep.
Qed.

(** C10. Every [AttemptResult] that one of the four scenario runners
    builds has [errorMessage = null], whether the attempt succeeded or
    not. *)
Theorem errorMessage_is_always_null :
  (forall attempt ts duration promptText (result : AttemptOutcome),
     errorMessage (mkAttemptResult attempt ts duration promptText result) = None)
  /\ (forall model (config : Config) w runs w',
        runScenario1 model config w = (Normal runs, w')
        \/ runScenario2 model config w = (Normal runs, w')
        \/ runScenario3 model config w = (Normal runs, w')
        \/ runScenario4 model config w = (Normal runs, w') ->
        Forall noErrorMessage runs).
Proof.
  split; [reflexivity|].
  intros model config w runs w' [H|[H|[H|H]]];
    eapply (runLoop_spec _ noErrorMessage) in H;
    try (constructor; fail); try tauto;
    intros runNum w0 run w1;
    first [apply oneShotRun_noErrorMessage | apply sequentialRun_noErrorMessage].
Qed.

(** ** The suite orchestrator *)

Lemma pretty_2 : pretty 2 = "2".
Proof. reflexivity. Qed.

Lemma pretty_4 : pretty 4 = "4".
Proof. reflexivity. Qed.

Lemma scenarioLoop_spec model (config : Config) :
  supportsStrictMode model = false ->
  forall scenarios (results : gmap string (Storage.ScenarioResult Json)) w final w',
    scenarioLoop model config scenarios results w = (Normal final, w') ->
    (forall s, s = 2 \/ s = 4 -> results !! pretty s = None -> final !! pretty s = None)
    /\ (forall key, is_Some (results !! key) -> is_Some (final !! key))
    /\ (forall s, s ∈ scenarios -> s = 1 \/ s = 3 -> is_Some (final !! pretty s)).
Proof.
  intros Hns. induction scenarios as [|scenario rest IH]; intros results w final w' Hrun.
  - simpl in Hrun. injection Hrun as <- _. split_and!; auto.
    intros s Hin. inversion Hin.
  - simpl in Hrun. rewrite Hns in Hrun. simpl in Hrun. rewrite andb_true_r in Hrun.
    destruct ((scenario =? 2) || (scenario =? 4)) eqn:Estrict.
    + apply IH in Hrun. destruct Hrun as (Hnone & Hkeep & Hsome).
      split_and!; auto.
      intros s Hin Hs. apply elem_of_cons in Hin. destruct Hin as [->|Hin]; [|auto].
      exfalso. destruct Hs as [->| ->]; discriminate.
    + unfold bind in Hrun.
      destruct (dispatchScenario scenario model config w) as [[runs|e] w1]; [|discriminate].
      apply IH in Hrun. destruct Hrun as (Hnone & Hkeep & Hsome).
      apply orb_false_iff in Estrict. destruct Estrict as (E2%Nat.eqb_neq & E4%Nat.eqb_neq).
      split_and!.
      * intros s Hs Hres. apply Hnone; [exact Hs|].
        rewrite lookup_insert_ne; [exact Hres|].
        intros Heq. apply (inj pretty) in Heq. destruct Hs; congruence.
      * intros key Hkey. apply Hkeep.
        destruct (decide (pretty scenario = key)) as [<-|Hne].
        -- rewrite lookup_insert_eq. eauto.
        -- now rewrite lookup_insert_ne.
      * intros s Hin Hs. apply elem_of_cons in Hin. destruct Hin as [->|Hin]; [|auto].
        apply Hkeep. rewrite lookup_insert_eq. eauto.
Qed.

(** C8. For a model whose capability flag denies strict mode,
    [runModelTests] leaves the keys of the strict scenarios 2 and 4 out of
    its result map, and gives the requested non-strict scenarios 1 and 3
    their entries. *)
Theorem strict_scenarios_are_skipped :
  forall modelId model scenarios (config : Config) w results w',
    getModelWithKeys modelId (default noApiKeys (apiKeys config)) = Some model ->
    supportsStrictMode model = false ->
    runModelTests modelId scenarios config w = (Normal results, w') ->
    results !! "2" = None
    /\ results !! "4" = None
    /\ (forall s, s ∈ scenarios -> s = 1 \/ s = 3 -> is_Some (results !! pretty s)).
Proof.
  intros modelId model scenarios config w results w' Hmodel Hns Hrun.
  unfold runModelTests in Hrun. rewrite Hmodel in Hrun.
  apply (scenarioLoop_spec model config Hns) in Hrun.
  destruct Hrun as (Hnone & _ & Hsome).
  split_and!.
  - rewrite <- pretty_2. apply Hnone; [now left | apply lookup_empty].
  - rewrite <- pretty_4. apply Hnone; [now right | apply lookup_empty].
  - exact Hsome.
Qed.

End RunnerFacts.

(** ** The summary aggregator *)

Module StorageFacts.
Import Storage.

(** The fixtures of [src/__tests__/storage.test.ts]. *)
Definition createMockAttempt (ok : bool) (inTok outTok : nat) : AttemptResult string :=
  {| attemptNumber := 1; timestamp := 0; success := ok; durationMs := 1000;
     inputTokens := Some inTok; outputTokens := Some outTok;
     prompt := "mock prompt"; rawResponse := "mock response";
     parsedResponse := if ok then Some "{test: data}" else None;
     validationErrors := []; errorMessage := None |}.

Definition passed : AttemptResult string := createMockAttempt true 100 50.
Definition failed : AttemptResult string := createMockAttempt false 100 50.

Definition createMockRun (atts : list (AttemptResult string)) : RunResult string :=
  {| runNumber := 1; runSuccess := existsb success atts; attempts := atts;
     steps := None; totalDurationMs := 5000;
     finalResponse := if existsb success atts then Some "{test: data}" else None |}.

Definition createMockStep (n : nat) (atts : list (AttemptResult string))
    : StepResult string :=
  {| stepNumber := n; stepName := "Step " +:+ pretty n;
     stepSuccess := existsb success atts; stepAttempts := atts |}.

Definition createSequentialRun (sts : list (StepResult string)) : RunResult string :=
  {| runNumber := 1; runSuccess := forallb stepSuccess sts; attempts := [];
     steps := Some sts; totalDurationMs := 5000;
     finalResponse := if forallb stepSuccess sts then Some "{test: data}" else None |}.

(** The run of the test "sequential runs - multiple retries": the steps
    succeed at their third, second and first attempt. *)
Definition multipleRetries : RunResult string :=
  createSequentialRun
    [ createMockStep 1 [failed; failed; passed];
      createMockStep 2 [failed; passed];
      createMockStep 3 [passed] ].

Definition pct (n : Z) : Q := Qmake n 1.

(** "should handle empty runs" *)
Example test_empty_runs :
  calculateScenarioSummary ([] : list (RunResult string)) false
  = {| successRate := 0; firstAttemptSuccessRate := 0; afterRetry1SuccessRate := 0;
       afterRetry2SuccessRate := 0; afterRetry3SuccessRate := 0;
       averageDurationMs := 0; averageAttempts := 0; averageAttemptsPerSuccess := 0;
       averageTokensPerSuccess := 0; totalTokensUsed := 0 |}.
Proof. reflexivity. Qed.

(** "should calculate correct success rates" *)
Example test_success_rates :
  let summary :=
    calculateScenarioSummary
      [ createMockRun [passed];
        createMockRun [failed; passed];
        createMockRun [failed; failed];
        createMockRun [failed; failed; passed] ] false in
  successRate summary = pct 75
  /\ firstAttemptSuccessRate summary = pct 25
  /\ afterRetry1SuccessRate summary = pct 50
  /\ afterRetry2SuccessRate summary = pct 75
  /\ afterRetry3SuccessRate summary = pct 75.
Proof. vm_compute. repeat split. Qed.

(** "should calculate token usage correctly", "... average duration and
    attempts", "... averageAttemptsPerSuccess", "... averageTokensPerSuccess" *)
Example test_tokens_and_averages :
  totalTokensUsed
    (calculateScenarioSummary
       [ createMockRun [createMockAttempt true 100 50];
         createMockRun [createMockAttempt false 80 40; createMockAttempt true 120 60] ]
       false) = 450
  /\ averageDurationMs
       (calculateScenarioSummary [createMockRun [passed]; createMockRun [failed; passed]]
          false) = pct 5000
  /\ averageAttempts
       (calculateScenarioSummary [createMockRun [passed]; createMockRun [failed; passed]]
          false) = Qmake 3 2
  /\ averageAttemptsPerSuccess
       (calculateScenarioSummary
          [ createMockRun [passed]; createMockRun [failed; passed];
            createMockRun [failed; failed] ] false) = Qmake 3 2
  /\ averageTokensPerSuccess
       (calculateScenarioSummary
          [ createMockRun [createMockAttempt true 100 50];
            createMockRun [createMockAttempt false 50 25; createMockAttempt true 100 50];
            createMockRun [createMockAttempt false 200 100] ] false) = Qmake 375 2.
Proof. vm_compute. repeat split. Qed.

(** "should handle fourth attempt success" *)
Example test_fourth_attempt :
  let summary :=
    calculateScenarioSummary [createMockRun [failed; failed; failed; passed]] false in
  successRate summary = pct 100
  /\ firstAttemptSuccessRate summary = pct 0
  /\ afterRetry1SuccessRate summary = pct 0
  /\ afterRetry2SuccessRate summary = pct 0
  /\ afterRetry3SuccessRate summary = pct 100.
Proof. vm_compute. repeat split. Qed.

(** "sequential runs - all first attempt" and "- with retries" *)
Example test_sequential_first_and_retry :
  let first :=
    calculateScenarioSummary
      [ createSequentialRun
          [createMockStep 1 [passed]; createMockStep 2 [passed]; createMockStep 3 [passed]] ]
      true in
  let retried :=
    calculateScenarioSummary
      [ createSequentialRun
          [ createMockStep 1 [failed; passed]; createMockStep 2 [passed];
            createMockStep 3 [passed] ] ] true in
  successRate first = pct 100
  /\ firstAttemptSuccessRate first = pct 100
  /\ afterRetry1SuccessRate first = pct 100
  /\ successRate retried = pct 100
  /\ firstAttemptSuccessRate retried = pct 0
  /\ afterRetry1SuccessRate retried = pct 100.
Proof. vm_compute. repeat split. Qed.

(** "sequential runs - multiple retries" (lines 253 to 268): the steps
    succeed at the attempt indices 2, 1 and 0, three retries in all.  The
    aggregator of section 4.4 meets the first three expectations of the
    test.  The fourth is [afterRetry2SuccessRate = 100], with the comment
    "max retries per step = 2 <= 2": the cumulative index of section 4.4
    is 3, and the rate is 0 until depth 3. *)
Example sequential_multiple_retries_by_cumulative_index :
  let summary := calculateScenarioSummary [multipleRetries] true in
  successRate summary = pct 100
  /\ firstAttemptSuccessRate summary = pct 0
  /\ afterRetry1SuccessRate summary = pct 0
  /\ stepIndices multipleRetries = Some [2; 1; 0]
  /\ runAttemptIndex true multipleRetries = Some 3
  /\ afterRetry2SuccessRate summary = pct 0
  /\ afterRetry3SuccessRate summary = pct 100.
Proof. vm_compute. repeat split. Qed.

(** "token usage for sequential runs", "attempts for sequential runs",
    "should handle failed sequential runs" *)
Example test_sequential_tokens_attempts_failure :
  let sixAttempts :=
    calculateScenarioSummary
      [ createSequentialRun
          [ createMockStep 1 [failed; passed]; createMockStep 2 [passed];
            createMockStep 3 [failed; failed; passed] ] ] true in
  let lost :=
    calculateScenarioSummary
      [ createSequentialRun
          [ createMockStep 1 [passed]; createMockStep 2 [failed; failed];
            createMockStep 3 [failed] ] ] true in
  totalTokensUsed
    (calculateScenarioSummary
       [ createSequentialRun
           [createMockStep 1 [passed]; createMockStep 2 [passed]; createMockStep 3 [passed]] ]
       true) = 450
  /\ averageAttempts sixAttempts = pct 6
  /\ averageAttemptsPerSuccess sixAttempts = pct 6
  /\ successRate lost = pct 0
  /\ firstAttemptSuccessRate lost = pct 0
  /\ averageAttemptsPerSuccess lost = pct 0
  /\ averageTokensPerSuccess lost = pct 0.
Proof. vm_compute. repeat split. Qed.

(** A run of three steps that all succeeded at their first attempt and
    whose merged output was refused ([success = false], as the sequential
    runners record it) counts toward no retry depth; neither does a run
    with no step recorded. *)
Example runs_without_success_count_toward_no_depth :
  let refused : RunResult string :=
    {| runNumber := 1; runSuccess := false; attempts := [];
       steps := Some [createMockStep 1 [passed]; createMockStep 2 [passed];
                      createMockStep 3 [passed]];
       totalDurationMs := 5000; finalResponse := None |} in
  let empty : RunResult string :=
    {| runNumber := 2; runSuccess := false; attempts := []; steps := Some [];
       totalDurationMs := 0; finalResponse := None |} in
  let summary := calculateScenarioSummary [refused; empty] true in
  successRate summary = pct 0
  /\ firstAttemptSuccessRate summary = pct 0
  /\ afterRetry3SuccessRate summary = pct 0.
Proof. vm_compute. repeat split. Qed.

End StorageFacts.

(** ** The start handler and the active-runs table *)

Module RouteFacts.
Import Route.

Section Table.
Context `{env : Environment}.

(** While an entry is running, a start request is answered 409 and
    changes nothing. *)
Lemma start_while_running_is_rejected (s : Server) (request : Request) :
  0 < runningCount s ->
  exists response,
    turn (Arrive request) s = (s, Some response) /\ resp_status response = 409%Z.
Proof.
  intros Hrunning. unfold turn, POST_until_await. unfold runningCount in Hrunning.
  apply Nat.ltb_lt in Hrunning. rewrite Hrunning. eauto.
Qed.

Lemma runningRuns_delete (table : gmap string ActiveRun) (runId : string) :
  length (runningRuns (delete runId table)) <= length (runningRuns table).
Proof.
  unfold runningRuns.
  destruct (table !! runId) as [old|] eqn:Hold.
  - rewrite <- (map_to_list_delete table runId old Hold). csimpl.
    rewrite filter_cons. destruct (decide (status old = running)); simpl; lia.
  - now rewrite delete_id.
Qed.

Lemma runningRuns_insert (table : gmap string ActiveRun) (runId : string) (entry : ActiveRun) :
  length (runningRuns (<[runId := entry]> table)) <= S (length (runningRuns table)).
Proof.
  pose proof (runningRuns_delete table runId) as Hdel.
  unfold runningRuns in *.
  rewrite <- insert_delete_eq.
  rewrite map_to_list_insert by apply lookup_delete_eq. csimpl.
  rewrite filter_cons. destruct (decide (status entry = running)); simpl; lia.
Qed.

(** When the handler is not overlapped by another one, a start keeps at
    most one entry running. *)
Lemma start_without_overlap_keeps_one_running (s : Server) (request : Request)
    (runId : string) :
  runningCount s <= 1 ->
  waiting s = [] ->
  runningCount (turns [Arrive request; BodyRead 0 runId] s) <= 1.
Proof.
  intros Hone Hnone. unfold turns. simpl. unfold POST_until_await.
  destruct (0 <? length (runningRuns (activeRuns s))) eqn:Hrunning; simpl.
  - rewrite Hnone. simpl. exact Hone.
  - rewrite Hnone. simpl.
    apply Nat.ltb_ge in Hrunning.
    unfold POST_after_await.
    destruct (req_body request) as [body|]; simpl; [|exact Hone].
    destruct (length _ =? 0); simpl; [exact Hone|].
    destruct (length _ =? 0); simpl; [exact Hone|].
    unfold runningCount. simpl.
    etransitivity; [apply runningRuns_insert|]. lia.
Qed.

End Table.

Definition startRequest : @Request Demo.alwaysValid :=
  {| req_keys := noApiKeys;
     req_body := Some {| body_models := Some ["groq-kimi-k2"];
                         body_scenarios := Some [1; 3];
                         body_runsPerScenario := Some 2;
                         body_temperature := None;
                         body_maxRetries := None |} |}.

(** C7 (as the code behaves).  The handler checks for a running entry
    before [await request.json()] and registers its own entry after it.
    Two requests that both pass the check before either has registered are
    both started: the table then holds two running entries. *)
Theorem overlapping_starts_are_both_registered :
  let s :=
    turns [ Arrive startRequest; Arrive startRequest;
            BodyRead 0 "run-1"; BodyRead 0 "run-2" ] emptyServer in
  runningCount s = 2
  /\ status <$> activeRuns s !! "run-1" = Some running
  /\ status <$> activeRuns s !! "run-2" = Some running.
Proof. vm_compute. repeat split. Qed.

End RouteFacts.

(** * Properties of the rest of the code *)

(** ** The logs of the runners *)

Section RunnerLogFacts.
Context `{env : Environment}.

Local Abbreviation Attempt := (AttemptResult Json).
Local Abbreviation Step := (StepResult Json).
Local Abbreviation Run := (RunResult Json).
Local Abbreviation Config := (TestConfig Temperature).

Lemma quiet_refl w : quiet w w.
Proof. repeat split. Qed.

Lemma quiet_trans w1 w2 w3 : quiet w1 w2 -> quiet w2 w3 -> quiet w1 w3.
Proof. unfold quiet. intros (? & ? & ?) (? & ? & ?). split_and!; congruence. Qed.

Lemma backoffLoop_quiet {T} (fn : M T) (maxRetries : nat) :
  (forall w c w', fn w = (c, w') -> quiet w w') ->
  forall fuel a lastError w c w',
    backoffLoop fn maxRetries fuel a lastError w = (c, w') -> quiet w w'.
Proof.
  intros Hfn. induction fuel as [|fuel IH]; intros a lastError w c w' Hrun.
  - simpl in Hrun. unfold throw in Hrun. injection Hrun as _ <-. apply quiet_refl.
  - simpl in Hrun. unfold tryCatch in Hrun.
    destruct (fn w) as [[v|e] w1] eqn:E.
    + injection Hrun as _ <-. eapply Hfn, E.
    + apply Hfn in E. destruct (isRateLimitError e && (a <? maxRetries)).
      * unfold bind, sleep in Hrun. simpl in Hrun. apply IH in Hrun.
        eapply quiet_trans; [exact E|]. eapply quiet_trans; [|exact Hrun].
        repeat split.
      * unfold throw in Hrun. injection Hrun as _ <-. exact E.
Qed.

Lemma attemptIn_quiet strict model messages schema (config : Config) w c w' :
  attemptIn strict model messages schema config w = (c, w') -> quiet w w'.
Proof.
  destruct strict; simpl.
  - unfold runStrictAttempt, tryCatch, bind.
    destruct (withExponentialBackoff _ _ w) as [[result|e] w1] eqn:Ecall;
      (apply backoffLoop_quiet in Ecall;
       [|intros w0 c0 w0'; unfold callGenerateObject; intros [= _ <-]; repeat split]);
      destruct Ecall as (He & Hc & Ht).
    + destruct (isRateLimitedProvider model); unfold sleep, ret; simpl;
        intros [= _ <-]; repeat split; simpl; assumption.
    + destruct (instanceofZodError e); unfold ret; intros [= _ <-];
        repeat split; assumption.
  - unfold runNonStrictAttempt, bind.
    destruct (withExponentialBackoff _ _ w) as [[result|e] w1] eqn:Ecall;
      (apply backoffLoop_quiet in Ecall;
       [|intros w0 c0 w0'; unfold callGenerateText; intros [= _ <-]; repeat split]);
      destruct Ecall as (He & Hc & Ht).
    + unfold tryCatch, bind, jsonParse, schemaParse, ret, throw, sleep.
      destruct (JSON_parse _); [|destruct (schema _)];
        destruct (isRateLimitedProvider model); simpl;
        intros [= _ <-]; repeat split; simpl; assumption.
    + intros [= _ <-]. repeat split; assumption.
Qed.

Lemma loopLogs_nil strict model scenario runNum stepNum w :
  loopLogs strict model scenario runNum stepNum w w [].
Proof. split_and!; [reflexivity | simpl; now rewrite app_nil_r | constructor]. Qed.

Lemma loopLogs_cons strict model scenario runNum stepNum w w1 w2 w' a new :
  completed w1 = completed w ->
  map eventKey (events w2)
  = map eventKey (events w) ++ attemptEventKeys model scenario runNum stepNum a ->
  completed w2 = completed w1 ->
  recordsOutcome strict a ->
  loopLogs strict model scenario runNum stepNum w2 w' new ->
  loopLogs strict model scenario runNum stepNum w w' (a :: new).
Proof.
  intros Hc1 He Hc2 Ha (Hc & Hev & Hall). split_and!.
  - congruence.
  - rewrite Hev, He. simpl. now rewrite <- app_assoc.
  - now constructor.
Qed.

Lemma oneShotAttempts_logs strict scenario model (config : Config) runNum :
  forall fuel attempt acc w atts ok final w',
    oneShotAttempts strict scenario model config runNum fuel attempt acc w
    = (Normal (atts, ok, final), w') ->
    exists new,
      atts = acc ++ new
      /\ loopLogs strict model scenario runNum None w w' new
      /\ (forall i a, new !! i = Some a ->
            prompt a = renderPrompt (oneShotMessages strict (attempt + i)
                                       (acc ++ take i new))).
Proof.
  induction fuel as [|fuel IH]; intros attempt acc w atts ok final w' Hrun.
  - simpl in Hrun. injection Hrun as <- _ _ <-. exists [].
    rewrite app_nil_r. split_and!; [reflexivity | apply loopLogs_nil |].
    intros i a Hi. destruct i; discriminate.
  - simpl in Hrun. unfold bind, dateNow, onProgress in Hrun. simpl in Hrun.
    destruct (attemptIn _ _ _ _ _ _) as [[r|e] w1] eqn:Eatt; [|discriminate].
    pose proof (attemptIn_quiet _ _ _ _ _ _ _ _ Eatt) as (He1 & Hc1 & Ht1).
    simpl in He1, Hc1, Ht1.
    match type of Hrun with
    | context [mkAttemptResult ?n ?ts ?d ?p r] =>
        set (a0 := mkAttemptResult n ts d p r) in *
    end.
    assert (Ha0 : recordsOutcome strict a0).
    { red. do 9 eexists. split; [exact Eatt | reflexivity]. }
    destruct (ao_success r) eqn:Hok.
    + unfold ret in Hrun. injection Hrun as <- _ _ <-.
      exists [a0]. split_and!; [reflexivity | |].
      * eapply (loopLogs_cons _ _ _ _ _ w w1); [exact Hc1 | | | exact Ha0 | apply loopLogs_nil];
          [|reflexivity].
        simpl. rewrite !map_app, He1, !map_app. simpl. rewrite <- app_assoc. simpl.
        unfold eventKey, attemptEventKeys. simpl. rewrite Hok. reflexivity.
      * intros [|i] a Hi; [|destruct i; discriminate].
        injection Hi as <-. simpl. rewrite Nat.add_0_r, app_nil_r. reflexivity.
    + apply IH in Hrun. destruct Hrun as (new & -> & Hlogs & Hprompt).
      exists (a0 :: new). rewrite <- app_assoc. split_and!; [reflexivity | |].
      * eapply (loopLogs_cons _ _ _ _ _ w w1); [exact Hc1 | | | exact Ha0 | exact Hlogs];
          [|reflexivity].
        simpl. rewrite !map_app, He1, !map_app. simpl. rewrite <- app_assoc. simpl.
        unfold eventKey, attemptEventKeys. simpl. rewrite Hok. reflexivity.
      * intros [|i] a Hi.
        -- injection Hi as <-. simpl. rewrite Nat.add_0_r, app_nil_r. reflexivity.
        -- simpl in Hi. rewrite (Hprompt i a Hi). simpl.
           rewrite <- app_assoc. simpl. now rewrite Nat.add_succ_r.
Qed.

Lemma stepAttemptLoop_logs strict scenario model (config : Config) runNum k :
  forall fuel attempt stepMessages acc w atts ok final w',
    stepAttemptLoop strict scenario model config runNum k fuel attempt stepMessages acc w
    = (Normal (atts, ok, final), w') ->
    exists new,
      atts = acc ++ new
      /\ loopLogs strict model scenario runNum (Some (stepNumberOf k)) w w' new
      /\ (forall i a, new !! i = Some a ->
            prompt a = renderPrompt (stepMessages
                                     ++ concat (map retryMessages (take i new)))).
Proof.
  induction fuel as [|fuel IH]; intros attempt stepMessages acc w atts ok final w' Hrun.
  - simpl in Hrun. injection Hrun as <- _ _ <-. exists [].
    rewrite app_nil_r. split_and!; [reflexivity | apply loopLogs_nil |].
    intros i a Hi. destruct i; discriminate.
  - simpl in Hrun. unfold bind, dateNow, onProgress in Hrun. simpl in Hrun.
    destruct (attemptIn _ _ _ _ _ _) as [[r|e] w1] eqn:Eatt; [|discriminate].
    pose proof (attemptIn_quiet _ _ _ _ _ _ _ _ Eatt) as (He1 & Hc1 & Ht1).
    simpl in He1, Hc1, Ht1.
    match type of Hrun with
    | context [mkAttemptResult ?n ?ts ?d ?p r] =>
        set (a0 := mkAttemptResult n ts d p r) in *
    end.
    assert (Ha0 : recordsOutcome strict a0).
    { red. do 9 eexists. split; [exact Eatt | reflexivity]. }
    destruct (ao_success r) eqn:Hok.
    + unfold ret in Hrun. injection Hrun as <- _ _ <-.
      exists [a0]. split_and!; [reflexivity | |].
      * eapply (loopLogs_cons _ _ _ _ _ w w1); [exact Hc1 | | | exact Ha0 | apply loopLogs_nil];
          [|reflexivity].
        simpl. rewrite !map_app, He1, !map_app. simpl. rewrite <- app_assoc. simpl.
        unfold eventKey, attemptEventKeys. simpl. rewrite Hok. reflexivity.
      * intros [|i] a Hi; [|destruct i; discriminate].
        injection Hi as <-. simpl. rewrite app_nil_r. reflexivity.
    + apply IH in Hrun. destruct Hrun as (new & -> & Hlogs & Hprompt).
      exists (a0 :: new). rewrite <- app_assoc. split_and!; [reflexivity | |].
      * eapply (loopLogs_cons _ _ _ _ _ w w1); [exact Hc1 | | | exact Ha0 | exact Hlogs];
          [|reflexivity].
        simpl. rewrite !map_app, He1, !map_app. simpl. rewrite <- app_assoc. simpl.
        unfold eventKey, attemptEventKeys. simpl. rewrite Hok. reflexivity.
      * intros [|i] a Hi.
        -- injection Hi as <-. simpl. rewrite app_nil_r. reflexivity.
        -- simpl in Hi. rewrite (Hprompt i a Hi). simpl.
           rewrite <- app_assoc. reflexivity.
Qed.

Lemma oneShotAttempts_completed strict scenario model (config : Config) runNum :
  forall fuel attempt acc w c w',
    oneShotAttempts strict scenario model config runNum fuel attempt acc w = (c, w') ->
    completed w' = completed w.
Proof.
  induction fuel as [|fuel IH]; intros attempt acc w c w' Hrun.
  - simpl in Hrun. now injection Hrun as _ <-.
  - simpl in Hrun. unfold bind, dateNow, onProgress in Hrun. simpl in Hrun.
    destruct (attemptIn _ _ _ _ _ _) as [[r|e] w1] eqn:Eatt;
      apply attemptIn_quiet in Eatt; destruct Eatt as (_ & Hc1 & _); simpl in Hc1.
    + destruct (ao_success r).
      * unfold ret in Hrun. injection Hrun as _ <-. exact Hc1.
      * apply IH in Hrun. simpl in Hrun. congruence.
    + injection Hrun as _ <-. exact Hc1.
Qed.

Lemma stepAttemptLoop_completed strict scenario model (config : Config) runNum k :
  forall fuel attempt stepMessages acc w c w',
    stepAttemptLoop strict scenario model config runNum k fuel attempt stepMessages acc w
    = (c, w') ->
    completed w' = completed w.
Proof.
  induction fuel as [|fuel IH]; intros attempt stepMessages acc w c w' Hrun.
  - simpl in Hrun. now injection Hrun as _ <-.
  - simpl in Hrun. unfold bind, dateNow, onProgress in Hrun. simpl in Hrun.
    destruct (attemptIn _ _ _ _ _ _) as [[r|e] w1] eqn:Eatt;
      apply attemptIn_quiet in Eatt; destruct Eatt as (_ & Hc1 & _); simpl in Hc1.
    + destruct (ao_success r).
      * unfold ret in Hrun. injection Hrun as _ <-. exact Hc1.
      * apply IH in Hrun. simpl in Hrun. congruence.
    + injection Hrun as _ <-. exact Hc1.
Qed.

Lemma runStep_completed strict scenario model (config : Config) runNum k msgs w c w' :
  runStep strict scenario model config runNum k msgs w = (c, w') ->
  completed w' = completed w.
Proof.
  unfold runStep, bind.
  destruct (stepAttemptLoop _ _ _ _ _ _ _ _ _ _ _) as [[[[atts ok] final]|e] w1] eqn:Eloop;
    apply stepAttemptLoop_completed in Eloop; unfold ret; intros [= _ <-]; exact Eloop.
Qed.

Lemma sequentialTry_completed strict scenario model (config : Config) runNum w c w' :
  sequentialTry strict scenario model config runNum w = (c, w') ->
  completed w' = completed w.
Proof.
  unfold sequentialTry, sequentialPipeline, bind, liftWorld, pushStep, modify,
    requireResult, schemaParse, ret, throw. simpl.
  destruct (runStep _ _ _ _ _ Step1 _ _) as [[[s1 [r1|]]|e1] w1] eqn:E1;
    apply runStep_completed in E1; simpl; try (intros [= _ <-]; exact E1).
  destruct (runStep _ _ _ _ _ Step2 _ _) as [[[s2 [r2|]]|e2] w2] eqn:E2;
    apply runStep_completed in E2; simpl; try (intros [= _ <-]; congruence).
  destruct (runStep _ _ _ _ _ Step3 _ _) as [[[s3 [r3|]]|e3] w3] eqn:E3;
    apply runStep_completed in E3; simpl; try (intros [= _ <-]; congruence).
  destruct (ResponseSchema _); simpl; intros [= _ <-]; congruence.
Qed.

Lemma oneShotRun_reported strict scenario model (config : Config) runNum w run w' :
  oneShotRun strict scenario model config runNum w = (Normal run, w') ->
  completed w' = completed w ++ [reported model scenario false run]
  /\ runNumber run = runNum.
Proof.
  unfold oneShotRun, bind, dateNow. simpl.
  destruct (oneShotAttempts _ _ _ _ _ _ _ _ _) as [[[[atts ok] final]|e] w1] eqn:Eloop;
    [|discriminate].
  apply oneShotAttempts_completed in Eloop. simpl in Eloop.
  unfold onRunComplete, ret. simpl. intros [= <- <-]. simpl.
  rewrite Eloop. split; reflexivity.
Qed.

Lemma sequentialRun_reported strict scenario model (config : Config) runNum w run w' :
  sequentialRun strict scenario model config runNum w = (Normal run, w') ->
  completed w' = completed w ++ [reported model scenario true run]
  /\ runNumber run = runNum.
Proof.
  unfold sequentialRun, bind, dateNow. simpl.
  destruct (sequentialTry _ _ _ _ _ _) as [[[[sts ok] final]|e] w1] eqn:Etry;
    [|discriminate].
  apply sequentialTry_completed in Etry. simpl in Etry.
  unfold onRunComplete, ret. simpl. intros [= <- <-]. simpl.
  rewrite Etry. split; reflexivity.
Qed.

Lemma runLoop_reported (oneRun : nat -> M Run) (event : Run -> RunCompleteEvent Json) :
  (forall runNum w run w',
     oneRun runNum w = (Normal run, w') ->
     completed w' = completed w ++ [event run] /\ runNumber run = runNum) ->
  forall fuel runNum acc w runs w',
    runLoop oneRun fuel runNum acc w = (Normal runs, w') ->
    exists new,
      runs = acc ++ new
      /\ completed w' = completed w ++ map event new
      /\ map runNumber new = seq runNum fuel.
Proof.
  intros Hone. induction fuel as [|fuel IH]; intros runNum acc w runs w' Hrun.
  - simpl in Hrun. injection Hrun as <- <-. exists [].
    now rewrite !app_nil_r.
  - simpl in Hrun. unfold bind in Hrun.
    destruct (oneRun runNum w) as [[run|e] w1] eqn:Eone; [|discriminate].
    apply Hone in Eone. destruct Eone as (Hc & Hn).
    apply IH in Hrun. destruct Hrun as (new & -> & Hc' & Hnum).
    exists (run :: new). rewrite <- app_assoc. split_and!; [reflexivity | |].
    + rewrite Hc', Hc, <- app_assoc. reflexivity.
    + simpl. now rewrite Hn, Hnum.
Qed.

(** X1. The run results that [onRunComplete] receives during a scenario
    are exactly the runs the scenario runner returns, in the same order,
    each tagged with the model, the scenario and whether it is
    sequential; the runs are numbered 1, 2, ..., [runsPerScenario]. *)
Theorem returned_runs_are_the_reported_runs :
  forall scenario model (config : Config) w runs w',
    dispatchScenario scenario model config w = (Normal runs, w') ->
    completed w'
    = completed w ++ map (reported model scenario ((scenario =? 3) || (scenario =? 4))) runs
    /\ map runNumber runs = seq 1 (runsPerScenario config).
Proof.
  intros scenario model config w runs w' Hrun.
  destruct scenario as [|[|[|[|[|n]]]]]; simpl in Hrun; try discriminate.
  - eapply (runLoop_reported _ (reported model 1 false)) in Hrun;
      [|intros; eapply oneShotRun_reported; eassumption].
    destruct Hrun as (new & -> & ? & ?). auto.
  - eapply (runLoop_reported _ (reported model 2 false)) in Hrun;
      [|intros; eapply oneShotRun_reported; eassumption].
    destruct Hrun as (new & -> & ? & ?). auto.
  - eapply (runLoop_reported _ (reported model 3 true)) in Hrun;
      [|intros; eapply sequentialRun_reported; eassumption].
    destruct Hrun as (new & -> & ? & ?). auto.
  - eapply (runLoop_reported _ (reported model 4 true)) in Hrun;
      [|intros; eapply sequentialRun_reported; eassumption].
    destruct Hrun as (new & -> & ? & ?). auto.
Qed.

Lemma oneShotRun_events strict scenario model (config : Config) runNum w run w' :
  oneShotRun strict scenario model config runNum w = (Normal run, w') ->
  map eventKey (events w')
  = map eventKey (events w)
    ++ concat (map (attemptEventKeys model scenario (runNumber run) None) (attempts run)).
Proof.
  unfold oneShotRun, bind, dateNow. simpl.
  destruct (oneShotAttempts _ _ _ _ _ _ _ _ _) as [[[[atts ok] final]|e] w1] eqn:Eloop;
    [|discriminate].
  apply oneShotAttempts_logs in Eloop. destruct Eloop as (new & Hnew & (_ & Hev & _) & _).
  simpl in Hnew. subst new.
  unfold onRunComplete, ret. simpl. intros [= <- <-]. simpl. exact Hev.
Qed.

Lemma runLoop_events (oneRun : nat -> M Run) (keys : Run -> list EventKey) :
  (forall runNum w run w',
     oneRun runNum w = (Normal run, w') ->
     map eventKey (events w') = map eventKey (events w) ++ keys run) ->
  forall fuel runNum acc w runs w',
    runLoop oneRun fuel runNum acc w = (Normal runs, w') ->
    exists new,
      runs = acc ++ new
      /\ map eventKey (events w') = map eventKey (events w) ++ concat (map keys new).
Proof.
  intros Hone. induction fuel as [|fuel IH]; intros runNum acc w runs w' Hrun.
  - simpl in Hrun. injection Hrun as <- <-. exists []. simpl. now rewrite !app_nil_r.
  - simpl in Hrun. unfold bind in Hrun.
    destruct (oneRun runNum w) as [[run|e] w1] eqn:Eone; [|discriminate].
    apply Hone in Eone. apply IH in Hrun. destruct Hrun as (new & -> & Hev).
    exists (run :: new). rewrite <- app_assoc. split; [reflexivity|].
    rewrite Hev, Eone. simpl. now rewrite <- app_assoc.
Qed.

(** X2. In a one-shot scenario every recorded attempt is announced by
    exactly two progress events, the request ("running" for attempt 1,
    "retrying" afterwards) and then the response ("success" or "failed"),
    in the order of the runs and of their attempts, and no other event is
    emitted; the attempts of a finished step of a sequential run are
    announced in the same way, with the step number. *)
Theorem every_attempt_is_announced_twice :
  (forall model (config : Config) w runs w',
     runScenario1 model config w = (Normal runs, w') ->
     map eventKey (events w')
     = map eventKey (events w)
       ++ concat (map (fun run =>
                         concat (map (attemptEventKeys model 1 (runNumber run) None)
                                   (attempts run))) runs))
  /\ (forall model (config : Config) w runs w',
        runScenario2 model config w = (Normal runs, w') ->
        map eventKey (events w')
        = map eventKey (events w)
          ++ concat (map (fun run =>
                            concat (map (attemptEventKeys model 2 (runNumber run) None)
                                      (attempts run))) runs))
  /\ (forall strict scenario model (config : Config) runNum k msgs w step res w',
        runStep strict scenario model config runNum k msgs w = (Normal (step, res), w') ->
        map eventKey (events w')
        = map eventKey (events w)
          ++ concat (map (attemptEventKeys model scenario runNum (Some (stepNumber step)))
                       (stepAttempts step))).
Proof.
  split_and!.
  - intros model config w runs w' Hrun. unfold runScenario1 in Hrun.
    eapply runLoop_events in Hrun; [|intros; eapply oneShotRun_events; eassumption].
    destruct Hrun as (new & -> & Hev). exact Hev.
  - intros model config w runs w' Hrun. unfold runScenario2 in Hrun.
    eapply runLoop_events in Hrun; [|intros; eapply oneShotRun_events; eassumption].
    destruct Hrun as (new & -> & Hev). exact Hev.
  - intros strict scenario model config runNum k msgs w step res w'.
    unfold runStep, bind.
    destruct (stepAttemptLoop _ _ _ _ _ _ _ _ _ _ _) as [[[[atts ok] final]|e] w1] eqn:Eloop;
      [|discriminate].
    apply stepAttemptLoop_logs in Eloop.
    destruct Eloop as (new & Hnew & (_ & Hev & _) & _). simpl in Hnew. subst new.
    unfold ret. intros [= <- _ <-]. simpl. exact Hev.
Qed.

(** X3. Within a step of a sequential run the conversation only grows:
    the prompt of attempt i+1 is the step's first prompt followed by the
    raw response and the retry prompt of each of the i earlier attempts.
    A one-shot run does not accumulate: every retry is sent the three
    base messages and the raw response and retry prompt of the attempt
    just before it, and nothing of the attempts before that. *)
Theorem retry_prompts_carry_the_failed_responses :
  (forall strict scenario model (config : Config) runNum k msgs w step res w' i a,
     runStep strict scenario model config runNum k msgs w = (Normal (step, res), w') ->
     stepAttempts step !! i = Some a ->
     prompt a
     = renderPrompt (msgs ++ concat (map retryMessages (take i (stepAttempts step)))))
  /\ (forall strict scenario model (config : Config) runNum w run w' i a,
        oneShotRun strict scenario model config runNum w = (Normal run, w') ->
        attempts run !! i = Some a ->
        prompt a
        = renderPrompt
            (oneShotBase strict
             ++ match i with
                | O => []
                | S j => default [] (retryMessages <$> attempts run !! j)
                end)).
Proof.
  split.
  - intros strict scenario model config runNum k msgs w step res w' i a.
    unfold runStep, bind.
    destruct (stepAttemptLoop _ _ _ _ _ _ _ _ _ _ _) as [[[[atts ok] final]|e] w1] eqn:Eloop;
      [|discriminate].
    apply stepAttemptLoop_logs in Eloop.
    destruct Eloop as (new & Hnew & _ & Hprompt). simpl in Hnew. subst new.
    unfold ret. intros [= <- _ _]. simpl. apply Hprompt.
  - intros strict scenario model config runNum w run w' i a.
    unfold oneShotRun, bind, dateNow. simpl.
    destruct (oneShotAttempts _ _ _ _ _ _ _ _ _) as [[[[atts ok] final]|e] w1] eqn:Eloop;
      [|discriminate].
    apply oneShotAttempts_logs in Eloop.
    destruct Eloop as (new & Hnew & _ & Hprompt). simpl in Hnew. subst new.
    unfold onRunComplete, ret. simpl. intros [= <- _]. simpl. intros Hi.
    rewrite (Hprompt i a Hi). simpl. f_equal. unfold oneShotMessages, oneShotBase.
    f_equal. destruct i as [|j].
    + simpl. reflexivity.
    + assert (Hj : j < length atts).
      { apply lookup_lt_Some in Hi. lia. }
      destruct (lookup_lt_is_Some_2 atts j Hj) as (b & Hb).
      rewrite Hb. simpl.
      rewrite (take_S_r atts j b Hb), last_snoc. reflexivity.
Qed.

(** ** Recorded attempts *)

Lemma attemptIn_tokens strict model messages schema (config : Config) w r w' :
  attemptIn strict model messages schema config w = (Normal r, w') ->
  (ao_success r = true -> ao_errors r = None /\ is_Some (ao_tokens r))
  /\ (ao_success r = false ->
      if strict then ao_tokens r = None else is_Some (ao_tokens r)).
Proof.
  destruct strict; simpl.
  - unfold runStrictAttempt, tryCatch, bind.
    destruct (withExponentialBackoff _ _ w) as [[result|e] w1].
    + destruct (isRateLimitedProvider model); unfold sleep, ret; simpl;
        intros [= <- _]; simpl; split; [eauto | discriminate | eauto | discriminate].
    + destruct (instanceofZodError e); unfold ret; intros [= <- _]; simpl;
        split; [discriminate | auto | discriminate | auto].
  - unfold runNonStrictAttempt, bind.
    destruct (withExponentialBackoff _ _ w) as [[result|e] w1]; [|discriminate].
    unfold tryCatch, bind, jsonParse, schemaParse, ret, throw, sleep.
    destruct (JSON_parse _); [|destruct (schema _)];
      destruct (isRateLimitedProvider model); simpl;
      intros [= <- _]; simpl; split; intros; try discriminate; eauto.
Qed.

Lemma recordsOutcome_consistent strict a :
  recordsOutcome strict a -> attemptConsistent strict a.
Proof.
  intros (model & messages & schema & config & w & r & w' & ts & d & Hrun & ->).
  pose proof (attemptIn_data _ _ _ _ _ _ _ _ Hrun) as Hdata.
  pose proof (attemptIn_tokens _ _ _ _ _ _ _ _ Hrun) as (Hok & Hko).
  unfold attemptConsistent. simpl.
  destruct (ao_success r) eqn:Hs.
  - destruct (Hok eq_refl) as (-> & [tokens ->]). simpl.
    split_and!; [tauto | reflexivity | split; eauto |].
    destruct strict; [split; eauto | eauto].
  - specialize (Hko eq_refl). split_and!.
    + split; [discriminate | intros [? ?]; discriminate].
    + discriminate.
    + destruct (ao_tokens r); simpl; split; eauto; intros [? ?]; discriminate.
    + destruct strict.
      * rewrite Hko. simpl. split; [intros [? ?]|]; discriminate.
      * destruct Hko as [tokens ->]. simpl. eauto.
Qed.

Lemma oneShotRun_recordsOutcome strict scenario model (config : Config) runNum w run w' :
  oneShotRun strict scenario model config runNum w = (Normal run, w') ->
  Forall (recordsOutcome strict) (attemptsOfRun run).
Proof.
  unfold oneShotRun, bind, dateNow. simpl.
  destruct (oneShotAttempts _ _ _ _ _ _ _ _ _) as [[[[atts ok] final]|e] w1] eqn:Eloop;
    [|discriminate].
  apply oneShotAttempts_logs in Eloop. destruct Eloop as (new & Hnew & (_ & _ & Hall) & _).
  simpl in Hnew. subst new.
  unfold onRunComplete, ret. simpl. intros [= <- _].
  unfold attemptsOfRun. simpl. now rewrite app_nil_r.
Qed.

Lemma runStep_recordsOutcome strict scenario model (config : Config) runNum k msgs w
    step res w' :
  runStep strict scenario model config runNum k msgs w = (Normal (step, res), w') ->
  Forall (recordsOutcome strict) (stepAttempts step).
Proof.
  unfold runStep, bind.
  destruct (stepAttemptLoop _ _ _ _ _ _ _ _ _ _ _) as [[[[atts ok] final]|e] w1] eqn:Eloop;
    [|discriminate].
  apply stepAttemptLoop_logs in Eloop. destruct Eloop as (new & Hnew & (_ & _ & Hall) & _).
  simpl in Hnew. subst new. unfold ret. intros [= <- _ _]. exact Hall.
Qed.

Lemma sequentialRun_recordsOutcome strict scenario model (config : Config) runNum w run w' :
  sequentialRun strict scenario model config runNum w = (Normal run, w') ->
  Forall (recordsOutcome strict) (attemptsOfRun run).
Proof.
  intros H. apply sequentialRun_spec in H.
  destruct H as (Hatts & _ & sts & Hsts & Hall).
  unfold attemptsOfRun. rewrite Hatts, Hsts. simpl. clear Hsts.
  induction Hall as [|s sts' Hs _ IH]; simpl; [constructor|].
  apply Forall_app. split; [|exact IH].
  destruct Hs as (k & msgs & w0 & res & w1 & Hstep).
  eapply runStep_recordsOutcome, Hstep.
Qed.

(** X4. Every attempt that a scenario runner records is consistent:
    [parsedResponse] is present exactly when the attempt succeeded, a
    successful attempt has no validation errors, and the two token counts
    are present together.  In the strict scenarios 2 and 4 the token
    counts are present exactly on the successful attempts (a failed call
    reports no usage); in the non-strict scenarios 1 and 3 every recorded
    attempt has them. *)
Theorem recorded_attempts_are_consistent :
  forall scenario model (config : Config) w runs w',
    dispatchScenario scenario model config w = (Normal runs, w') ->
    Forall (fun run =>
              Forall (attemptConsistent ((scenario =? 2) || (scenario =? 4)))
                     (attemptsOfRun run)) runs.
Proof.
  intros scenario model config w runs w' Hrun.
  destruct scenario as [|[|[|[|[|n]]]]]; simpl in Hrun; try discriminate; simpl.
  - eapply (runLoop_spec _ (fun run => Forall (attemptConsistent false) (attemptsOfRun run)))
      in Hrun; [tauto | | constructor].
    intros runNum w0 run w1 H. apply oneShotRun_recordsOutcome in H.
    eapply Forall_impl; [exact H | apply recordsOutcome_consistent].
  - eapply (runLoop_spec _ (fun run => Forall (attemptConsistent true) (attemptsOfRun run)))
      in Hrun; [tauto | | constructor].
    intros runNum w0 run w1 H. apply oneShotRun_recordsOutcome in H.
    eapply Forall_impl; [exact H | apply recordsOutcome_consistent].
  - eapply (runLoop_spec _ (fun run => Forall (attemptConsistent false) (attemptsOfRun run)))
      in Hrun; [tauto | | constructor].
    intros runNum w0 run w1 H. apply sequentialRun_recordsOutcome in H.
    eapply Forall_impl; [exact H | apply recordsOutcome_consistent].
  - eapply (runLoop_spec _ (fun run => Forall (attemptConsistent true) (attemptsOfRun run)))
      in Hrun; [tauto | | constructor].
    intros runNum w0 run w1 H. apply sequentialRun_recordsOutcome in H.
    eapply Forall_impl; [exact H | apply recordsOutcome_consistent].
Qed.

(** ** How runs end *)

Lemma loopOutcome_output acc fuel attempt atts ok (final : option Json) r :
  loopOutcome acc fuel attempt atts ok final ->
  final = Some r ->
  ok = true /\ last atts ≫= parsedResponse = Some r.
Proof.
  intros (new & -> & _ & _ & _ & Hcase) ->.
  destruct Hcase as [(-> & pre & lastA & -> & _ & _ & Hfinal & _)|(_ & ? & _)];
    [|discriminate].
  split; [reflexivity|]. rewrite app_assoc, last_snoc. simpl. now symmetry.
Qed.

Lemma runStep_output strict scenario model (config : Config) runNum k msgs w s r w' :
  runStep strict scenario model config runNum k msgs w = (Normal (s, Some r), w') ->
  stepSuccess s = true /\ stepOutput s = Some r.
Proof.
  intros H. apply runStep_spec in H. destruct H as (H & _).
  eapply loopOutcome_output in H; [|reflexivity]. exact H.
Qed.

Lemma oneShotRun_ending strict scenario model (config : Config) runNum w run w' :
  oneShotRun strict scenario model config runNum w = (Normal run, w') ->
  oneShotEnding config run.
Proof.
  intros H. apply oneShotRun_spec in H.
  destruct H as ((new & Hnew & _ & _ & _ & Hcase) & _). simpl in Hnew.
  unfold oneShotEnding.
  destruct Hcase as [(-> & pre & lastA & -> & _ & Hok & Hfinal & Hsome)
                    |(-> & -> & Hall & Hlen)].
  - exists lastA. rewrite Hnew, last_snoc. auto.
  - rewrite Hnew. auto.
Qed.

Lemma sequentialTry_ending strict scenario model (config : Config) runNum w
    sts ok final w' :
  sequentialTry strict scenario model config runNum w = (Normal (sts, ok, final), w') ->
  if ok
  then exists s1 s2 s3 r1 r2 r3,
         sts = [s1; s2; s3]
         /\ stepSuccess s1 = true /\ stepSuccess s2 = true /\ stepSuccess s3 = true
         /\ stepOutput s1 = Some r1 /\ stepOutput s2 = Some r2 /\ stepOutput s3 = Some r3
         /\ final = Some (mergeSequentialParts r1 r2 r3)
         /\ exists validated,
              ResponseSchema (mergeSequentialParts r1 r2 r3) = ZodOk validated
  else final = None /\ length sts <= 3.
Proof.
  unfold sequentialTry, sequentialPipeline, bind, liftWorld, pushStep, modify,
    requireResult, schemaParse, ret, throw. simpl.
  destruct (runStep _ _ _ _ _ Step1 _ _) as [[[s1 [r1|]]|e1] w1] eqn:E1; simpl;
    try (intros [= <- <- <- _]; simpl; split; [reflexivity | lia]).
  destruct (runStep _ _ _ _ _ Step2 _ _) as [[[s2 [r2|]]|e2] w2] eqn:E2; simpl;
    try (intros [= <- <- <- _]; simpl; split; [reflexivity | lia]).
  destruct (runStep _ _ _ _ _ Step3 _ _) as [[[s3 [r3|]]|e3] w3] eqn:E3; simpl;
    try (intros [= <- <- <- _]; simpl; split; [reflexivity | lia]).
  destruct (ResponseSchema _) as [validated|issues] eqn:Eschema; simpl;
    intros [= <- <- <- _]; simpl; [|split; [reflexivity | lia]].
  apply runStep_output in E1, E2, E3.
  exists s1, s2, s3, r1, r2, r3. split_and!; try tauto. eauto.
Qed.

Lemma sequentialRun_ending strict scenario model (config : Config) runNum w run w' :
  sequentialRun strict scenario model config runNum w = (Normal run, w') ->
  sequentialEnding run.
Proof.
  unfold sequentialRun, bind, dateNow. simpl.
  destruct (sequentialTry _ _ _ _ _ _) as [[[[sts ok] final]|e] w1] eqn:Etry;
    [|discriminate].
  apply sequentialTry_ending in Etry.
  unfold onRunComplete, ret. simpl. intros [= <- _].
  unfold sequentialEnding. simpl. destruct ok.
  - destruct Etry as (s1 & s2 & s3 & r1 & r2 & r3 & -> & Hrest).
    exists s1, s2, s3, r1, r2, r3. split; [reflexivity | exact Hrest].
  - destruct Etry as (-> & Hlen). split; [reflexivity|]. eauto.
Qed.

(** X5. A one-shot run that succeeded ends with its successful attempt,
    whose parsed value is the run's [finalResponse]; one that failed has
    no [finalResponse] and has used all [maxRetries + 1] attempts.  A
    sequential run is marked successful only with three successful steps,
    and its [finalResponse] is then the merge of the three step outputs
    itself (the object given to the full schema, not what the schema
    returns); a failed one has no [finalResponse]. *)
Theorem runs_end_with_their_final_response :
  forall scenario model (config : Config) w runs w',
    dispatchScenario scenario model config w = (Normal runs, w') ->
    Forall (fun run => if (scenario =? 3) || (scenario =? 4)
                       then sequentialEnding run
                       else oneShotEnding config run) runs.
Proof.
  intros scenario model config w runs w' Hrun.
  destruct scenario as [|[|[|[|[|n]]]]]; simpl in Hrun; try discriminate; simpl.
  - eapply (runLoop_spec _ (oneShotEnding config)) in Hrun; [tauto | | constructor].
    intros runNum w0 run w1. apply oneShotRun_ending.
  - eapply (runLoop_spec _ (oneShotEnding config)) in Hrun; [tauto | | constructor].
    intros runNum w0 run w1. apply oneShotRun_ending.
  - eapply (runLoop_spec _ sequentialEnding) in Hrun; [tauto | | constructor].
    intros runNum w0 run w1. apply sequentialRun_ending.
  - eapply (runLoop_spec _ sequentialEnding) in Hrun; [tauto | | constructor].
    intros runNum w0 run w1. apply sequentialRun_ending.
Qed.

(** ** Throttling *)

Lemma isRateLimitedProvider_spec model :
  isRateLimitedProvider model = true
  <-> model_provider model = "groq" \/ model_provider model = "openrouter".
Proof.
  unfold isRateLimitedProvider, RATE_LIMITED_PROVIDERS. simpl.
  rewrite orb_false_r, orb_true_iff, !String.eqb_eq. reflexivity.
Qed.

(** X6. After a provider call that answers, an attempt for a model of
    the providers "groq" or "openrouter" sleeps [RATE_LIMIT_DELAY_MS]
    (5 seconds) once, and an attempt for any other provider does not
    sleep; either way the attempt makes exactly one call.  A strict
    attempt whose call fails with an error that is no rate-limit signal
    does not sleep at all. *)
Theorem throttled_providers_sleep_after_each_answer :
  (forall model messages schema (config : Config) w result,
     generateText (calls w) (generateArgs model messages config) = Normal result ->
     exists r w',
       runNonStrictAttempt model messages schema config w = (Normal r, w')
       /\ ao_raw r = tr_text result
       /\ calls w' = S (calls w)
       /\ slept w' = slept w ++ (if isRateLimitedProvider model
                                 then [RATE_LIMIT_DELAY_MS] else []))
  /\ (forall model messages schema (config : Config) w result,
        generateObject (calls w) (generateArgs model messages config) = Normal result ->
        exists r w',
          runStrictAttempt model messages schema config w = (Normal r, w')
          /\ ao_data r = Some (or_object result)
          /\ calls w' = S (calls w)
          /\ slept w' = slept w ++ (if isRateLimitedProvider model
                                    then [RATE_LIMIT_DELAY_MS] else []))
  /\ (forall model messages schema (config : Config) w e,
        generateObject (calls w) (generateArgs model messages config) = Thrown e ->
        isRateLimitError e = false ->
        exists r w',
          runStrictAttempt model messages schema config w = (Normal r, w')
          /\ ao_success r = false
          /\ calls w' = S (calls w)
          /\ slept w' = slept w)
  /\ (forall model,
        isRateLimitedProvider model = true
        <-> model_provider model = "groq" \/ model_provider model = "openrouter").
Proof.
  split_and!.
  - intros model messages schema config w result Hcall.
    unfold runNonStrictAttempt, bind.
    rewrite (withExponentialBackoff_returns_at_once _ _ w (nextCall w) result)
      by (unfold callGenerateText; now rewrite Hcall).
    unfold tryCatch, bind, jsonParse, schemaParse, ret, throw, sleep.
    destruct (JSON_parse _); [|destruct (schema _)];
      destruct (isRateLimitedProvider model); simpl;
      eexists _, _; (split; [reflexivity|]); simpl;
      rewrite ?app_nil_r; auto.
  - intros model messages schema config w result Hcall.
    unfold runStrictAttempt, tryCatch, bind.
    rewrite (withExponentialBackoff_returns_at_once _ _ w (nextCall w) result)
      by (unfold callGenerateObject; now rewrite Hcall).
    unfold ret, sleep.
    destruct (isRateLimitedProvider model); simpl;
      eexists _, _; (split; [reflexivity|]); simpl; rewrite ?app_nil_r; auto.
  - intros model messages schema config w e Hcall Hrl.
    unfold runStrictAttempt, tryCatch, bind.
    rewrite (withExponentialBackoff_rethrows_at_once _ _ w (nextCall w) e)
      by (try exact Hrl; unfold callGenerateObject; now rewrite Hcall).
    destruct (instanceofZodError e); unfold ret;
      eexists _, _; (split; [reflexivity|]); simpl; auto.
  - apply isRateLimitedProvider_spec.
Qed.

(** ** The result maps *)

Lemma dispatchScenario_length scenario model (config : Config) w runs w' :
  dispatchScenario scenario model config w = (Normal runs, w') ->
  1 <= scenario <= 4 /\ length runs = runsPerScenario config.
Proof.
  intros Hrun.
  destruct scenario as [|[|[|[|[|n]]]]]; simpl in Hrun; try discriminate;
    (split; [lia|]);
    eapply (runLoop_spec _ (fun _ => True)) in Hrun; auto; simpl in Hrun; tauto.
Qed.

Lemma scenarioLoop_entries model (config : Config) :
  forall scenarios (results : gmap string (Storage.ScenarioResult Json)) w final w',
    scenarioLoop model config scenarios results w = (Normal final, w') ->
    Forall (fun s => 1 <= s <= 4) scenarios
    /\ (forall key,
          is_Some (final !! key)
          <-> is_Some (results !! key)
              \/ exists s, s ∈ scenarios /\ scenarioRuns model s = true /\ key = pretty s)
    /\ (forall key entry,
          final !! key = Some entry ->
          results !! key = Some entry
          \/ exists s, s ∈ scenarios /\ key = pretty s /\ entryOf config s entry).
Proof.
  induction scenarios as [|scenario rest IH]; intros results w final w' Hrun.
  - simpl in Hrun. injection Hrun as <- _. split_and!; [constructor | | auto].
    intros key. split; [auto|]. intros [H|(s & Hin & _)]; [exact H | inversion Hin].
  - simpl in Hrun.
    destruct (((scenario =? 2) || (scenario =? 4)) && negb (supportsStrictMode model))
      eqn:Eskip.
    + apply IH in Hrun. destruct Hrun as (Hvalid & Hkeys & Hentries). split_and!.
      * constructor; [|exact Hvalid].
        apply andb_true_iff in Eskip. destruct Eskip as (Es & _).
        apply orb_true_iff in Es. destruct Es as [Es|Es]; apply Nat.eqb_eq in Es; lia.
      * intros key. rewrite Hkeys. split.
        -- intros [H|(s & Hin & Hs & Hk)]; [auto|]. right. exists s.
           split_and!; auto. apply elem_of_cons; now right.
        -- intros [H|(s & Hin & Hs & Hk)]; [auto|]. right. exists s.
           split_and!; auto. apply elem_of_cons in Hin. destruct Hin as [->|Hin]; [|auto].
           unfold scenarioRuns in Hs. rewrite Eskip in Hs. discriminate.
      * intros key entry Hfinal. destruct (Hentries key entry Hfinal) as [H|(s & Hin & Hs)];
          [auto|]. right. exists s. split; [apply elem_of_cons; now right | exact Hs].
    + unfold bind in Hrun.
      destruct (dispatchScenario scenario model config w) as [[runs|e] w1] eqn:Edisp;
        [|discriminate].
      apply dispatchScenario_length in Edisp. destruct Edisp as (Hrange & Hlen).
      apply IH in Hrun. destruct Hrun as (Hvalid & Hkeys & Hentries). split_and!.
      * constructor; assumption.
      * intros key. rewrite Hkeys. split.
        -- intros [H|(s & Hin & Hs & Hk)].
           ++ destruct (decide (pretty scenario = key)) as [<-|Hne].
              ** right. exists scenario. split_and!; [(apply elem_of_cons; now left) | | reflexivity].
                 unfold scenarioRuns. now rewrite Eskip.
              ** rewrite lookup_insert_ne in H by exact Hne. auto.
           ++ right. exists s. split_and!; auto. apply elem_of_cons; now right.
        -- intros [H|(s & Hin & Hs & Hk)].
           ++ left. destruct (decide (pretty scenario = key)) as [<-|Hne].
              ** rewrite lookup_insert_eq. eauto.
              ** now rewrite lookup_insert_ne.
           ++ apply elem_of_cons in Hin. destruct Hin as [->|Hin].
              ** left. subst key. rewrite lookup_insert_eq. eauto.
              ** right. exists s. auto.
      * intros key entry Hfinal.
        destruct (Hentries key entry Hfinal) as [H|(s & Hin & Hs)].
        -- destruct (decide (pretty scenario = key)) as [<-|Hne].
           ++ rewrite lookup_insert_eq in H. injection H as <-.
              right. exists scenario. split_and!; [(apply elem_of_cons; now left) | reflexivity |].
              split; [exact Hlen | reflexivity].
           ++ rewrite lookup_insert_ne in H by exact Hne. auto.
        -- right. exists s. split; [apply elem_of_cons; now right | exact Hs].
Qed.

(** X7. [runModelTests] fails loudly.  For a model id that is unknown or
    has no API key it throws "Model not found or missing API key: <id>"
    before anything is run.  It returns a result map only if every
    requested scenario number is between 1 and 4: an invalid number makes
    the whole call throw, even for a scenario listed after valid ones.
    With no scenario requested it returns the empty map and does
    nothing. *)
Theorem runModelTests_fails_loudly :
  forall modelId scenarios (config : Config) w,
    (getModelWithKeys modelId (default noApiKeys (apiKeys config)) = None ->
     runModelTests modelId scenarios config w
     = (Thrown (newError ("Model not found or missing API key: " +:+ modelId)), w))
    /\ (forall results w',
          runModelTests modelId scenarios config w = (Normal results, w') ->
          is_Some (getModelWithKeys modelId (default noApiKeys (apiKeys config)))
          /\ Forall (fun s => 1 <= s <= 4) scenarios)
    /\ (is_Some (getModelWithKeys modelId (default noApiKeys (apiKeys config))) ->
        scenarios = [] ->
        runModelTests modelId scenarios config w = (Normal ∅, w)).
Proof.
  intros modelId scenarios config w. unfold runModelTests. split_and!.
  - intros ->. reflexivity.
  - intros results w' Hrun.
    destruct (getModelWithKeys _ _) as [model|]; [|discriminate].
    split; [eauto|]. apply scenarioLoop_entries in Hrun. tauto.
  - intros [model ->] ->. reflexivity.
Qed.


Lemma modelLoop_spec scenarios (config : Config) :
  forall modelIds (results : gmap string (gmap string (Storage.ScenarioResult Json)))
         w final w',
    modelLoop modelIds scenarios config results w = (Normal final, w') ->
    Forall (fun id => is_Some (getModelWithKeys id (default noApiKeys (apiKeys config))))
           modelIds
    /\ (forall id, is_Some (final !! id) <-> is_Some (results !! id) \/ id ∈ modelIds)
    /\ (forall id r,
          final !! id = Some r ->
          results !! id = Some r
          \/ (id ∈ modelIds
              /\ exists w0 w1, runModelTests id scenarios config w0 = (Normal r, w1))).
Proof.
  induction modelIds as [|modelId rest IH]; intros results w final w' Hrun.
  - simpl in Hrun. injection Hrun as <- _. split_and!; [constructor | | auto].
    intros id. split; [auto|]. intros [H|Hin]; [exact H | inversion Hin].
  - simpl in Hrun. unfold bind in Hrun.
    destruct (runModelTests modelId scenarios config w) as [[r|e] w1] eqn:Emodel;
      [|discriminate].
    apply IH in Hrun. destruct Hrun as (Hknown & Hkeys & Hentries). split_and!.
    + constructor; [|exact Hknown].
      unfold runModelTests in Emodel.
      destruct (getModelWithKeys _ _); [eauto | discriminate].
    + intros id. rewrite Hkeys. split.
      * intros [H|Hin]; [|right; apply elem_of_cons; now right].
        destruct (decide (modelId = id)) as [<-|Hne]; [right; (apply elem_of_cons; now left)|].
        rewrite lookup_insert_ne in H by exact Hne. auto.
      * intros [H|Hin].
        -- left. destruct (decide (modelId = id)) as [<-|Hne].
           ++ rewrite lookup_insert_eq. eauto.
           ++ now rewrite lookup_insert_ne.
        -- apply elem_of_cons in Hin. destruct Hin as [->|Hin]; [|auto].
           left. rewrite lookup_insert_eq. eauto.
    + intros id r0 Hfinal. destruct (Hentries id r0 Hfinal) as [H|(Hin & Hr)].
      * destruct (decide (modelId = id)) as [<-|Hne].
        -- rewrite lookup_insert_eq in H. injection H as <-.
           right. split; [(apply elem_of_cons; now left) | eauto].
        -- rewrite lookup_insert_ne in H by exact Hne. auto.
      * right. split; [apply elem_of_cons; now right | exact Hr].
Qed.

(** X9. [runFullTestSuite] returns a map with one entry per requested
    model id, each the result map of a [runModelTests] call for that id.
    It returns only if every requested id resolves to a model with a key
    and every scenario number is valid: one unknown id makes the whole
    suite throw, and the results of the models before it are not
    returned. *)
Theorem runFullTestSuite_is_all_or_nothing :
  forall modelIds scenarios (config : Config) w results w',
    runFullTestSuite modelIds scenarios config w = (Normal results, w') ->
    Forall (fun id => is_Some (getModelWithKeys id (default noApiKeys (apiKeys config))))
           modelIds
    /\ (modelIds <> [] -> Forall (fun s => 1 <= s <= 4) scenarios)
    /\ (forall id, is_Some (results !! id) <-> id ∈ modelIds)
    /\ (forall id r,
          results !! id = Some r ->
          exists w0 w1, runModelTests id scenarios config w0 = (Normal r, w1)).
Proof.
  intros modelIds scenarios config w results w' Hrun.
  unfold runFullTestSuite in Hrun.
  pose proof Hrun as Hfirst.
  apply modelLoop_spec in Hrun. destruct Hrun as (Hknown & Hkeys & Hentries).
  split_and!.
  - exact Hknown.
  - intros Hne. destruct modelIds as [|modelId rest]; [congruence|].
    simpl in Hfirst. unfold bind in Hfirst.
    destruct (runModelTests modelId scenarios config w) as [[r|e] w1] eqn:Emodel;
      [|discriminate].
    unfold runModelTests in Emodel.
    destruct (getModelWithKeys _ _); [|discriminate].
    apply scenarioLoop_entries in Emodel. tauto.
  - intros id. rewrite Hkeys, lookup_empty. split.
    + intros [[? H]|H]; [discriminate | exact H].
    + auto.
  - intros id r Hr. destruct (Hentries id r Hr) as [H|(_ & H)]; [|exact H].
    rewrite lookup_empty in H. discriminate.
Qed.

End RunnerLogFacts.

(** ** The model factory and the start handler *)

Section FactoryFacts.
Context `{env : Environment}.

Lemma getModelDefinition_of_definition :
  Forall (fun d => getModelDefinition (def_id d) = Some d) modelDefinitions.
Proof. repeat constructor. Qed.

Lemma getModelDefinition_Some id d :
  getModelDefinition id = Some d <-> d ∈ modelDefinitions /\ def_id d = id.
Proof.
  split.
  - intros H. unfold getModelDefinition in H. apply find_some in H.
    destruct H as (Hin & Heq). apply String.eqb_eq in Heq.
    split; [now apply list_elem_of_In | exact Heq].
  - intros (Hin & <-).
    pose proof getModelDefinition_of_definition as Hall.
    rewrite Forall_forall in Hall. now apply Hall.
Qed.

(** X10. [getModelWithKeys] gives a model exactly for an id of the
    definition table whose provider has a non-empty API key, in the
    request or else in the environment of the process; the model carries
    the id, name, provider, model name and capability flags of that
    definition.  For any other id, and for a provider without a key, it
    gives null. *)
Theorem getModelWithKeys_resolves_defined_models_with_a_key :
  forall id apiKeys,
    (is_Some (getModelWithKeys id apiKeys)
     <-> exists d, d ∈ modelDefinitions /\ def_id d = id
                   /\ truthy (providerKey apiKeys (def_provider d)) = true)
    /\ (forall model,
          getModelWithKeys id apiKeys = Some model ->
          exists d, d ∈ modelDefinitions
                    /\ def_id d = id
                    /\ model_id model = id
                    /\ model_name model = def_name d
                    /\ model_provider model = def_provider d
                    /\ model_handle model = def_modelName d
                    /\ supportsStrictMode model = def_supportsStrictMode d
                    /\ isReasoningModel model = def_isReasoningModel d).
Proof.
  intros id apiKeys. unfold getModelWithKeys, createModelWithKeys. split.
  - split.
    + destruct (getModelDefinition id) as [d|] eqn:Hd; [|intros [? ?]; discriminate].
      apply getModelDefinition_Some in Hd. destruct Hd as (Hin & Hid).
      destruct (truthy _) eqn:Hkey; [|intros [? ?]; discriminate].
      intros _. exists d. auto.
    + intros (d & Hin & Hid & Hkey).
      rewrite (proj2 (getModelDefinition_Some id d) (conj Hin Hid)), Hkey. eauto.
  - intros model.
    destruct (getModelDefinition id) as [d|] eqn:Hd; [|discriminate].
    apply getModelDefinition_Some in Hd. destruct Hd as (Hin & Hid).
    destruct (truthy _); [|discriminate].
    intros [= <-]. exists d. simpl. split_and!; auto.
Qed.

Lemma hasKeyForProvider_providerKey apiKeys provider :
  Route.hasKeyForProvider apiKeys provider = truthy (providerKey apiKeys provider).
Proof.
  unfold Route.hasKeyForProvider, providerKey.
  repeat (destruct (String.eqb provider _); [reflexivity|]). reflexivity.
Qed.

(** The route's filter keeps exactly the ids that [getModelWithKeys]
    resolves. *)
Lemma valid_model_ids_resolve apiKeys id :
  match getModelDefinition id with
  | None => false
  | Some def => Route.hasKeyForProvider apiKeys (def_provider def)
  end = true
  <-> is_Some (getModelWithKeys id apiKeys).
Proof.
  unfold getModelWithKeys, createModelWithKeys.
  destruct (getModelDefinition id) as [d|].
  - rewrite hasKeyForProvider_providerKey.
    destruct (truthy _); split; eauto; try discriminate; intros [? ?]; discriminate.
  - split; [discriminate | intros [? ?]; discriminate].
Qed.

(** X11. What the start handler does once the request body is read.  It
    answers 200, 400 or 500, and changes the table only when it answers
    200: then it has added one entry under the new run id, with status
    "running", and every other entry is as before.  The models of that
    entry are the requested ids that [getModelWithKeys] resolves with the
    request's keys (so the suite will find every one of them), its
    scenarios are the requested numbers between 1 and 4, both lists are
    non-empty, and [maxAttempts] is [maxRetries + 1]. *)
Theorem start_handler_registers_only_runnable_work :
  forall (request : Route.Request) (runId : string)
         (table table' : gmap string Route.ActiveRun) (response : Route.Response),
    Route.POST_after_await request runId table = (response, table') ->
    (Route.resp_status response = 200 \/ Route.resp_status response = 400
     \/ Route.resp_status response = 500)%Z
    /\ (Route.resp_status response <> 200%Z -> table' = table)
    /\ (Route.resp_status response = 200%Z ->
        Route.resp_payload response = runId
        /\ (forall other, other <> runId -> table' !! other = table !! other)
        /\ exists entry body,
             table' !! runId = Some entry
             /\ Route.req_body request = Some body
             /\ Route.status entry = Route.running
             /\ Route.ar_models entry <> []
             /\ Route.ar_scenarios entry <> []
             /\ (forall id, id ∈ Route.ar_models entry <->
                   id ∈ default (map def_id modelDefinitions) (Route.body_models body)
                   /\ is_Some (getModelWithKeys id (Route.req_keys request)))
             /\ (forall s, s ∈ Route.ar_scenarios entry <->
                   s ∈ default [1; 2; 3; 4] (Route.body_scenarios body) /\ 1 <= s <= 4)
             /\ Route.ar_maxAttempts entry = default 3 (Route.body_maxRetries body) + 1
             /\ Route.ar_runsPerScenario entry
                = default 10 (Route.body_runsPerScenario body)
             /\ Route.ar_totalScenarios entry
                = length (Route.ar_models entry) * length (Route.ar_scenarios entry)).
Proof.
  intros request runId table table' response. unfold Route.POST_after_await.
  destruct (Route.req_body request) as [body|].
  2:{ intros [= <- <-]. simpl. split_and!; [auto | auto | discriminate]. }
  set (models := List.filter _ _). set (scenarios := List.filter _ _).
  destruct (length models =? 0) eqn:Hm.
  { intros [= <- <-]. simpl. split_and!; [auto | auto | discriminate]. }
  destruct (length scenarios =? 0) eqn:Hs.
  { intros [= <- <-]. simpl. split_and!; [auto | auto | discriminate]. }
  intros [= <- <-]. simpl. split_and!; [auto | congruence |].
  intros _. split_and!; [reflexivity | |].
  - intros other Hne. now rewrite lookup_insert_ne.
  - eexists _, body. rewrite lookup_insert_eq. split_and!; try reflexivity.
    + simpl. intros Hnil. rewrite Hnil in Hm. discriminate.
    + simpl. intros Hnil. rewrite Hnil in Hs. discriminate.
    + intros id. simpl. unfold models.
      rewrite list_elem_of_In, filter_In, <- list_elem_of_In, valid_model_ids_resolve.
      reflexivity.
    + intros s. simpl. unfold scenarios.
      rewrite list_elem_of_In, filter_In, <- list_elem_of_In, andb_true_iff,
        !Nat.leb_le. reflexivity.
Qed.

Lemma modelDefinitions_ids_NoDup : NoDup (map def_id modelDefinitions).
Proof. apply (bool_decide_unpack _). vm_compute. reflexivity. Qed.

Lemma created_models_NoDup apiKeys : forall defs,
  NoDup (map def_id defs) ->
  NoDup (map model_id (omap (fun d => createModelWithKeys d apiKeys) defs)).
Proof.
  induction defs as [|d defs IH]; simpl; [constructor|].
  intros Hnd. apply NoDup_cons in Hnd as [Hnotin Hnd].
  unfold createModelWithKeys at 1. destruct (truthy _); simpl; [|auto].
  apply NoDup_cons. split; [|auto].
  intros Hin. apply Hnotin.
  apply list_elem_of_In, in_map_iff in Hin as (m & Hid & Hm).
  apply list_elem_of_In, list_elem_of_omap in Hm as (d' & Hd' & Hcreate).
  unfold createModelWithKeys in Hcreate. destruct (truthy _); [|discriminate].
  injection Hcreate as <-. simpl in Hid. rewrite <- Hid.
  apply list_elem_of_In, in_map, list_elem_of_In, Hd'.
Qed.

(** X12. [getAvailableModels] lists exactly the models that
    [getModelWithKeys] resolves: a model is in the list if and only if
    looking up its id with the same keys gives that model; no id is listed
    twice. *)
Theorem available_models_are_the_resolvable_ones :
  forall apiKeys,
    (forall model,
       model ∈ getAvailableModels apiKeys
       <-> getModelWithKeys (model_id model) apiKeys = Some model)
    /\ NoDup (map model_id (getAvailableModels apiKeys)).
Proof.
  intros apiKeys. split.
  - intros model. unfold getAvailableModels, getModelWithKeys. split.
    + intros Hin. apply list_elem_of_omap in Hin as (d & Hd & Hcreate).
      assert (Hid : model_id model = def_id d).
      { unfold createModelWithKeys in Hcreate. destruct (truthy _); [|discriminate].
        now injection Hcreate as <-. }
      rewrite Hid, (proj2 (getModelDefinition_Some (def_id d) d) (conj Hd eq_refl)).
      exact Hcreate.
    + destruct (getModelDefinition (model_id model)) as [d|] eqn:Hd; [|discriminate].
      apply getModelDefinition_Some in Hd as (Hin & _).
      intros Hcreate. apply list_elem_of_omap. eauto.
  - apply created_models_NoDup, modelDefinitions_ids_NoDup.
Qed.

End FactoryFacts.

Module LiveFacts.
Import Live.

Lemma setCell_length i status cells :
  (i < Z.of_nat (length cells))%Z -> length (setCell i status cells) = length cells.
Proof.
  intros Hi. unfold setCell. destruct (i <? 0)%Z eqn:Hneg; [reflexivity|].
  apply Z.ltb_ge in Hneg.
  destruct (Nat.ltb_spec (Z.to_nat i) (length cells)); [|lia].
  apply length_insert.
Qed.

Lemma setCell_lookup i status cells j :
  (0 <= i < Z.of_nat (length cells))%Z ->
  setCell i status cells !! j
  = if decide (j = Z.to_nat i) then Some (Some status) else cells !! j.
Proof.
  intros Hi. unfold setCell. destruct (i <? 0)%Z eqn:Hneg; [apply Z.ltb_lt in Hneg; lia|].
  destruct (Nat.ltb_spec (Z.to_nat i) (length cells)); [|lia].
  destruct (decide (j = Z.to_nat i)) as [->|Hne].
  - now apply list_lookup_insert_eq.
  - now apply list_lookup_insert_ne.
Qed.

Lemma setCellsFrom_spec upto status : forall n from cells,
  upto - from = n -> upto <= length cells ->
  length (setCellsFrom from upto status cells) = length cells
  /\ forall j, setCellsFrom from upto status cells !! j
               = if decide (from <= j < upto) then Some (Some status) else cells !! j.
Proof.
  unfold setCellsFrom. induction n as [|n IH]; intros from cells Hn Hlen.
  - rewrite Hn. simpl. split; [reflexivity|]. intros j.
    destruct (decide (from <= j < upto)); [lia | reflexivity].
  - rewrite Hn. simpl.
    assert (Hin : (0 <= Z.of_nat from < Z.of_nat (length cells))%Z) by lia.
    specialize (IH (S from) (setCell (Z.of_nat from) status cells)).
    rewrite setCell_length in IH by lia.
    destruct IH as (IHlen & IHlook); [lia | lia |].
    replace (upto - S from) with n in IHlen, IHlook by lia.
    split; [exact IHlen|]. intros j. rewrite IHlook, setCell_lookup by exact Hin.
    rewrite Nat2Z.id.
    destruct (decide (S from <= j < upto)), (decide (j = from)),
      (decide (from <= j < upto)); try reflexivity; lia.
Qed.

(** ** What an event can change *)

Lemma skipLaterSteps_length : forall indices steps,
  length (fst (skipLaterSteps indices steps)) = length steps.
Proof.
  induction indices as [|i rest IH]; intros steps; simpl; [reflexivity|].
  destruct (steps !! i); [|reflexivity].
  rewrite IH. apply length_insert.
Qed.

Lemma skipLaterSteps_in_range : forall indices steps,
  Forall (fun i => i < length steps) indices ->
  snd (skipLaterSteps indices steps) = None.
Proof.
  induction indices as [|i rest IH]; intros steps Hall; simpl; [reflexivity|].
  inversion Hall as [|? ? Hi Hrest]; subst.
  destruct (lookup_lt_is_Some_2 steps i Hi) as [step ->].
  apply IH. eapply Forall_impl; [exact Hrest|]. simpl. intros j Hj.
  now rewrite length_insert.
Qed.

Ltac paint_cases :=
  repeat match goal with
    | |- context [match ?x with _ => _ end] =>
        match type of x with
        | sumbool _ _ => fail 1
        | _ => destruct x eqn:?
        end
    end.

Lemma paint_sameRow maxAttempts p sp : sameRow sp (fst (paint maxAttempts p sp)).
Proof.
  unfold sameRow, paint. paint_cases; simpl;
    split_and!; try reflexivity; now rewrite length_insert.
Qed.

Lemma paint_other_runs maxAttempts p sp j :
  S j <> tp_runNumber p ->
  sc_runs (fst (paint maxAttempts p sp)) !! j = sc_runs sp !! j.
Proof.
  intros Hj. unfold paint. paint_cases; simpl; try reflexivity;
    (apply list_lookup_insert_ne; congruence).
Qed.

Lemma paint_completedRuns maxAttempts p sp :
  sc_completedRuns sp <= sc_completedRuns (fst (paint maxAttempts p sp))
  <= sc_completedRuns sp + 1.
Proof. unfold paint. paint_cases; simpl; lia. Qed.

Lemma paint_threeSteps maxAttempts p sp :
  Forall (fun row => forall steps, rp_steps row = Some steps -> length steps = 3)
         (sc_runs sp) ->
  Forall (fun row => forall steps, rp_steps row = Some steps -> length steps = 3)
         (sc_runs (fst (paint maxAttempts p sp)))
  /\ forall e, snd (paint maxAttempts p sp) <> Threw e.
Proof.
  intros Hall. unfold paint.
  destruct (tp_runNumber p) as [|runIndex]; [split; [exact Hall | discriminate]|].
  destruct (sc_runs sp !! runIndex) as [runData|] eqn:Hrow;
    [|split; [exact Hall | discriminate]].
  pose proof (proj1 (Forall_lookup _ _) Hall _ _ Hrow) as Hthree.
  assert (Hins : forall row',
            (forall steps, rp_steps row' = Some steps -> length steps = 3) ->
            Forall (fun row => forall steps, rp_steps row = Some steps -> length steps = 3)
                   (<[runIndex := row']> (sc_runs sp))).
  { intros row' Hrow'. apply Forall_insert; assumption. }
  destruct (if (tp_scenario p =? 3) || (tp_scenario p =? 4) then rp_steps runData else None)
    as [steps|] eqn:Hsteps.
  - assert (Hst : rp_steps runData = Some steps).
    { destruct ((tp_scenario p =? 3) || (tp_scenario p =? 4)); [assumption | discriminate]. }
    specialize (Hthree _ Hst).
    destruct (steps !! _) as [step|] eqn:Hstep; [|split; [exact Hall | discriminate]].
    assert (Hk : match stepGiven (tp_stepNumber p) with Some n => n - 1 | None => 0 end < 3).
    { rewrite <- Hthree. eapply lookup_lt_Some, Hstep. }
    destruct (tp_status p); simpl.
    + split; [|discriminate]. apply Hins. simpl. intros ? [= <-]. now rewrite length_insert.
    + destruct (_ =? 2); simpl; (split; [|discriminate]); apply Hins; simpl;
        intros ? [= <-]; now rewrite length_insert.
    + destruct (_ =? _)%Z; simpl.
      * match goal with
        | |- context [skipLaterSteps ?ix ?ss] =>
            pose proof (skipLaterSteps_length ix ss) as Hlen;
            pose proof (skipLaterSteps_in_range ix ss) as Hnone;
            destruct (skipLaterSteps ix ss) as [steps'' [e|]]
        end; simpl in *.
        -- exfalso. enough (Some e = None) by discriminate. apply Hnone.
           apply Forall_forall. intros i Hi. apply elem_of_seq in Hi.
           rewrite length_insert. lia.
        -- split; [|discriminate]. apply Hins. simpl. intros ? [= <-].
           now rewrite Hlen, length_insert.
      * split; [|discriminate]. apply Hins. simpl. intros ? [= <-].
        now rewrite length_insert.
    + split; [|discriminate]. apply Hins. simpl. intros ? [= <-]. now rewrite length_insert.
  - destruct (rp_attempts runData) as [cells|] eqn:Hcells;
      [|split; [exact Hall | discriminate]].
    assert (Hkeep : forall cells' final steps,
              rp_steps {| rp_run := rp_run runData; rp_attempts := Some cells';
                          rp_steps := rp_steps runData; rp_final := final |} = Some steps ->
              length steps = 3) by (simpl; auto).
    destruct (tp_status p); simpl; try destruct (_ =? _)%Z; simpl;
      (split; [|discriminate]); apply Hins; simpl; auto.
Qed.

Lemma find_replaceFirst (f g : ScenarioProgress -> bool) new : forall l old,
  find f l = Some old -> g new = g old ->
  find g (replaceFirst f new l)
  = if g old then (if f old then match find g l with
                                 | Some first => if f first then Some new else Some first
                                 | None => None
                                 end
                   else find g l)
    else find g l.
Proof.
  intros l old Hfind Hg.
  assert (Hf : f old = true) by (eapply find_some, Hfind).
  rewrite Hf. revert Hfind.
  induction l as [|x rest IH]; simpl; [discriminate|].
  destruct (f x) eqn:Hfx.
  - intros [= ->]. simpl. rewrite Hg. destruct (g old); [now rewrite Hf | reflexivity].
  - intros Hrest. simpl. destruct (g x) eqn:Hgx.
    + rewrite Hfx. now destruct (g old).
    + exact (IH Hrest).
Qed.

Lemma onProgress_scenarios maxAttempts p st :
  scenarios (progress (snd (onProgress maxAttempts p st)))
  = match find (isFor p) (scenarios (progress st)) with
    | Some sp => replaceFirst (isFor p) (fst (paint maxAttempts p sp))
                   (scenarios (progress st))
    | None => scenarios (progress st)
    end.
Proof.
  unfold onProgress. destruct (find _ _) as [sp|]; [|reflexivity].
  destruct (paint maxAttempts p sp) as [painted how]. simpl.
  destruct how; simpl; [|reflexivity|reflexivity].
  destruct (_ || _); reflexivity.
Qed.

Lemma rowOf_onProgress maxAttempts p st modelId scenario :
  rowOf modelId scenario (snd (onProgress maxAttempts p st))
  = if decide (modelId = tp_modelId p /\ scenario = tp_scenario p)
    then (fun sp => fst (paint maxAttempts p sp)) <$> rowOf modelId scenario st
    else rowOf modelId scenario st.
Proof.
  unfold rowOf. rewrite onProgress_scenarios.
  set (g := fun s => String.eqb (sc_modelId s) modelId && (sc_scenario s =? scenario)).
  destruct (decide _) as [[-> ->]|Hne].
  - change (isFor p) with g.
    destruct (find g (scenarios (progress st))) as [sp|] eqn:Hfind; [|now rewrite Hfind].
    pose proof (paint_sameRow maxAttempts p sp) as (Hid & _ & Hsc & _).
    rewrite (find_replaceFirst g g _ _ sp Hfind).
    + rewrite Hfind. assert (Hg : g sp = true) by (eapply find_some, Hfind).
      now rewrite Hg.
    + unfold g. now rewrite Hid, Hsc.
  - destruct (find (isFor p) (scenarios (progress st))) as [sp|] eqn:Hfind; [|reflexivity].
    pose proof (paint_sameRow maxAttempts p sp) as (Hid & _ & Hsc & _).
    rewrite (find_replaceFirst (isFor p) g _ _ sp Hfind)
      by (unfold g; now rewrite Hid, Hsc).
    assert (Hf : isFor p sp = true) by (eapply find_some, Hfind).
    destruct (g sp) eqn:Hg; [|reflexivity]. exfalso. apply Hne.
    unfold g in Hg. unfold isFor in Hf.
    apply andb_true_iff in Hg as [Hg1 Hg2]. apply andb_true_iff in Hf as [Hf1 Hf2].
    apply String.eqb_eq in Hg1, Hf1. apply Nat.eqb_eq in Hg2, Hf2. split; congruence.
Qed.

Lemma hasRow_onProgress maxAttempts p st q :
  hasRow (snd (onProgress maxAttempts p st)) q = hasRow st q.
Proof.
  unfold hasRow. rewrite rowOf_onProgress.
  destruct (decide _); [|reflexivity]. now destruct (rowOf _ _ st).
Qed.

Lemma hasRow_afterEvents maxAttempts q : forall evs st,
  hasRow (afterEvents maxAttempts evs st) q = hasRow st q.
Proof.
  unfold afterEvents. induction evs as [|p evs IH]; intros st; simpl; [reflexivity|].
  now rewrite IH, hasRow_onProgress.
Qed.

(** X13. A progress event repaints one run of one row of the live table:
    the row of every other model and scenario is as before; the row of the
    event keeps its identity and its number of runs, every run but the one
    the event names is as before, and the count of completed runs grows by
    at most one.  An event of a model and scenario that have no row changes
    nothing at all, not even the log or the current position. *)
Theorem a_progress_event_repaints_one_run :
  forall maxAttempts p st,
    let st' := snd (onProgress maxAttempts p st) in
    (forall modelId scenario,
       (modelId, scenario) <> (tp_modelId p, tp_scenario p) ->
       rowOf modelId scenario st' = rowOf modelId scenario st)
    /\ (forall sp,
          rowOf (tp_modelId p) (tp_scenario p) st = Some sp ->
          exists sp',
            rowOf (tp_modelId p) (tp_scenario p) st' = Some sp'
            /\ sc_modelId sp' = sc_modelId sp /\ sc_modelName sp' = sc_modelName sp
            /\ sc_scenario sp' = sc_scenario sp
            /\ sc_isSequential sp' = sc_isSequential sp
            /\ sc_isSkipped sp' = sc_isSkipped sp
            /\ sc_totalRuns sp' = sc_totalRuns sp
            /\ length (sc_runs sp') = length (sc_runs sp)
            /\ (forall j, S j <> tp_runNumber p -> sc_runs sp' !! j = sc_runs sp !! j)
            /\ sc_completedRuns sp <= sc_completedRuns sp' <= sc_completedRuns sp + 1)
    /\ (rowOf (tp_modelId p) (tp_scenario p) st = None ->
        onProgress maxAttempts p st = (Normal tt, st))
    /\ length (scenarios (progress st')) = length (scenarios (progress st))
    /\ totalScenarios (progress st') = totalScenarios (progress st).
Proof.
  intros maxAttempts p st st'. split_and!.
  - intros modelId scenario Hne. unfold st'. rewrite rowOf_onProgress.
    destruct (decide _) as [[-> ->]|]; [now elim Hne | reflexivity].
  - intros sp Hsp. exists (fst (paint maxAttempts p sp)).
    pose proof (paint_sameRow maxAttempts p sp) as (? & ? & ? & ? & ? & ? & ?).
    split_and!; try assumption.
    + unfold st'. rewrite rowOf_onProgress, Hsp.
      destruct (decide _) as [|Hne]; [reflexivity | elim Hne; auto].
    + intros j Hj. now apply paint_other_runs.
    + apply paint_completedRuns.
    + apply paint_completedRuns.
  - unfold rowOf, onProgress. change (find _ (scenarios (progress st)))
      with (find (isFor p) (scenarios (progress st))).
    now intros ->.
  - unfold st'. rewrite onProgress_scenarios.
    destruct (find _ _) as [sp|]; [|reflexivity].
    generalize (fst (paint maxAttempts p sp)). intros new.
    induction (scenarios (progress st)) as [|x rest IH]; simpl; [reflexivity|].
    destruct (isFor p x); simpl; [reflexivity | now rewrite IH].
  - unfold st', onProgress. destruct (find _ _) as [sp|]; [|reflexivity].
    destruct (paint maxAttempts p sp) as [painted how].
    destruct how; simpl; [|reflexivity|reflexivity].
    destruct (_ || _); reflexivity.
Qed.

(** ** The log *)

Lemma lastEntries_app {A} n (a b : list A) :
  lastEntries n (lastEntries n a ++ b) = lastEntries n (a ++ b).
Proof.
  unfold lastEntries. rewrite !length_app, length_drop.
  destruct (Nat.le_gt_cases (length a) n) as [Hle|Hgt].
  - replace (length a - n) with 0 by lia. simpl. now rewrite Nat.sub_0_r.
  - replace (length a - (length a - n) + length b - n) with (length b) by lia.
    replace (length a + length b - n) with ((length a - n) + length b) by lia.
    rewrite <- drop_drop. rewrite (drop_app_le a b (length a - n)) by lia.
    reflexivity.
Qed.

Lemma lastEntries_short {A} n (l : list A) : length l <= n -> lastEntries n l = l.
Proof. intros H. unfold lastEntries. now replace (length l - n) with 0 by lia. Qed.

Lemma lastEntries_length {A} n (l : list A) : length (lastEntries n l) <= n.
Proof. unfold lastEntries. rewrite length_drop. lia. Qed.

Lemma pushLog_lastEntries entry entries :
  pushLog entry entries = lastEntries 100 (entries ++ [entry]).
Proof.
  unfold pushLog. destruct (Nat.ltb_spec 100 (length (entries ++ [entry]))).
  - reflexivity.
  - now rewrite lastEntries_short.
Qed.

Lemma onProgress_log maxAttempts p st :
  logEntries (progress (snd (onProgress maxAttempts p st)))
  = if hasRow st p
    then match tp_logEntry p with
         | Some entry => lastEntries 100 (logEntries (progress st) ++ [entry])
         | None => logEntries (progress st)
         end
    else logEntries (progress st).
Proof.
  unfold hasRow, rowOf, onProgress.
  change (find _ (scenarios (progress st))) with (find (isFor p) (scenarios (progress st))).
  destruct (find _ _) as [sp|]; [|reflexivity].
  destruct (paint maxAttempts p sp) as [painted how].
  assert (Hlog : match tp_logEntry p with
                 | Some entry => pushLog entry (logEntries (progress st))
                 | None => logEntries (progress st)
                 end
                 = match tp_logEntry p with
                   | Some entry => lastEntries 100 (logEntries (progress st) ++ [entry])
                   | None => logEntries (progress st)
                   end).
  { destruct (tp_logEntry p); [apply pushLog_lastEntries | reflexivity]. }
  destruct how; simpl; [|exact Hlog|exact Hlog].
  destruct (_ || _); exact Hlog.
Qed.

(** X14. The log of the live table holds the latest hundred entries: after
    any sequence of progress events, it is the last 100 of what it held
    before followed by the log entries of the events that have a row in the
    table, in their order; the entries of events without a row are
    dropped. *)
Theorem the_log_keeps_the_latest_hundred_entries :
  forall maxAttempts evs st,
    length (logEntries (progress st)) <= 100 ->
    logEntries (progress (afterEvents maxAttempts evs st))
    = lastEntries 100
        (logEntries (progress st)
         ++ omap tp_logEntry (List.filter (hasRow st) evs)).
Proof.
  intros maxAttempts evs. unfold afterEvents.
  induction evs as [|p evs IH]; intros st Hlen; simpl.
  - now rewrite app_nil_r, lastEntries_short.
  - pose proof (onProgress_log maxAttempts p st) as Hlog.
    rewrite IH.
    + rewrite Hlog.
      rewrite (filter_ext (hasRow (snd (onProgress maxAttempts p st))) (hasRow st))
        by (intros; apply hasRow_onProgress).
      destruct (hasRow st p); [|reflexivity]. simpl.
      destruct (tp_logEntry p) as [entry|]; [|reflexivity].
      rewrite lastEntries_app, <- app_assoc. reflexivity.
    + rewrite Hlog. destruct (hasRow st p); [|exact Hlen].
      destruct (tp_logEntry p); [apply lastEntries_length | exact Hlen].
Qed.

(** ** The table of the start handler *)

Lemma threeSteps_onProgress maxAttempts p st :
  threeSteps st ->
  threeSteps (snd (onProgress maxAttempts p st))
  /\ fst (onProgress maxAttempts p st) = Normal tt.
Proof.
  unfold threeSteps. intros Hall. split.
  - rewrite onProgress_scenarios.
    destruct (find _ _) as [sp|] eqn:Hfind; [|exact Hall].
    assert (Hsp : Forall (fun row => forall steps, rp_steps row = Some steps ->
                                     length steps = 3) (sc_runs sp)).
    { apply find_some in Hfind as [Hin _].
      apply (proj1 (Forall_forall _ _) Hall). now apply list_elem_of_In. }
    apply (paint_threeSteps maxAttempts p) in Hsp as [Hnew _].
    clear Hfind. revert Hnew Hall. generalize (fst (paint maxAttempts p sp)). intros new Hnew.
    induction (scenarios (progress st)) as [|x rest IH]; simpl; [constructor|].
    intros Hall. inversion Hall; subst.
    destruct (isFor p x); constructor; auto.
  - unfold onProgress. destruct (find _ _) as [sp|] eqn:Hfind; [|reflexivity].
    assert (Hsp : Forall (fun row => forall steps, rp_steps row = Some steps ->
                                     length steps = 3) (sc_runs sp)).
    { apply find_some in Hfind as [Hin _].
      apply (proj1 (Forall_forall _ _) Hall). now apply list_elem_of_In. }
    apply (paint_threeSteps maxAttempts p) in Hsp as [_ Hno].
    destruct (paint maxAttempts p sp) as [painted how]. simpl in Hno.
    destruct how; simpl; [|reflexivity|now elim (Hno e)].
    destruct (_ || _); reflexivity.
Qed.

Lemma initialState_threeSteps models scenarios runsPerScenario maxRetries :
  threeSteps (initialState models scenarios runsPerScenario maxRetries).
Proof.
  unfold threeSteps, initialState, initialScenarios. simpl.
  apply Forall_concat, Forall_map, Forall_forall. intros modelId _.
  apply Forall_map, Forall_forall. intros scenario _. simpl.
  apply Forall_map, Forall_forall. intros i _. unfold initialRun.
  destruct (_ || _); simpl; [intros ? [= <-]; reflexivity | discriminate].
Qed.

(** X15. On the table that the start handler builds, the progress callback
    never throws, whatever events it is given and in whatever order: every
    sequential run has its three steps, and keeps them. *)
Theorem the_progress_callback_never_throws :
  forall models scenarios runsPerScenario maxRetries maxAttempts evs p,
    fst (onProgress maxAttempts p
           (afterEvents maxAttempts evs
              (initialState models scenarios runsPerScenario maxRetries)))
    = Normal tt.
Proof.
  intros models scenarios runsPerScenario maxRetries maxAttempts evs p.
  apply threeSteps_onProgress.
  generalize (initialState_threeSteps models scenarios runsPerScenario maxRetries).
  generalize (initialState models scenarios runsPerScenario maxRetries).
  unfold afterEvents. induction evs as [|q evs IH]; intros st Hst; simpl; [exact Hst|].
  apply IH. now apply threeSteps_onProgress.
Qed.

(** ** The bars of a finished one-shot scenario *)

Section Bars.
Context `{env : Environment}.

Local Abbreviation Attempt := (AttemptResult Json).
Local Abbreviation Step := (StepResult Json).
Local Abbreviation Run := (RunResult Json).
Local Abbreviation Config := (TestConfig Temperature).

Lemma rowOf_afterEvents maxAttempts modelId scenario : forall evs st,
  Forall (fun p => tp_modelId p = modelId /\ tp_scenario p = scenario) evs ->
  rowOf modelId scenario (afterEvents maxAttempts evs st)
  = paintAll maxAttempts evs <$> rowOf modelId scenario st.
Proof.
  unfold afterEvents, paintAll. induction evs as [|p evs IH]; intros st Hall; simpl.
  - now destruct (rowOf _ _ st).
  - inversion Hall as [|? ? [Hm Hs] Hrest]; subst. rewrite IH by exact Hrest.
    rewrite rowOf_onProgress. destruct (decide _) as [|Hne]; [|elim Hne; auto].
    now destruct (rowOf _ _ st).
Qed.

Lemma eventKey_fields p k :
  eventKey p = k ->
  tp_modelId p = ek_modelId k /\ tp_scenario p = ek_scenario k
  /\ tp_runNumber p = ek_runNumber k /\ tp_stepNumber p = ek_stepNumber k
  /\ tp_attemptNumber p = ek_attemptNumber k /\ tp_status p = ek_status k.
Proof. intros <-. repeat split. Qed.

Lemma keys_of_two p1 p2 evs (k1 k2 : EventKey) ks :
  map eventKey (p1 :: p2 :: evs) = [k1; k2] ++ ks ->
  eventKey p1 = k1 /\ eventKey p2 = k2 /\ map eventKey evs = ks.
Proof. simpl. generalize (eventKey p1), (eventKey p2). intros ? ? [= -> -> ->]. auto. Qed.

Lemma paintAll_app maxAttempts evs1 evs2 sp :
  paintAll maxAttempts (evs1 ++ evs2) sp
  = paintAll maxAttempts evs2 (paintAll maxAttempts evs1 sp).
Proof. unfold paintAll. apply foldl_app. Qed.

Lemma paintCells_spec maxAttempts status k cells :
  k < maxAttempts -> length cells = maxAttempts ->
  length (paintCells maxAttempts status (Z.of_nat k) cells) = maxAttempts
  /\ forall j,
       paintCells maxAttempts status (Z.of_nat k) cells !! j
       = match status with
         | StRunning => if decide (j = k) then Some (Some AsRunning) else cells !! j
         | StRetrying =>
             if decide (j = k) then Some (Some AsRunning)
             else if decide (S j = k) then Some (Some AsFailed) else cells !! j
         | StSuccess =>
             if decide (j = k) then Some (Some AsSuccess)
             else if decide (k < j < maxAttempts) then Some (Some AsSkipped)
                  else cells !! j
         | StFailed => if decide (j = k) then Some (Some AsFailed) else cells !! j
         end.
Proof.
  intros Hk Hlen. unfold paintCells. destruct status.
  - split; [rewrite setCell_length; lia|]. intros j.
    rewrite setCell_lookup by lia. now rewrite Nat2Z.id.
  - assert (Hsucc : length (setCell (Z.of_nat k) AsSuccess cells) = maxAttempts)
      by (rewrite setCell_length; lia).
    destruct (setCellsFrom_spec maxAttempts AsSkipped
                (maxAttempts - Z.to_nat (Z.of_nat k + 1)) (Z.to_nat (Z.of_nat k + 1))
                (setCell (Z.of_nat k) AsSuccess cells)) as (Hl & Hlook);
      [reflexivity | lia |].
    split; [lia|]. intros j. rewrite Hlook, setCell_lookup by lia. rewrite Nat2Z.id.
    replace (Z.to_nat (Z.of_nat k + 1)) with (S k) by lia.
    destruct (decide (S k <= j < maxAttempts)), (decide (j = k)),
      (decide (k < j < maxAttempts)); try reflexivity; lia.
  - split; [rewrite setCell_length; lia|]. intros j.
    rewrite setCell_lookup by lia. now rewrite Nat2Z.id.
  - destruct (0 <? Z.of_nat k)%Z eqn:Hpos.
    + apply Z.ltb_lt in Hpos.
      assert (Hprev : length (setCell (Z.of_nat k - 1) AsFailed cells) = maxAttempts)
        by (rewrite setCell_length; lia).
      split; [rewrite setCell_length; lia|]. intros j.
      rewrite setCell_lookup by lia. rewrite Nat2Z.id.
      destruct (decide (j = k)); [reflexivity|].
      rewrite setCell_lookup by lia.
      replace (Z.to_nat (Z.of_nat k - 1)) with (k - 1) by lia.
      destruct (decide (j = k - 1)), (decide (S j = k)); try reflexivity; lia.
    + apply Z.ltb_ge in Hpos.
      split; [rewrite setCell_length; lia|]. intros j.
      rewrite setCell_lookup by lia. rewrite Nat2Z.id.
      destruct (decide (j = k)); [reflexivity|].
      destruct (decide (S j = k)); [lia | reflexivity].
Qed.

Lemma paint_flat maxAttempts p sp runIndex row cells final fin :
  tp_runNumber p = S runIndex ->
  (tp_scenario p =? 3) || (tp_scenario p =? 4) = false ->
  runIndex < length (sc_runs sp) ->
  fst (paint maxAttempts p (flatRow sp runIndex row cells final fin))
  = let attemptIndex := (Z.of_nat (tp_attemptNumber p) - 1)%Z in
    let over := match tp_status p with
                | StSuccess => true
                | StFailed => (attemptIndex =? Z.of_nat maxAttempts - 1)%Z
                | _ => false
                end in
    flatRow sp runIndex row
      (paintCells maxAttempts (tp_status p) attemptIndex cells)
      (if over then match tp_status p with StSuccess => AsSuccess | _ => AsFailed end
       else final)
      (if over then fin + 1 else fin).
Proof.
  intros Hrun Hseq Hlt. unfold paint. rewrite Hrun, Hseq.
  unfold flatRow at 1, repainted at 1. simpl.
  rewrite list_lookup_insert_eq by lia. simpl.
  destruct (tp_status p); simpl; try destruct (_ =? _)%Z; simpl;
    unfold finish, withRuns, withAttempts, flatRow, repainted; simpl;
    rewrite list_insert_insert_eq; try reflexivity; f_equal; lia.
Qed.

Lemma attemptCells_spec maxAttempts k ok cells :
  k < maxAttempts -> failedBefore maxAttempts k cells ->
  length (attemptCells maxAttempts k ok cells) = maxAttempts
  /\ forall j, j < maxAttempts ->
       attemptCells maxAttempts k ok cells !! j
       = if decide (j < k) then Some (Some AsFailed)
         else if decide (j = k)
              then Some (Some (if ok then AsSuccess else AsFailed))
              else if ok then Some (Some AsSkipped) else cells !! j.
Proof.
  intros Hk (Hlen & Hfailed). unfold attemptCells.
  set (request := if S k =? 1 then StRunning else StRetrying).
  destruct (paintCells_spec maxAttempts request k cells Hk Hlen) as (Hlen1 & Hlook1).
  set (cells1 := paintCells maxAttempts request (Z.of_nat k) cells) in *.
  set (response := if ok then StSuccess else StFailed).
  destruct (paintCells_spec maxAttempts response k cells1 Hk Hlen1) as (Hlen2 & Hlook2).
  split; [exact Hlen2|].
  intros j Hj. rewrite Hlook2. unfold response.
  destruct (decide (j < k)) as [Hjk|Hjk].
  - assert (Hc1 : cells1 !! j = Some (Some AsFailed)).
    { rewrite Hlook1. unfold request. destruct (S k =? 1).
      - destruct (decide (j = k)); [lia|]. now apply Hfailed.
      - destruct (decide (j = k)); [lia|].
        destruct (decide (S j = k)); [reflexivity|]. now apply Hfailed. }
    destruct ok.
    + destruct (decide (j = k)); [lia|].
      destruct (decide (k < j < maxAttempts)); [lia | exact Hc1].
    + destruct (decide (j = k)); [lia | exact Hc1].
  - destruct (decide (j = k)) as [->|Hne].
    + destruct ok; reflexivity.
    + destruct ok.
      * destruct (decide (k < j < maxAttempts)); [reflexivity | lia].
      * rewrite Hlook1. unfold request. destruct (S k =? 1).
        -- destruct (decide (j = k)); [lia | reflexivity].
        -- destruct (decide (j = k)); [lia|].
           destruct (decide (S j = k)); [lia | reflexivity].
Qed.

Lemma attemptCells_failed maxAttempts k cells :
  k < maxAttempts -> failedBefore maxAttempts k cells ->
  failedBefore maxAttempts (S k) (attemptCells maxAttempts k false cells).
Proof.
  intros Hk Hinv. destruct (attemptCells_spec maxAttempts k false cells Hk Hinv)
    as (Hlen & Hlook).
  split; [exact Hlen|]. intros j Hj. rewrite Hlook by lia.
  destruct (decide (j < k)); [reflexivity|].
  destruct (decide (j = k)); [reflexivity | lia].
Qed.

Lemma over_request k maxAttempts :
  match (if S k =? 1 then StRunning else StRetrying) with
  | StSuccess => true
  | StFailed => (Z.of_nat k =? Z.of_nat maxAttempts - 1)%Z
  | _ => false
  end = false.
Proof. destruct (S k =? 1); reflexivity. Qed.

Lemma last_index k maxAttempts :
  (Z.of_nat k =? Z.of_nat maxAttempts - 1)%Z = (S k =? maxAttempts).
Proof.
  destruct (Nat.eqb_spec (S k) maxAttempts).
  - apply Z.eqb_eq. lia.
  - apply Z.eqb_neq. lia.
Qed.

Lemma paint_attempt maxAttempts sp runIndex row model scenario (a : Attempt) p1 p2
    cells final fin k :
  (scenario =? 3) || (scenario =? 4) = false ->
  runIndex < length (sc_runs sp) ->
  map eventKey [p1; p2] = attemptEventKeys model scenario (S runIndex) None a ->
  attemptNumber a = S k ->
  paintAll maxAttempts [p1; p2] (flatRow sp runIndex row cells final fin)
  = flatRow sp runIndex row (attemptCells maxAttempts k (success a) cells)
      (if success a then AsSuccess
       else if S k =? maxAttempts then AsFailed else final)
      (if success a || (S k =? maxAttempts) then fin + 1 else fin).
Proof.
  intros Hseq Hlt Hkeys Hnum.
  unfold attemptEventKeys in Hkeys.
  apply (keys_of_two p1 p2 [] _ _ []) in Hkeys as (Hk1 & Hk2 & _).
  apply eventKey_fields in Hk1, Hk2. simpl in Hk1, Hk2.
  destruct Hk1 as (_ & Hs1 & Hr1 & _ & Ha1 & Hst1).
  destruct Hk2 as (_ & Hs2 & Hr2 & _ & Ha2 & Hst2).
  unfold paintAll. cbn [foldl].
  rewrite paint_flat by (rewrite ?Hs1; auto). cbv zeta.
  rewrite paint_flat by (rewrite ?Hs2; auto). cbv zeta.
  rewrite Ha1, Ha2, Hst1, Hst2, Hnum.
  replace (Z.of_nat (S k) - 1)%Z with (Z.of_nat k) by lia.
  rewrite over_request, last_index. unfold attemptCells.
  destruct (success a); cbn [orb]; [reflexivity|].
  destruct (S k =? maxAttempts); reflexivity.
Qed.

Lemma paint_failed_attempts maxAttempts sp runIndex row model scenario final fin :
  (scenario =? 3) || (scenario =? 4) = false ->
  runIndex < length (sc_runs sp) ->
  forall (pre : list Attempt) k evs cells,
    map eventKey evs
    = concat (map (attemptEventKeys model scenario (S runIndex) None) pre) ->
    map attemptNumber pre = seq (S k) (length pre) ->
    allFailed pre ->
    k + length pre < maxAttempts ->
    failedBefore maxAttempts k cells ->
    exists cells',
      paintAll maxAttempts evs (flatRow sp runIndex row cells final fin)
      = flatRow sp runIndex row cells' final fin
      /\ failedBefore maxAttempts (k + length pre) cells'.
Proof.
  intros Hseq Hlt. induction pre as [|a pre IH]; intros k evs cells Hkeys Hnum Hall Hk Hinv.
  - destruct evs; [|discriminate]. exists cells. split; [reflexivity|].
    simpl. now rewrite Nat.add_0_r.
  - simpl in Hkeys, Hnum, Hk. injection Hnum as Hnum Hrest.
    inversion Hall as [|? ? Hfail Hall']; subst.
    destruct evs as [|p1 [|p2 evs]]; try discriminate.
    unfold attemptEventKeys in Hkeys at 1.
    apply keys_of_two in Hkeys as (Hk1 & Hk2 & Hkeys).
    pose proof (paint_attempt maxAttempts sp runIndex row model scenario a p1 p2
                  cells final fin k Hseq Hlt) as Hpaint.
    rewrite Hfail in Hpaint.
    replace (S k =? maxAttempts) with false in Hpaint
      by (symmetry; apply Nat.eqb_neq; lia).
    cbn [orb] in Hpaint.
    destruct (IH (S k) evs (attemptCells maxAttempts k false cells) Hkeys Hrest Hall')
      as (cells' & Hpaint' & Hinv'); [lia | apply attemptCells_failed; [lia | exact Hinv] |].
    exists cells'. split.
    + change (p1 :: p2 :: evs) with ([p1; p2] ++ evs).
      rewrite paintAll_app, Hpaint; [exact Hpaint' | | exact Hnum].
      unfold attemptEventKeys. simpl. now rewrite Hk1, Hk2.
    + simpl. now replace (k + S (length pre)) with (S k + length pre) by lia.
Qed.

Lemma barCells_lookup maxAttempts (atts : list Attempt) j :
  barCells maxAttempts atts !! j
  = if decide (j < maxAttempts)
    then Some (match atts !! j with
               | Some attempt => Some (if success attempt then AsSuccess else AsFailed)
               | None => Some AsSkipped
               end)
    else None.
Proof.
  unfold barCells.
  match goal with |- context [map ?f ?l] => change (map f l) with (f <$> l) end.
  unfold Cells. rewrite list_lookup_fmap.
  destruct (decide (j < maxAttempts)) as [Hj|Hj].
  - now rewrite lookup_seq_lt.
  - rewrite lookup_seq_ge by lia. reflexivity.
Qed.

(** A finished attempt loop: failed attempts, then one that succeeded or
    was the last one allowed. *)
Lemma loopOutcome_last maxAttempts (atts : list Attempt) ok final :
  loopOutcome [] maxAttempts 1 atts ok final -> 0 < maxAttempts ->
  exists pre lastA,
    atts = pre ++ [lastA] /\ allFailed pre /\ success lastA = ok
    /\ (ok = true \/ S (length pre) = maxAttempts)
    /\ length pre < maxAttempts
    /\ map attemptNumber pre = seq 1 (length pre)
    /\ attemptNumber lastA = S (length pre).
Proof.
  intros (new & Hnew & Hlen & Hnum & _ & Hcase) Hpos. simpl in Hnew. subst new.
  assert (Hsplit : exists pre lastA,
            atts = pre ++ [lastA] /\ allFailed pre /\ success lastA = ok
            /\ (ok = true \/ S (length pre) = maxAttempts)).
  { destruct Hcase as [(-> & pre & lastA & -> & Hpre & Hlast & _)
                      |(-> & _ & Hall & Hfull)].
    - exists pre, lastA. auto.
    - destruct atts as [|x xs]; [simpl in Hfull; lia|].
      assert (Hne : x :: xs <> []) by discriminate.
      destruct (exists_last Hne) as (rest & a0 & Heq). rewrite Heq in *.
      apply Forall_app in Hall as [Hpre Hlast].
      inversion Hlast as [|? ? Hl0 _]. exists rest, a0.
      rewrite length_app in Hfull. simpl in Hfull. split_and!; auto. right. lia. }
  destruct Hsplit as (pre & lastA & -> & Hpre & Hlast & Hend).
  rewrite length_app in Hlen, Hnum. simpl in Hlen, Hnum.
  rewrite map_app, seq_app in Hnum. simpl in Hnum.
  apply app_inj_1 in Hnum as [Hnum1 Hnum2]; [|now rewrite length_map, length_seq].
  injection Hnum2 as Hnum2.
  exists pre, lastA. split_and!; auto. lia.
Qed.

Lemma last_attempt_bars maxAttempts (pre : list Attempt) lastA cells :
  allFailed pre -> length pre < maxAttempts ->
  success lastA = true \/ S (length pre) = maxAttempts ->
  failedBefore maxAttempts (length pre) cells ->
  attemptCells maxAttempts (length pre) (success lastA) cells
  = barCells maxAttempts (pre ++ [lastA]).
Proof.
  intros Hpre Hlt Hend Hinv.
  destruct (attemptCells_spec maxAttempts (length pre) (success lastA) cells Hlt Hinv)
    as (Hlen2 & Hlook2).
  apply list_eq. intros j. rewrite barCells_lookup.
  destruct (decide (j < maxAttempts)) as [Hj|Hj].
  - rewrite Hlook2 by exact Hj.
    destruct (decide (j < length pre)) as [Hjp|Hjp].
    + rewrite lookup_app_l by exact Hjp.
      destruct (lookup_lt_is_Some_2 pre j Hjp) as [a Ha]. rewrite Ha.
      rewrite (proj1 (Forall_lookup _ _) Hpre _ _ Ha). reflexivity.
    + destruct (decide (j = length pre)) as [->|Hne].
      * rewrite lookup_app_r by lia. rewrite Nat.sub_diag. reflexivity.
      * rewrite lookup_ge_None_2 by (rewrite length_app; simpl; lia).
        destruct Hend as [->|Hfull]; [reflexivity | lia].
  - apply lookup_ge_None_2. lia.
Qed.

(** The events of a finished attempt loop paint the bars of its attempts. *)
Lemma paint_attempts maxAttempts sp runIndex row model scenario
    (atts : list Attempt) ok final evs cells last fin :
  (scenario =? 3) || (scenario =? 4) = false ->
  runIndex < length (sc_runs sp) ->
  loopOutcome [] maxAttempts 1 atts ok final ->
  0 < maxAttempts ->
  map eventKey evs
  = concat (map (attemptEventKeys model scenario (S runIndex) None) atts) ->
  length cells = maxAttempts ->
  paintAll maxAttempts evs (flatRow sp runIndex row cells last fin)
  = flatRow sp runIndex row (barCells maxAttempts atts)
      (if ok then AsSuccess else AsFailed) (fin + 1).
Proof.
  intros Hseq Hlt Hout Hpos Hkeys Hcells.
  destruct (loopOutcome_last maxAttempts atts ok final Hout Hpos)
    as (pre & lastA & -> & Hpre & Hlast & Hend & Hplen & Hnum1 & Hnum2).
  rewrite map_app, concat_app in Hkeys. simpl in Hkeys.
  apply fmap_app_inv in Hkeys as (evs1 & evs2 & Hk1 & Hk2 & ->).
  symmetry in Hk1, Hk2.
  destruct (paint_failed_attempts maxAttempts sp runIndex row model scenario last fin
              Hseq Hlt pre 0 evs1 cells Hk1 Hnum1 Hpre) as (cells1 & Hpaint1 & Hinv1);
    [lia | split; [exact Hcells | intros; lia] |].
  simpl in Hinv1.
  destruct evs2 as [|p1 [|p2 [|? ?]]]; try discriminate.
  rewrite paintAll_app, Hpaint1.
  rewrite (paint_attempt maxAttempts sp runIndex row model scenario lastA p1 p2
             cells1 last fin (length pre) Hseq Hlt Hk2 Hnum2).
  rewrite last_attempt_bars; [|exact Hpre | exact Hplen | | exact Hinv1].
  - rewrite Hlast. destruct ok; cbn [orb]; [reflexivity|].
    destruct Hend as [?|Hfull]; [discriminate|].
    now rewrite (proj2 (Nat.eqb_eq _ _) Hfull).
  - rewrite Hlast. destruct Hend; auto.
Qed.

Lemma flatRow_id sp runIndex row cells :
  sc_runs sp !! runIndex = Some row -> rp_attempts row = Some cells ->
  flatRow sp runIndex row cells (rp_final row) 0 = sp.
Proof.
  intros Hrow Hcells. unfold flatRow, repainted.
  destruct sp as [? ? ? ? ? rows done ?], row as [? atts ? ?]. simpl in *. subst atts.
  rewrite list_insert_id by exact Hrow. f_equal. lia.
Qed.

Lemma repainted_repainted sp rows1 n1 rows2 n2 :
  repainted (repainted sp rows1 n1) rows2 n2 = repainted sp rows2 (n1 + n2).
Proof. unfold repainted. simpl. f_equal. lia. Qed.

(** Runs numbered from [n0 + 1], each of which repaints its own row of
    the table, repaint the rows from [n0] on. *)
Lemma paint_run_list maxAttempts (keysOf : Run -> list EventKey)
    (good : RunProgress -> Prop) (fits : Run -> Prop)
    (bars : RunProgress -> Run -> RunProgress) :
  (forall sp n0 row run evs,
     sc_runs sp !! n0 = Some row -> good row -> fits run -> runNumber run = S n0 ->
     map eventKey evs = keysOf run ->
     paintAll maxAttempts evs sp
     = repainted sp (<[n0 := bars row run]> (sc_runs sp)) 1) ->
  forall (runs : list Run) n0 evs sp,
    Forall fits runs ->
    map runNumber runs = seq (S n0) (length runs) ->
    n0 + length runs <= length (sc_runs sp) ->
    (forall j row, n0 <= j -> sc_runs sp !! j = Some row -> good row) ->
    map eventKey evs = concat (map keysOf runs) ->
    exists rows,
      paintAll maxAttempts evs sp = repainted sp rows (length runs)
      /\ length rows = length (sc_runs sp)
      /\ (forall j, j < n0 \/ n0 + length runs <= j -> rows !! j = sc_runs sp !! j)
      /\ (forall i run row,
            runs !! i = Some run -> sc_runs sp !! (n0 + i) = Some row ->
            rows !! (n0 + i) = Some (bars row run)).
Proof.
  intros Hone. induction runs as [|run rest IH];
    intros n0 evs sp Hout Hnum Hlen Hflat Hkeys.
  - destruct evs; [|discriminate]. exists (sc_runs sp). split_and!; try reflexivity.
    + unfold repainted. destruct sp. simpl. f_equal. lia.
    + intros i run row Hi. discriminate.
  - simpl in Hnum, Hlen, Hkeys. injection Hnum as Hn Hnum.
    inversion Hout as [|? ? Hrun Hout']; subst.
    apply fmap_app_inv in Hkeys as (evs1 & evs2 & Hk1 & Hk2 & ->).
    symmetry in Hk1, Hk2.
    destruct (lookup_lt_is_Some_2 (sc_runs sp) n0) as [row0 Hrow0]; [lia|].
    pose proof (Hone sp n0 row0 run evs1 Hrow0 (Hflat n0 row0 (Nat.le_refl _) Hrow0)
                  Hrun Hn Hk1) as Hpaint.
    set (sp1 := repainted sp (<[n0 := bars row0 run]> (sc_runs sp)) 1) in *.
    assert (Hruns1 : sc_runs sp1 = <[n0 := bars row0 run]> (sc_runs sp)) by reflexivity.
    destruct (IH (S n0) evs2 sp1 Hout' Hnum) as (rows & Hpaint2 & Hrlen & Hout2 & Hin2).
    + rewrite Hruns1, length_insert. lia.
    + intros j row Hj Hrow. rewrite Hruns1, list_lookup_insert_ne in Hrow by lia.
      apply (Hflat j row); [lia | exact Hrow].
    + exact Hk2.
    + exists rows. rewrite paintAll_app, Hpaint, Hpaint2. split_and!.
      * unfold sp1. rewrite repainted_repainted. reflexivity.
      * rewrite Hrlen, Hruns1. apply length_insert.
      * intros j Hj. rewrite Hout2 by (simpl in Hj; lia).
        rewrite Hruns1. apply list_lookup_insert_ne. simpl in Hj. lia.
      * intros [|i] run' row Hi Hrow.
        -- simpl in Hi. injection Hi as <-. rewrite Nat.add_0_r in *.
           rewrite Hout2 by lia. rewrite Hruns1.
           replace row with row0 by congruence.
           apply list_lookup_insert_eq. lia.
        -- simpl in Hi. replace (n0 + S i) with (S n0 + i) in * by lia.
           apply Hin2; [exact Hi|]. rewrite Hruns1.
           rewrite list_lookup_insert_ne by lia. exact Hrow.
Qed.

(** All the rows, when there is a run for each. *)
Lemma paint_all_rows maxAttempts (keysOf : Run -> list EventKey)
    (good : RunProgress -> Prop) (fits : Run -> Prop)
    (bars : RunProgress -> Run -> RunProgress) :
  (forall sp n0 row run evs,
     sc_runs sp !! n0 = Some row -> good row -> fits run -> runNumber run = S n0 ->
     map eventKey evs = keysOf run ->
     paintAll maxAttempts evs sp
     = repainted sp (<[n0 := bars row run]> (sc_runs sp)) 1) ->
  forall (runs : list Run) evs sp,
    Forall fits runs ->
    map runNumber runs = seq 1 (length runs) ->
    length runs = length (sc_runs sp) ->
    Forall good (sc_runs sp) ->
    map eventKey evs = concat (map keysOf runs) ->
    paintAll maxAttempts evs sp
    = repainted sp (zip_with bars (sc_runs sp) runs) (length runs).
Proof.
  intros Hone runs evs sp Hfits Hnum Hlen Hgood Hkeys.
  destruct (paint_run_list maxAttempts keysOf good fits bars Hone runs 0 evs sp
              Hfits Hnum) as (rows & Hpaint & Hrlen & _ & Hin); [lia | | exact Hkeys |].
  { intros j row _ Hrow. exact (proj1 (Forall_lookup _ _) Hgood _ _ Hrow). }
  rewrite Hpaint. f_equal.
  apply list_eq. intros j. rewrite lookup_zip_with.
  destruct (sc_runs sp !! j) as [row|] eqn:Hrow; simpl.
  - destruct (lookup_lt_is_Some_2 runs j) as [run Hr].
    { apply lookup_lt_Some in Hrow. lia. }
    rewrite Hr. simpl. exact (Hin j run row Hr Hrow).
  - apply lookup_ge_None_2. apply lookup_ge_None_1 in Hrow. lia.
Qed.

Lemma paint_one_shot_run maxAttempts model scenario sp n0 row (run : Run) evs :
  (scenario =? 3) || (scenario =? 4) = false ->
  0 < maxAttempts ->
  sc_runs sp !! n0 = Some row ->
  (exists cells, rp_attempts row = Some cells /\ length cells = maxAttempts) ->
  loopOutcome [] maxAttempts 1 (attempts run) (runSuccess run) (finalResponse run) ->
  runNumber run = S n0 ->
  map eventKey evs
  = concat (map (attemptEventKeys model scenario (runNumber run) None) (attempts run)) ->
  paintAll maxAttempts evs sp
  = repainted sp (<[n0 := barsOfRun maxAttempts row run]> (sc_runs sp)) 1.
Proof.
  intros Hseq Hpos Hrow (cells & Hcells & Hclen) Hout Hn Hkeys. rewrite Hn in Hkeys.
  pose proof (paint_attempts maxAttempts sp n0 row model scenario (attempts run)
                (runSuccess run) (finalResponse run) evs cells (rp_final row) 0
                Hseq (lookup_lt_Some _ _ _ Hrow) Hout Hpos Hkeys Hclen) as Hpaint.
  now rewrite (flatRow_id sp n0 row cells Hrow Hcells) in Hpaint.
Qed.

Lemma keys_of_new_events (w w' : World) keys :
  map eventKey (events w') = map eventKey (events w) ++ keys ->
  map eventKey (drop (length (events w)) (events w')) = keys.
Proof.
  intros H. change (map eventKey ?l) with (eventKey <$> l) in *.
  rewrite fmap_drop, H.
  rewrite <- (length_fmap eventKey (events w)). apply drop_app_length.
Qed.

Lemma oneShot_scenario_facts strict scenario model (config : Config) w runs w' :
  runLoop (oneShotRun strict scenario model config) (runsPerScenario config) 1 [] w
  = (Normal runs, w') ->
  Forall (fun run => loopOutcome [] (maxRetries config + 1) 1 (attempts run)
                       (runSuccess run) (finalResponse run)) runs
  /\ map runNumber runs = seq 1 (length runs)
  /\ length runs = runsPerScenario config
  /\ map eventKey (drop (length (events w)) (events w'))
     = concat (map (fun run =>
                      concat (map (attemptEventKeys model scenario (runNumber run) None)
                                (attempts run))) runs).
Proof.
  intros Hrun.
  pose proof (runLoop_spec _ _ (fun _ _ _ _ H => proj1 (oneShotRun_spec _ _ _ _ _ _ _ _ H))
                _ _ _ _ _ _ Hrun ltac:(constructor)) as (Hall & Hlen).
  pose proof Hrun as Hrep.
  eapply (runLoop_reported _ (reported model scenario false)) in Hrep;
    [|intros; eapply oneShotRun_reported; eassumption].
  destruct Hrep as (new & Hnew & _ & Hnum). simpl in Hnew. subst new.
  pose proof Hrun as Hev.
  eapply runLoop_events in Hev; [|intros; eapply oneShotRun_events; eassumption].
  destruct Hev as (new & Hnew & Hev). simpl in Hnew. subst new.
  simpl in Hlen. split_and!; [exact Hall | now rewrite Hlen | exact Hlen |].
  now apply keys_of_new_events.
Qed.

(** The rows of a finished one-shot scenario, for a retry budget that is
    a count. *)
Lemma one_shot_rows_painted :
  forall scenario model (config : Config) w runs w' st sp,
    scenario = 1 \/ scenario = 2 ->
    dispatchScenario scenario model config w = (Normal runs, w') ->
    rowOf (model_id model) scenario st = Some sp ->
    length (sc_runs sp) = runsPerScenario config ->
    Forall (fun row => exists cells,
                rp_attempts row = Some cells /\ length cells = maxRetries config + 1)
           (sc_runs sp) ->
    rowOf (model_id model) scenario
      (afterEvents (maxRetries config + 1) (drop (length (events w)) (events w')) st)
    = Some (repainted sp
              (zip_with (barsOfRun (maxRetries config + 1)) (sc_runs sp) runs)
              (runsPerScenario config)).
Proof.
  intros scenario model config w runs w' st sp Hscen Hrun Hsp Hrows Hflat.
  assert (Hfacts : exists strict,
            runLoop (oneShotRun strict scenario model config) (runsPerScenario config)
              1 [] w = (Normal runs, w')
            /\ (scenario =? 3) || (scenario =? 4) = false).
  { destruct Hscen as [-> | ->]; [exists false | exists true]; split;
      [exact Hrun | reflexivity | exact Hrun | reflexivity]. }
  destruct Hfacts as (strict & Hloop & Hseq).
  apply oneShot_scenario_facts in Hloop as (Hall & Hnum & Hlen & Hkeys).
  rewrite rowOf_afterEvents, Hsp.
  - simpl. f_equal. rewrite <- Hlen.
    apply (paint_all_rows (maxRetries config + 1)
             (fun run => concat (map (attemptEventKeys model scenario (runNumber run) None)
                                   (attempts run)))
             (fun row => exists cells,
                  rp_attempts row = Some cells /\ length cells = maxRetries config + 1)
             (fun run => loopOutcome [] (maxRetries config + 1) 1 (attempts run)
                           (runSuccess run) (finalResponse run))
             (barsOfRun (maxRetries config + 1)));
      [|exact Hall | exact Hnum | lia | exact Hflat | exact Hkeys].
    intros sp0 n0 row run evs Hrow Hgood Hfit Hn Hk.
    apply (paint_one_shot_run _ model scenario); auto. lia.
  - apply Forall_forall. intros p Hp.
    apply list_elem_of_In, (in_map eventKey) in Hp. rewrite Hkeys in Hp.
    apply in_concat in Hp as (ks & Hks & Hp).
    apply in_map_iff in Hks as (run & <- & _).
    apply in_concat in Hp as (ks & Hks & Hp).
    apply in_map_iff in Hks as (a & <- & _).
    unfold attemptEventKeys in Hp. simpl in Hp.
    destruct Hp as [Hp|[Hp|[]]]; apply (f_equal ek_modelId) in Hp as Hm;
      apply (f_equal ek_scenario) in Hp as Hs; simpl in Hm, Hs; auto.
Qed.

(** ** The runners under the configuration of a start request *)

Local Abbreviation RequestConfig := (Requested.RequestConfig Temperature).

Lemma attemptRounds_count (config : RequestConfig) :
  (0 <= Requested.rq_maxRetries config)%Z ->
  Requested.attemptRounds config = maxRetries (Requested.runnerConfig config) + 1.
Proof. intros Hm. unfold Requested.attemptRounds. simpl. lia. Qed.

Lemma attemptRounds_none (config : RequestConfig) :
  (Requested.rq_maxRetries config < 0)%Z -> Requested.attemptRounds config = 0.
Proof. intros Hm. unfold Requested.attemptRounds. lia. Qed.

(** With a [maxRetries] that is not negative the runners are those of a
    configuration whose [maxRetries] is a count. *)
Lemma requested_oneShotRun_count strict scenario model (config : RequestConfig) :
  (0 <= Requested.rq_maxRetries config)%Z ->
  Requested.oneShotRun strict scenario model config
  = oneShotRun strict scenario model (Requested.runnerConfig config).
Proof.
  intros Hm. unfold Requested.oneShotRun, oneShotRun.
  rewrite (attemptRounds_count config Hm). reflexivity.
Qed.

Lemma requested_sequentialRun_count strict scenario model (config : RequestConfig) :
  (0 <= Requested.rq_maxRetries config)%Z ->
  Requested.sequentialRun strict scenario model config
  = sequentialRun strict scenario model (Requested.runnerConfig config).
Proof.
  intros Hm.
  unfold Requested.sequentialRun, sequentialRun, Requested.sequentialTry, sequentialTry,
    Requested.sequentialPipeline, sequentialPipeline, Requested.runStep, runStep.
  rewrite (attemptRounds_count config Hm). reflexivity.
Qed.

Lemma requested_dispatchScenario_count scenario model (config : RequestConfig) :
  (0 <= Requested.rq_maxRetries config)%Z ->
  Requested.dispatchScenario scenario model config
  = dispatchScenario scenario model (Requested.runnerConfig config).
Proof.
  intros Hm.
  unfold Requested.dispatchScenario, dispatchScenario,
    Requested.runScenario1, runScenario1, Requested.runScenario2, runScenario2,
    Requested.runScenario3, runScenario3, Requested.runScenario4, runScenario4.
  rewrite !(requested_oneShotRun_count _ _ _ _ Hm).
  rewrite !(requested_sequentialRun_count _ _ _ _ Hm).
  reflexivity.
Qed.

(** A loop over runs that report nothing reports nothing. *)
Lemma runLoop_silent (oneRun : nat -> M Run) (P : Run -> Prop) :
  (forall runNum w run w',
     oneRun runNum w = (Normal run, w') -> events w' = events w /\ P run) ->
  forall fuel runNum acc w runs w',
    runLoop oneRun fuel runNum acc w = (Normal runs, w') ->
    Forall P acc ->
    events w' = events w /\ Forall P runs.
Proof.
  intros Hone. induction fuel as [|fuel IH]; intros runNum acc w runs w' Hrun Hacc.
  - simpl in Hrun. injection Hrun as <- <-. auto.
  - simpl in Hrun. unfold bind in Hrun.
    destruct (oneRun runNum w) as [[run|e] w1] eqn:Eone; [|discriminate].
    apply Hone in Eone as [Hev Hp]. apply IH in Hrun as [Hev' Hall].
    + split; [congruence | exact Hall].
    + apply Forall_app. split; [exact Hacc|]. constructor; [exact Hp | constructor].
Qed.

(** With a negative [maxRetries] no round of the attempt loop is run: the
    run makes no attempt, reports no progress and is recorded as failed. *)
Lemma requested_oneShotRun_no_round strict scenario model (config : RequestConfig)
    runNum w run w' :
  (Requested.rq_maxRetries config < 0)%Z ->
  Requested.oneShotRun strict scenario model config runNum w = (Normal run, w') ->
  events w' = events w /\ runSuccess run = false /\ attemptsOfRun run = [].
Proof.
  intros Hm. unfold Requested.oneShotRun. rewrite (attemptRounds_none config Hm).
  unfold bind, dateNow, onRunComplete, ret. simpl. intros [= <- <-]. auto.
Qed.

Lemma requested_sequentialRun_no_round strict scenario model (config : RequestConfig)
    runNum w run w' :
  (Requested.rq_maxRetries config < 0)%Z ->
  Requested.sequentialRun strict scenario model config runNum w = (Normal run, w') ->
  events w' = events w /\ runSuccess run = false /\ attemptsOfRun run = [].
Proof.
  intros Hm.
  unfold Requested.sequentialRun, Requested.sequentialTry, Requested.sequentialPipeline,
    Requested.runStep.
  rewrite (attemptRounds_none config Hm).
  unfold bind, dateNow, onRunComplete, ret, liftWorld, pushStep, modify, requireResult, throw.
  simpl. intros [= <- <-]. auto.
Qed.

(** X16. When a one-shot scenario has finished, its row of the live table
    shows what the bar chart of the results shows, provided the
    [maxRetries] of the request is a whole number that is not negative: fed
    the progress events of the scenario, the callback leaves in every run
    of the row the cell statuses that [RunProgressBars] draws for the
    run's attempts (failed or success for an attempt that was made, skipped
    for the rest), the final status success or failed as the run's success
    flag says, and the count of completed runs advanced by the number of
    runs.  With a negative [maxRetries] the runner makes no attempt and
    reports no progress: every run is recorded as failed, and the row is
    never repainted. *)
Theorem a_finished_one_shot_scenario_shows_the_bars_of_its_runs :
  forall scenario model (config : RequestConfig) w runs w' st sp,
    scenario = 1 \/ scenario = 2 ->
    Requested.dispatchScenario scenario model config w = (Normal runs, w') ->
    rowOf (model_id model) scenario st = Some sp ->
    length (sc_runs sp) = Requested.rq_runsPerScenario config ->
    ((0 <= Requested.rq_maxRetries config)%Z ->
     Forall (fun row => exists cells,
                 rp_attempts row = Some cells
                 /\ length cells = Requested.attemptRounds config)
            (sc_runs sp) ->
     rowOf (model_id model) scenario
       (afterEvents (Requested.attemptRounds config)
          (drop (length (events w)) (events w')) st)
     = Some (repainted sp
               (zip_with (barsOfRun (Requested.attemptRounds config)) (sc_runs sp) runs)
               (Requested.rq_runsPerScenario config)))
    /\ ((Requested.rq_maxRetries config < 0)%Z ->
        events w' = events w
        /\ length runs = Requested.rq_runsPerScenario config
        /\ Forall (fun run => runSuccess run = false /\ attemptsOfRun run = []) runs).
Proof.
  intros scenario model config w runs w' st sp Hscen Hrun Hsp Hrows. split.
  - intros Hm Hflat.
    rewrite (requested_dispatchScenario_count _ _ _ Hm) in Hrun.
    rewrite (attemptRounds_count config Hm) in *.
    exact (one_shot_rows_painted scenario model (Requested.runnerConfig config)
             w runs w' st sp Hscen Hrun Hsp Hrows Hflat).
  - intros Hm.
    assert (Hloop : exists strict,
              runLoop (Requested.oneShotRun strict scenario model config)
                (Requested.rq_runsPerScenario config) 1 [] w = (Normal runs, w')).
    { destruct Hscen as [-> | ->]; [exists false | exists true]; exact Hrun. }
    destruct Hloop as (strict & Hloop).
    pose proof (runLoop_spec _ (fun _ => True) (fun _ _ _ _ _ => I)
                  _ _ _ _ _ _ Hloop ltac:(constructor)) as (_ & Hlen).
    eapply (runLoop_silent _ (fun run => runSuccess run = false /\ attemptsOfRun run = []))
      in Hloop as (Hev & Hall); [| |constructor].
    + split_and!; [exact Hev | exact Hlen | exact Hall].
    + intros runNum w0 run w1 Hone.
      apply (requested_oneShotRun_no_round _ _ _ _ _ _ _ _ Hm) in Hone. tauto.
Qed.

(** ** The bars of a finished sequential scenario *)

Lemma stepsRow_id sp runIndex row steps :
  sc_runs sp !! runIndex = Some row -> rp_steps row = Some steps ->
  stepsRow sp runIndex row steps (rp_final row) 0 = sp.
Proof.
  intros Hrow Hsteps. unfold stepsRow, repainted.
  destruct sp as [? ? ? ? ? rows done ?], row as [? ? sts ?]. simpl in *. subst sts.
  rewrite list_insert_id by exact Hrow. f_equal. lia.
Qed.

Lemma paint_step maxAttempts p sp runIndex row steps0 step cells final fin k :
  tp_runNumber p = S runIndex ->
  (tp_scenario p =? 3) || (tp_scenario p =? 4) = true ->
  tp_stepNumber p = Some (S k) ->
  runIndex < length (sc_runs sp) ->
  k < length steps0 -> length steps0 = 3 ->
  fst (paint maxAttempts p
         (stepsRow sp runIndex row (<[k := withCells step cells]> steps0) final fin))
  = let attemptIndex := (Z.of_nat (tp_attemptNumber p) - 1)%Z in
    let steps1 :=
      <[k := withCells step (paintCells maxAttempts (tp_status p) attemptIndex cells)]>
        steps0 in
    match tp_status p with
    | StSuccess =>
        if k =? 2 then stepsRow sp runIndex row steps1 AsSuccess (fin + 1)
        else stepsRow sp runIndex row steps1 final fin
    | StFailed =>
        if (attemptIndex =? Z.of_nat maxAttempts - 1)%Z
        then stepsRow sp runIndex row (skipLater k steps1) AsFailed (fin + 1)
        else stepsRow sp runIndex row steps1 final fin
    | _ => stepsRow sp runIndex row steps1 final fin
    end.
Proof.
  intros Hrun Hseq Hstep Hlt Hk Hthree. unfold paint. rewrite Hrun, Hseq, Hstep.
  unfold stepsRow at 1, repainted at 1. cbn [sc_runs stepGiven].
  rewrite list_lookup_insert_eq by lia. cbn [rp_steps rp_attempts].
  replace (S k - 1) with k by lia.
  rewrite list_lookup_insert_eq by lia.
  cbv zeta. cbn [withCells sp_attempts sp_stepNumber sp_stepName].
  rewrite list_insert_insert_eq.
  repeat match goal with
    | |- context [withCells (withCells ?s ?c) ?x] =>
        change (withCells (withCells s c) x) with (withCells s x)
    end.
  destruct (tp_status p).
  - unfold withRuns, withSteps, stepsRow, repainted. cbn.
    rewrite list_insert_insert_eq. first [reflexivity | f_equal; lia].
  - destruct (k =? 2); unfold finish, withRuns, withSteps, stepsRow, repainted; cbn;
      rewrite list_insert_insert_eq; first [reflexivity | f_equal; lia].
  - destruct (_ =? _)%Z.
    + unfold skipLater.
      match goal with
      | |- context [skipLaterSteps ?ix ?ss] =>
          pose proof (skipLaterSteps_in_range ix ss) as Hnone;
          destruct (skipLaterSteps ix ss) as [steps'' [e|]]
      end; cbn [fst snd] in *.
      * exfalso. enough (Some e = None) by discriminate. apply Hnone.
        apply Forall_forall. intros i Hi. apply elem_of_seq in Hi.
        rewrite length_insert. lia.
      * unfold finish, withRuns, withSteps, stepsRow, repainted. cbn.
        rewrite list_insert_insert_eq. first [reflexivity | f_equal; lia].
    + unfold withRuns, withSteps, stepsRow, repainted. cbn.
      rewrite list_insert_insert_eq. first [reflexivity | f_equal; lia].
  - unfold withRuns, withSteps, stepsRow, repainted. cbn.
    rewrite list_insert_insert_eq. first [reflexivity | f_equal; lia].
Qed.

Lemma paint_step_attempt maxAttempts sp runIndex row model scenario (a : Attempt) p1 p2
    steps0 step cells final fin k i :
  (scenario =? 3) || (scenario =? 4) = true ->
  runIndex < length (sc_runs sp) ->
  k < length steps0 -> length steps0 = 3 ->
  map eventKey [p1; p2] = attemptEventKeys model scenario (S runIndex) (Some (S k)) a ->
  attemptNumber a = S i ->
  paintAll maxAttempts [p1; p2]
    (stepsRow sp runIndex row (<[k := withCells step cells]> steps0) final fin)
  = let steps1 :=
      <[k := withCells step (attemptCells maxAttempts i (success a) cells)]> steps0 in
    if success a
    then (if k =? 2 then stepsRow sp runIndex row steps1 AsSuccess (fin + 1)
          else stepsRow sp runIndex row steps1 final fin)
    else (if S i =? maxAttempts
          then stepsRow sp runIndex row (skipLater k steps1) AsFailed (fin + 1)
          else stepsRow sp runIndex row steps1 final fin).
Proof.
  intros Hseq Hlt Hk Hthree Hkeys Hnum.
  unfold attemptEventKeys in Hkeys.
  apply (keys_of_two p1 p2 [] _ _ []) in Hkeys as (Hk1 & Hk2 & _).
  apply eventKey_fields in Hk1, Hk2. simpl in Hk1, Hk2.
  destruct Hk1 as (_ & Hs1 & Hr1 & Hn1 & Ha1 & Hst1).
  destruct Hk2 as (_ & Hs2 & Hr2 & Hn2 & Ha2 & Hst2).
  unfold paintAll. cbn [foldl].
  rewrite (paint_step maxAttempts p1 sp runIndex row steps0 step cells final fin k)
    by (rewrite ?Hs1; auto).
  cbv zeta. rewrite Ha1, Hst1, Hnum.
  replace (Z.of_nat (S i) - 1)%Z with (Z.of_nat i) by lia.
  assert (Hreq : forall y,
            match (if S i =? 1 then StRunning else StRetrying) with
            | StSuccess =>
                if k =? 2
                then stepsRow sp runIndex row y AsSuccess (fin + 1)
                else stepsRow sp runIndex row y final fin
            | StFailed =>
                if (Z.of_nat i =? Z.of_nat maxAttempts - 1)%Z
                then stepsRow sp runIndex row (skipLater k y) AsFailed (fin + 1)
                else stepsRow sp runIndex row y final fin
            | _ => stepsRow sp runIndex row y final fin
            end = stepsRow sp runIndex row y final fin)
    by (intros y; destruct (S i =? 1); reflexivity).
  rewrite Hreq.
  rewrite (paint_step maxAttempts p2 sp runIndex row steps0 step _ final fin k)
    by (rewrite ?Hs2; auto).
  cbv zeta. rewrite Ha2, Hst2, Hnum.
  replace (Z.of_nat (S i) - 1)%Z with (Z.of_nat i) by lia.
  rewrite last_index. unfold attemptCells.
  destruct (success a); reflexivity.
Qed.

Lemma paint_step_failed_attempts maxAttempts sp runIndex row model scenario steps0 step
    final fin k :
  (scenario =? 3) || (scenario =? 4) = true ->
  runIndex < length (sc_runs sp) ->
  k < length steps0 -> length steps0 = 3 ->
  forall (pre : list Attempt) i evs cells,
    map eventKey evs
    = concat (map (attemptEventKeys model scenario (S runIndex) (Some (S k))) pre) ->
    map attemptNumber pre = seq (S i) (length pre) ->
    allFailed pre ->
    i + length pre < maxAttempts ->
    failedBefore maxAttempts i cells ->
    exists cells',
      paintAll maxAttempts evs
        (stepsRow sp runIndex row (<[k := withCells step cells]> steps0) final fin)
      = stepsRow sp runIndex row (<[k := withCells step cells']> steps0) final fin
      /\ failedBefore maxAttempts (i + length pre) cells'.
Proof.
  intros Hseq Hlt Hk Hthree.
  induction pre as [|a pre IH]; intros i evs cells Hkeys Hnum Hall Hi Hinv.
  - destruct evs; [|discriminate]. exists cells. split; [reflexivity|].
    simpl. now rewrite Nat.add_0_r.
  - simpl in Hkeys, Hnum, Hi. injection Hnum as Hnum Hrest.
    inversion Hall as [|? ? Hfail Hall']; subst.
    destruct evs as [|p1 [|p2 evs]]; try discriminate.
    unfold attemptEventKeys in Hkeys at 1.
    apply keys_of_two in Hkeys as (Hk1 & Hk2 & Hkeys).
    pose proof (paint_step_attempt maxAttempts sp runIndex row model scenario a p1 p2
                  steps0 step cells final fin k i Hseq Hlt Hk Hthree) as Hpaint.
    cbv zeta in Hpaint. rewrite Hfail in Hpaint.
    replace (S i =? maxAttempts) with false in Hpaint
      by (symmetry; apply Nat.eqb_neq; lia).
    destruct (IH (S i) evs (attemptCells maxAttempts i false cells) Hkeys Hrest Hall')
      as (cells' & Hpaint' & Hinv'); [lia | apply attemptCells_failed; [lia | exact Hinv] |].
    exists cells'. split.
    + change (p1 :: p2 :: evs) with ([p1; p2] ++ evs).
      rewrite paintAll_app, Hpaint; [exact Hpaint' | | exact Hnum].
      unfold attemptEventKeys. simpl. now rewrite Hk1, Hk2.
    + simpl. now replace (i + S (length pre)) with (S i + length pre) by lia.
Qed.

(** The events of a finished step paint the bars of its attempts; an
    exhausted step ends the run, and so does a third step that
    succeeded. *)
Lemma paint_step_attempts maxAttempts sp runIndex row model scenario
    (atts : list Attempt) ok res evs steps0 step cells final fin k :
  (scenario =? 3) || (scenario =? 4) = true ->
  runIndex < length (sc_runs sp) ->
  k < length steps0 -> length steps0 = 3 ->
  loopOutcome [] maxAttempts 1 atts ok res ->
  0 < maxAttempts ->
  map eventKey evs
  = concat (map (attemptEventKeys model scenario (S runIndex) (Some (S k))) atts) ->
  length cells = maxAttempts ->
  paintAll maxAttempts evs
    (stepsRow sp runIndex row (<[k := withCells step cells]> steps0) final fin)
  = let steps1 := <[k := withCells step (barCells maxAttempts atts)]> steps0 in
    if ok
    then (if k =? 2 then stepsRow sp runIndex row steps1 AsSuccess (fin + 1)
          else stepsRow sp runIndex row steps1 final fin)
    else stepsRow sp runIndex row (skipLater k steps1) AsFailed (fin + 1).
Proof.
  intros Hseq Hlt Hk Hthree Hout Hpos Hkeys Hcells.
  destruct (loopOutcome_last maxAttempts atts ok res Hout Hpos)
    as (pre & lastA & -> & Hpre & Hlast & Hend & Hplen & Hnum1 & Hnum2).
  rewrite map_app, concat_app in Hkeys. simpl in Hkeys.
  apply fmap_app_inv in Hkeys as (evs1 & evs2 & Hk1 & Hk2 & ->).
  symmetry in Hk1, Hk2.
  destruct (paint_step_failed_attempts maxAttempts sp runIndex row model scenario
              steps0 step final fin k Hseq Hlt Hk Hthree pre 0 evs1 cells Hk1 Hnum1 Hpre)
    as (cells1 & Hpaint1 & Hinv1); [lia | split; [exact Hcells | intros; lia] |].
  simpl in Hinv1.
  destruct evs2 as [|p1 [|p2 [|? ?]]]; try discriminate.
  rewrite paintAll_app, Hpaint1.
  rewrite (paint_step_attempt maxAttempts sp runIndex row model scenario lastA p1 p2
             steps0 step cells1 final fin k (length pre) Hseq Hlt Hk Hthree Hk2 Hnum2).
  cbv zeta.
  rewrite last_attempt_bars; [|exact Hpre | exact Hplen | | exact Hinv1].
  - rewrite Hlast. destruct ok; [reflexivity|].
    destruct Hend as [?|Hfull]; [discriminate|].
    now rewrite (proj2 (Nat.eqb_eq _ _) Hfull).
  - rewrite Hlast. destruct Hend; auto.
Qed.

Lemma paint_finished_step maxAttempts sp runIndex row model scenario
    (atts : list Attempt) ok res evs steps step final fin k :
  (scenario =? 3) || (scenario =? 4) = true ->
  runIndex < length (sc_runs sp) ->
  steps !! k = Some step -> length steps = 3 ->
  loopOutcome [] maxAttempts 1 atts ok res ->
  0 < maxAttempts ->
  map eventKey evs
  = concat (map (attemptEventKeys model scenario (S runIndex) (Some (S k))) atts) ->
  length (sp_attempts step) = maxAttempts ->
  paintAll maxAttempts evs (stepsRow sp runIndex row steps final fin)
  = let steps1 := <[k := withCells step (barCells maxAttempts atts)]> steps in
    if ok
    then (if k =? 2 then stepsRow sp runIndex row steps1 AsSuccess (fin + 1)
          else stepsRow sp runIndex row steps1 final fin)
    else stepsRow sp runIndex row (skipLater k steps1) AsFailed (fin + 1).
Proof.
  intros Hseq Hlt Hstep Hthree Hout Hpos Hkeys Hcells.
  rewrite <- (paint_step_attempts maxAttempts sp runIndex row model scenario atts ok res
                evs steps step (sp_attempts step) final fin k Hseq Hlt
                (lookup_lt_Some _ _ _ Hstep) Hthree Hout Hpos Hkeys Hcells).
  replace (withCells step (sp_attempts step)) with step by (now destruct step).
  now rewrite list_insert_id.
Qed.

(** What a sequential run that was not cut short has recorded: steps 1,
    2, ... in order, each a finished attempt loop, all successful but
    possibly the last one, and three of them when the last one
    succeeded. *)
Definition finishedSteps (maxAttempts : nat) (sts : list Step) : Prop :=
  match sts with
  | [s1] => stepSuccess s1 = false
  | [s1; s2] => stepSuccess s1 = true /\ stepSuccess s2 = false
  | [s1; s2; s3] => stepSuccess s1 = true /\ stepSuccess s2 = true
  | _ => False
  end
  /\ map stepNumber sts = seq 1 (length sts)
  /\ Forall (fun s => exists res,
                 loopOutcome [] maxAttempts 1 (stepAttempts s) (stepSuccess s) res) sts.

Lemma runStep_facts strict scenario model (config : Config) runNum k msgs w s res w' :
  runStep strict scenario model config runNum k msgs w = (Normal (s, res), w') ->
  (exists res', loopOutcome [] (maxRetries config + 1) 1 (stepAttempts s)
                  (stepSuccess s) res')
  /\ stepNumber s = stepNumberOf k
  /\ map eventKey (events w') = map eventKey (events w) ++ stepKeys model scenario runNum s
  /\ stepSuccess s = match res with Some _ => true | None => false end.
Proof.
  intros Hrun. pose proof (runStep_spec _ _ _ _ _ _ _ _ _ _ _ Hrun) as (Hout & Hnum & _).
  split_and!; [eauto | exact Hnum | |].
  - unfold stepKeys. rewrite Hnum. revert Hrun. unfold runStep, bind.
    destruct (stepAttemptLoop _ _ _ _ _ _ _ _ _ _ _) as [[[[atts ok] final]|e] w1] eqn:Eloop;
      [|discriminate].
    apply stepAttemptLoop_logs in Eloop.
    destruct Eloop as (new & Hnew & (_ & Hev & _) & _). simpl in Hnew. subst new.
    unfold ret. intros [= <- _ <-]. simpl. exact Hev.
  - destruct Hout as (new & _ & _ & _ & _ & [(Hok & pre & lastA & _ & _ & _ & _ & [? Hsome])
                                            |(Hok & Hnone & _)]).
    + now rewrite Hok, Hsome.
    + now rewrite Hok, Hnone.
Qed.

Lemma sequentialTry_finished strict scenario model (config : Config) runNum w
    sts ok final w' :
  sequentialTry strict scenario model config runNum w = (Normal (sts, ok, final), w') ->
  (forallb stepSuccess sts = true -> length sts = 3) ->
  finishedSteps (maxRetries config + 1) sts
  /\ map eventKey (events w')
     = map eventKey (events w) ++ concat (map (stepKeys model scenario runNum) sts).
Proof.
  unfold sequentialTry, sequentialPipeline, bind, liftWorld, pushStep, modify,
    requireResult, schemaParse, ret, throw. simpl.
  destruct (runStep _ _ _ _ _ Step1 _ _) as [[[s1 r1]|e1] w1] eqn:E1; simpl;
    [|intros [= <- _ _ _] Hshort; specialize (Hshort eq_refl); discriminate].
  apply runStep_facts in E1 as (Hd1 & Hn1 & He1 & Hs1).
  destruct r1 as [r1|]; simpl.
  2:{ intros [= <- _ _ <-] _. simpl. rewrite app_nil_r. split; [|exact He1].
      split_and!; [exact Hs1 | simpl; now rewrite Hn1 | repeat constructor; exact Hd1]. }
  destruct (runStep _ _ _ _ _ Step2 _ _) as [[[s2 r2]|e2] w2] eqn:E2; simpl;
    [|intros [= <- _ _ _] Hshort; simpl in Hshort; rewrite Hs1 in Hshort;
      specialize (Hshort eq_refl); discriminate].
  apply runStep_facts in E2 as (Hd2 & Hn2 & He2 & Hs2).
  destruct r2 as [r2|]; simpl.
  2:{ intros [= <- _ _ <-] _. simpl. rewrite app_nil_r, He2, He1, <- app_assoc.
      split; [|reflexivity].
      split_and!; [exact Hs1 | exact Hs2 | simpl; now rewrite Hn1, Hn2
                  | repeat constructor; assumption]. }
  destruct (runStep _ _ _ _ _ Step3 _ _) as [[[s3 r3]|e3] w3] eqn:E3; simpl;
    [|intros [= <- _ _ _] Hshort; simpl in Hshort; rewrite Hs1, Hs2 in Hshort;
      specialize (Hshort eq_refl); discriminate].
  apply runStep_facts in E3 as (Hd3 & Hn3 & He3 & Hs3).
  assert (Hthree : finishedSteps (maxRetries config + 1) [s1; s2; s3]
                   /\ map eventKey (events w3)
                      = map eventKey (events w)
                        ++ concat (map (stepKeys model scenario runNum) [s1; s2; s3])).
  { simpl. rewrite app_nil_r, He3, He2, He1, <- !app_assoc. split; [|reflexivity].
    split_and!; [exact Hs1 | exact Hs2 | simpl; now rewrite Hn1, Hn2, Hn3
                | repeat constructor; assumption]. }
  destruct r3 as [r3|]; simpl; [|intros [= <- _ _ <-] _; exact Hthree].
  destruct (ResponseSchema _); simpl; intros [= <- _ _ <-] _; exact Hthree.
Qed.

Lemma sequentialRun_finished strict scenario model (config : Config) runNum w run w' :
  sequentialRun strict scenario model config runNum w = (Normal run, w') ->
  notCutShort run ->
  runNumber run = runNum
  /\ (exists sts, steps run = Some sts /\ finishedSteps (maxRetries config + 1) sts)
  /\ map eventKey (events w')
     = map eventKey (events w) ++ sequentialKeys model scenario run.
Proof.
  unfold sequentialRun, bind, dateNow. simpl.
  destruct (sequentialTry _ _ _ _ _ _) as [[[[sts ok] final]|e] w1] eqn:Etry;
    [|discriminate].
  unfold onRunComplete, ret. simpl. intros [= <- <-] Hshort.
  unfold notCutShort in Hshort. simpl in Hshort.
  apply sequentialTry_finished in Etry as (Hfin & Hev); [|exact Hshort].
  simpl in Hev. unfold sequentialKeys. simpl. split_and!; [reflexivity | eauto | exact Hev].
Qed.

(** The events of a sequential run that was not cut short paint the bars
    of its steps in its row. *)
Lemma paint_sequential_run maxAttempts model scenario sp n0 row (run : Run) evs :
  (scenario =? 3) || (scenario =? 4) = true ->
  0 < maxAttempts ->
  sc_runs sp !! n0 = Some row ->
  (exists gridSteps,
     rp_steps row = Some gridSteps /\ length gridSteps = 3
     /\ Forall (fun g => length (sp_attempts g) = maxAttempts) gridSteps) ->
  (exists sts, steps run = Some sts /\ finishedSteps maxAttempts sts) ->
  runNumber run = S n0 ->
  map eventKey evs = sequentialKeys model scenario run ->
  paintAll maxAttempts evs sp
  = repainted sp (<[n0 := barsOfSequentialRun maxAttempts row run]> (sc_runs sp)) 1.
Proof.
  intros Hseq Hpos Hrow (gridSteps & Hgrid & Hthree & Hcells)
    (sts & Hsts & Hshape & Hnums & Hdone) Hn Hkeys.
  pose proof (lookup_lt_Some _ _ _ Hrow) as Hlt.
  unfold sequentialKeys in Hkeys. rewrite Hsts, Hn in Hkeys. simpl in Hkeys.
  unfold barsOfSequentialRun. rewrite Hsts, Hgrid. simpl.
  rewrite <- (stepsRow_id sp n0 row gridSteps Hrow Hgrid) at 1.
  destruct gridSteps as [|g0 [|g1 [|g2 [|]]]]; try discriminate.
  apply Forall_cons in Hcells as [Hl0 Hcells].
  apply Forall_cons in Hcells as [Hl1 Hcells].
  apply Forall_cons in Hcells as [Hl2 _].
  destruct sts as [|s1 [|s2 [|s3 [|]]]]; try (now elim Hshape).
  - (* step 1 exhausted *)
    simpl in Hkeys, Hnums. rewrite app_nil_r in Hkeys. injection Hnums as Hn1.
    unfold stepKeys in Hkeys. rewrite Hn1 in Hkeys.
    apply Forall_cons in Hdone as [[res1 Hd1] _].
    rewrite (paint_finished_step maxAttempts sp n0 row model scenario _ _ _ evs
               [g0; g1; g2] g0 _ _ 0 Hseq Hlt eq_refl eq_refl Hd1 Hpos Hkeys Hl0).
    cbn [forallb]. rewrite Hshape. reflexivity.
  - (* step 2 exhausted *)
    destruct Hshape as (Hs1 & Hs2).
    simpl in Hkeys, Hnums. rewrite app_nil_r in Hkeys. injection Hnums as Hn1 Hn2.
    apply fmap_app_inv in Hkeys as (evs1 & evs2 & Hk1 & Hk2 & ->).
    symmetry in Hk1, Hk2. unfold stepKeys in Hk1, Hk2. rewrite Hn1 in Hk1. rewrite Hn2 in Hk2.
    apply Forall_cons in Hdone as [[res1 Hd1] Hdone].
    apply Forall_cons in Hdone as [[res2 Hd2] _].
    rewrite paintAll_app.
    rewrite (paint_finished_step maxAttempts sp n0 row model scenario _ _ _ evs1
               [g0; g1; g2] g0 _ _ 0 Hseq Hlt eq_refl eq_refl Hd1 Hpos Hk1 Hl0).
    rewrite Hs1. cbv zeta. cbn [Nat.eqb].
    assert (Hg1 : (<[0 := withCells g0 (barCells maxAttempts (stepAttempts s1))]>
                     [g0; g1; g2]) !! 1 = Some g1) by reflexivity.
    rewrite (paint_finished_step maxAttempts sp n0 row model scenario _ _ _ evs2
               _ g1 _ _ 1 Hseq Hlt Hg1 eq_refl Hd2 Hpos Hk2 Hl1).
    cbn [forallb]. rewrite Hs1, Hs2. reflexivity.
  - (* three steps *)
    destruct Hshape as (Hs1 & Hs2).
    simpl in Hkeys, Hnums. rewrite app_nil_r in Hkeys. injection Hnums as Hn1 Hn2 Hn3.
    apply fmap_app_inv in Hkeys as (evs1 & evs23 & Hk1 & Hk23 & ->).
    symmetry in Hk1, Hk23.
    apply fmap_app_inv in Hk23 as (evs2 & evs3 & Hk2 & Hk3 & ->).
    symmetry in Hk2, Hk3.
    unfold stepKeys in Hk1, Hk2, Hk3.
    rewrite Hn1 in Hk1. rewrite Hn2 in Hk2. rewrite Hn3 in Hk3.
    apply Forall_cons in Hdone as [[res1 Hd1] Hdone].
    apply Forall_cons in Hdone as [[res2 Hd2] Hdone].
    apply Forall_cons in Hdone as [[res3 Hd3] _].
    rewrite !paintAll_app.
    rewrite (paint_finished_step maxAttempts sp n0 row model scenario _ _ _ evs1
               [g0; g1; g2] g0 _ _ 0 Hseq Hlt eq_refl eq_refl Hd1 Hpos Hk1 Hl0).
    rewrite Hs1. cbv zeta. cbn [Nat.eqb].
    assert (Hg1 : (<[0 := withCells g0 (barCells maxAttempts (stepAttempts s1))]>
                     [g0; g1; g2]) !! 1 = Some g1) by reflexivity.
    rewrite (paint_finished_step maxAttempts sp n0 row model scenario _ _ _ evs2
               _ g1 _ _ 1 Hseq Hlt Hg1 eq_refl Hd2 Hpos Hk2 Hl1).
    rewrite Hs2. cbv zeta. cbn [Nat.eqb].
    assert (Hg2 : (<[1 := withCells g1 (barCells maxAttempts (stepAttempts s2))]>
                     (<[0 := withCells g0 (barCells maxAttempts (stepAttempts s1))]>
                        [g0; g1; g2])) !! 2 = Some g2) by reflexivity.
    rewrite (paint_finished_step maxAttempts sp n0 row model scenario _ _ _ evs3
               _ g2 _ _ 2 Hseq Hlt Hg2 eq_refl Hd3 Hpos Hk3 Hl2).
    cbn [forallb]. rewrite Hs1, Hs2. destruct (stepSuccess s3); reflexivity.
Qed.

Lemma runLoop_events_if (oneRun : nat -> M Run) (keys : Run -> list EventKey)
    (P : Run -> Prop) :
  (forall runNum w run w',
     oneRun runNum w = (Normal run, w') -> P run ->
     map eventKey (events w') = map eventKey (events w) ++ keys run) ->
  forall fuel runNum acc w runs w',
    runLoop oneRun fuel runNum acc w = (Normal runs, w') ->
    exists new,
      runs = acc ++ new
      /\ (Forall P new ->
          map eventKey (events w') = map eventKey (events w) ++ concat (map keys new)).
Proof.
  intros Hone. induction fuel as [|fuel IH]; intros runNum acc w runs w' Hrun.
  - simpl in Hrun. injection Hrun as <- <-. exists []. simpl. now rewrite !app_nil_r.
  - simpl in Hrun. unfold bind in Hrun.
    destruct (oneRun runNum w) as [[run|e] w1] eqn:Eone; [|discriminate].
    apply IH in Hrun. destruct Hrun as (new & -> & Hev).
    exists (run :: new). rewrite <- app_assoc. split; [reflexivity|].
    intros Hall. inversion Hall as [|? ? Hp Hall']; subst.
    rewrite (Hev Hall'), (Hone _ _ _ _ Eone Hp). simpl. now rewrite <- app_assoc.
Qed.

Lemma runStep_strict_returns scenario model (config : Config) runNum k msgs w :
  exists s res w', runStep true scenario model config runNum k msgs w = (Normal (s, res), w').
Proof.
  unfold runStep, bind.
  destruct (stepAttemptLoop_strict_returns scenario model config runNum k
              (maxRetries config + 1) 1 msgs [] w) as ([[atts ok] final] & w1 & ->).
  unfold ret. eauto.
Qed.

(** In strict mode no step throws, so no run is cut short. *)
Lemma strict_run_notCutShort scenario model (config : Config) runNum w run w' :
  sequentialRun true scenario model config runNum w = (Normal run, w') ->
  notCutShort run.
Proof.
  unfold sequentialRun, bind, dateNow. simpl.
  destruct (sequentialTry _ _ _ _ _ _) as [[[[sts ok] final]|e] w1] eqn:Etry;
    [|discriminate].
  unfold onRunComplete, ret. simpl. intros [= <- _].
  unfold notCutShort. simpl. revert Etry.
  unfold sequentialTry, sequentialPipeline, bind, liftWorld, pushStep, modify,
    requireResult, schemaParse, ret, throw. simpl.
  match goal with
  | |- context [runStep true ?sc ?m ?c ?rn Step1 ?ms ?w0] =>
      destruct (runStep_strict_returns sc m c rn Step1 ms w0) as (s1 & r1 & w2 & E1)
  end.
  rewrite E1. apply runStep_facts in E1 as (_ & _ & _ & Hs1). simpl.
  destruct r1 as [r1|]; simpl;
    [|intros [= <- _ _ _]; simpl; rewrite Hs1; discriminate].
  match goal with
  | |- context [runStep true ?sc ?m ?c ?rn Step2 ?ms ?w0] =>
      destruct (runStep_strict_returns sc m c rn Step2 ms w0) as (s2 & r2 & w3 & E2)
  end.
  rewrite E2. apply runStep_facts in E2 as (_ & _ & _ & Hs2). simpl.
  destruct r2 as [r2|]; simpl;
    [|intros [= <- _ _ _]; simpl; rewrite Hs1, Hs2; discriminate].
  match goal with
  | |- context [runStep true ?sc ?m ?c ?rn Step3 ?ms ?w0] =>
      destruct (runStep_strict_returns sc m c rn Step3 ms w0) as (s3 & r3 & w4 & E3)
  end.
  rewrite E3. simpl.
  destruct r3 as [r3|]; simpl; [|intros [= <- _ _ _]; reflexivity].
  destruct (ResponseSchema _); simpl; intros [= <- _ _ _]; reflexivity.
Qed.

Lemma sequentialKeys_for model scenario (run : Run) key :
  In key (sequentialKeys model scenario run) ->
  ek_modelId key = model_id model /\ ek_scenario key = scenario.
Proof.
  intros Hp. unfold sequentialKeys, stepKeys in Hp.
  apply in_concat in Hp as (ks & Hks & Hp).
  apply in_map_iff in Hks as (s & <- & _).
  apply in_concat in Hp as (ks & Hks & Hp).
  apply in_map_iff in Hks as (a & <- & _).
  unfold attemptEventKeys in Hp. simpl in Hp.
  destruct Hp as [<-|[<-|[]]]; simpl; auto.
Qed.

Lemma sequential_scenario_facts strict scenario model (config : Config) w runs w' :
  runLoop (sequentialRun strict scenario model config) (runsPerScenario config) 1 [] w
  = (Normal runs, w') ->
  Forall notCutShort runs ->
  Forall (fun run => exists sts,
              steps run = Some sts /\ finishedSteps (maxRetries config + 1) sts) runs
  /\ map runNumber runs = seq 1 (length runs)
  /\ length runs = runsPerScenario config
  /\ map eventKey (drop (length (events w)) (events w'))
     = concat (map (sequentialKeys model scenario) runs).
Proof.
  intros Hrun Hshort.
  pose proof (runLoop_spec _
                (fun run => notCutShort run ->
                            exists sts, steps run = Some sts
                                        /\ finishedSteps (maxRetries config + 1) sts)
                (fun _ _ _ _ H Hs => proj1 (proj2 (sequentialRun_finished _ _ _ _ _ _ _ _ H Hs)))
                _ _ _ _ _ _ Hrun ltac:(constructor)) as (Hall & Hlen).
  pose proof Hrun as Hrep.
  eapply (runLoop_reported _ (reported model scenario true)) in Hrep;
    [|intros; eapply sequentialRun_reported; eassumption].
  destruct Hrep as (new & Hnew & _ & Hnum). simpl in Hnew. subst new.
  pose proof Hrun as Hev.
  eapply (runLoop_events_if _ (sequentialKeys model scenario) notCutShort) in Hev;
    [|intros ? ? ? ? H Hs; exact (proj2 (proj2 (sequentialRun_finished _ _ _ _ _ _ _ _ H Hs)))].
  destruct Hev as (new & Hnew & Hev). simpl in Hnew. subst new.
  simpl in Hlen. split_and!; [| now rewrite Hlen | exact Hlen |].
  - apply Forall_forall. intros run Hin.
    exact (proj1 (Forall_forall _ _) Hall run Hin (proj1 (Forall_forall _ _) Hshort run Hin)).
  - apply keys_of_new_events, Hev, Hshort.
Qed.

(** ** Runs that a thrown error cut short *)

(** What the attempt loop of a step has reported when it is left, however
    it is left: events of its run; when it is left by a success or by a
    thrown error, every failure reported was followed by another round. *)
Lemma stepAttemptLoop_block strict scenario model (config : Config) runNum k :
  forall fuel attempt stepMessages acc w c w',
    stepAttemptLoop strict scenario model config runNum k fuel attempt stepMessages acc w
    = (c, w') ->
    exists block,
      events w' = events w ++ block
      /\ Forall (fromRun (model_id model) scenario runNum) block
      /\ match c with
         | Normal (_, false, _) => True
         | Normal (_, true, _) =>
             Forall (fun p => match tp_status p with
                              | StSuccess => tp_stepNumber p = Some (stepNumberOf k)
                              | StFailed => S (tp_attemptNumber p) < attempt + fuel
                              | _ => True
                              end) block
         | Thrown _ =>
             Forall (fun p => match tp_status p with
                              | StSuccess => False
                              | StFailed => S (tp_attemptNumber p) < attempt + fuel
                              | _ => True
                              end) block
         end.
Proof.
  induction fuel as [|fuel IH]; intros attempt stepMessages acc w c w' Hrun.
  - simpl in Hrun. injection Hrun as <- <-. exists []. rewrite app_nil_r.
    split_and!; [reflexivity | constructor | exact I].
  - simpl in Hrun. unfold bind, dateNow, onProgress in Hrun. simpl in Hrun.
    destruct (attemptIn _ _ _ _ _ _) as [[r|e] w1] eqn:Eatt.
    + pose proof (attemptIn_quiet _ _ _ _ _ _ _ _ Eatt) as (He1 & _ & _).
      simpl in He1.
      destruct (ao_success r) eqn:Hok.
      * unfold ret in Hrun. injection Hrun as <- <-. eexists [_; _]. simpl.
        rewrite He1, <- app_assoc. split_and!; [reflexivity | |].
        -- repeat constructor.
        -- constructor; [simpl; destruct (attempt =? 1); exact I|].
           constructor; [|constructor]. simpl. now rewrite Hok.
      * pose proof Hrun as Hrest. apply IH in Hrest as (block & Hev & Hown & Hshape).
        eexists (_ :: _ :: block). rewrite Hev. simpl. rewrite He1, <- !app_assoc. simpl.
        split_and!; [reflexivity | repeat constructor; exact Hown |].
        assert (Hmore : (exists atts fin, c = Normal (atts, false, fin)) \/ 0 < fuel).
        { destruct fuel; [left | right; lia].
          simpl in Hrun. injection Hrun as <- _. eauto. }
        destruct c as [[[atts ok] fin]|e]; [destruct ok|]; try exact I.
        -- destruct Hmore as [(? & ? & [=])|Hmore].
           constructor; [simpl; destruct (attempt =? 1); exact I|].
           constructor; [simpl; rewrite Hok; lia|].
           eapply Forall_impl; [exact Hshape|]. simpl. intros p.
           destruct (tp_status p); auto. lia.
        -- destruct Hmore as [(? & ? & [=])|Hmore].
           constructor; [simpl; destruct (attempt =? 1); exact I|].
           constructor; [simpl; rewrite Hok; lia|].
           eapply Forall_impl; [exact Hshape|]. simpl. intros p.
           destruct (tp_status p); auto. lia.
    + injection Hrun as <- <-.
      pose proof (attemptIn_quiet _ _ _ _ _ _ _ _ Eatt) as (He1 & _ & _).
      simpl in He1. eexists [_]. rewrite He1. split_and!; [reflexivity | |].
      * repeat constructor.
      * constructor; [simpl; destruct (attempt =? 1); exact I | constructor].
Qed.

(** A step that was left by a thrown error, or the first or second step
    when it succeeded, has ended no run. *)
Lemma runStep_block strict scenario model (config : Config) runNum k msgs w c w' :
  runStep strict scenario model config runNum k msgs w = (c, w') ->
  exists block,
    events w' = events w ++ block
    /\ Forall (fromRun (model_id model) scenario runNum) block
    /\ match c with
       | Normal (s, _) =>
           stepSuccess s = true -> k <> Step3 ->
           Forall (endsNoRun (maxRetries config + 1)) block
       | Thrown _ => Forall (endsNoRun (maxRetries config + 1)) block
       end.
Proof.
  unfold runStep, bind.
  destruct (stepAttemptLoop _ _ _ _ _ _ _ _ _ _ _) as [[[[atts ok] final]|e] w1] eqn:Eloop;
    apply stepAttemptLoop_block in Eloop as (block & Hev & Hown & Hshape).
  - unfold ret. intros [= <- <-]. exists block. split_and!; [exact Hev | exact Hown |].
    simpl. intros Hok Hk. subst ok.
    eapply Forall_impl; [exact Hshape|]. simpl. intros p. unfold endsNoRun.
    destruct (tp_status p); auto.
    + intros ->. destruct k; [discriminate | discriminate | now elim Hk].
    + lia.
  - intros [= <- <-]. exists block. split_and!; [exact Hev | exact Hown |].
    eapply Forall_impl; [exact Hshape|]. simpl. intros p. unfold endsNoRun.
    destruct (tp_status p); try tauto; lia.
Qed.

(** The events of the [try] block are events of its run, and when a thrown
    error has cut it short they have ended no run. *)
Lemma sequentialTry_block strict scenario model (config : Config) runNum w
    sts ok final w' :
  sequentialTry strict scenario model config runNum w = (Normal (sts, ok, final), w') ->
  exists block,
    events w' = events w ++ block
    /\ Forall (fromRun (model_id model) scenario runNum) block
    /\ (forallb stepSuccess sts = true -> length sts <> 3 ->
        Forall (endsNoRun (maxRetries config + 1)) block).
Proof.
  unfold sequentialTry, sequentialPipeline, bind, liftWorld, pushStep, modify,
    requireResult, schemaParse, ret, throw. simpl.
  destruct (runStep _ _ _ _ _ Step1 _ _) as [[[s1 r1]|e1] w1] eqn:E1; simpl.
  2:{ apply runStep_block in E1 as (b1 & Hev1 & Hown1 & Hends1).
      intros [= <- _ _ <-]. exists b1. auto. }
  pose proof (runStep_facts _ _ _ _ _ _ _ _ _ _ _ E1) as (_ & _ & _ & Hs1).
  apply runStep_block in E1 as (b1 & Hev1 & Hown1 & Hends1).
  destruct r1 as [r1|]; simpl.
  2:{ intros [= <- _ _ <-]. exists b1. split_and!; [exact Hev1 | exact Hown1 |].
      simpl. rewrite Hs1. discriminate. }
  specialize (Hends1 Hs1 ltac:(discriminate)).
  destruct (runStep _ _ _ _ _ Step2 _ _) as [[[s2 r2]|e2] w2] eqn:E2; simpl.
  2:{ apply runStep_block in E2 as (b2 & Hev2 & Hown2 & Hends2).
      intros [= <- _ _ <-]. exists (b1 ++ b2). rewrite Hev2, Hev1, <- app_assoc.
      split_and!; [reflexivity | now apply Forall_app | intros _ _; now apply Forall_app]. }
  pose proof (runStep_facts _ _ _ _ _ _ _ _ _ _ _ E2) as (_ & _ & _ & Hs2).
  apply runStep_block in E2 as (b2 & Hev2 & Hown2 & Hends2).
  destruct r2 as [r2|]; simpl.
  2:{ intros [= <- _ _ <-]. exists (b1 ++ b2). rewrite Hev2, Hev1, <- app_assoc.
      split_and!; [reflexivity | now apply Forall_app |].
      simpl. rewrite Hs1, Hs2. discriminate. }
  specialize (Hends2 Hs2 ltac:(discriminate)).
  destruct (runStep _ _ _ _ _ Step3 _ _) as [[[s3 r3]|e3] w3] eqn:E3; simpl.
  2:{ apply runStep_block in E3 as (b3 & Hev3 & Hown3 & Hends3).
      intros [= <- _ _ <-]. exists (b1 ++ b2 ++ b3).
      rewrite Hev3, Hev2, Hev1, <- !app_assoc.
      split_and!; [reflexivity | now rewrite !Forall_app
                  | intros _ _; now rewrite !Forall_app]. }
  apply runStep_block in E3 as (b3 & Hev3 & Hown3 & _).
  assert (Hthree : exists block,
            events w3 = events w ++ block
            /\ Forall (fromRun (model_id model) scenario runNum) block
            /\ (forallb stepSuccess [s1; s2; s3] = true -> length [s1; s2; s3] <> 3 ->
                Forall (endsNoRun (maxRetries config + 1)) block)).
  { exists (b1 ++ b2 ++ b3). rewrite Hev3, Hev2, Hev1, <- !app_assoc.
    split_and!; [reflexivity | now rewrite !Forall_app |].
    intros _ Hlen. now elim Hlen. }
  destruct r3 as [r3|]; simpl; [|intros [= <- _ _ <-]; exact Hthree].
  destruct (ResponseSchema _); simpl; intros [= <- _ _ <-]; exact Hthree.
Qed.

(** The events of a sequential run, whatever its end. *)
Definition runBlock (maxAttempts : nat) (model : ModelConfig) (scenario : nat)
    (run : Run) (block : list TestProgress) : Prop :=
  Forall (fromRun (model_id model) scenario (runNumber run)) block
  /\ (notCutShort run ->
      (exists sts, steps run = Some sts /\ finishedSteps maxAttempts sts)
      /\ map eventKey block = sequentialKeys model scenario run)
  /\ (~ notCutShort run -> Forall (endsNoRun maxAttempts) block).

Lemma sequentialRun_block strict scenario model (config : Config) runNum w run w' :
  sequentialRun strict scenario model config runNum w = (Normal run, w') ->
  exists block,
    events w' = events w ++ block
    /\ runBlock (maxRetries config + 1) model scenario run block.
Proof.
  intros Hrun.
  pose proof (fun Hs => sequentialRun_finished _ _ _ _ _ _ _ _ Hrun Hs) as Hfin.
  revert Hrun Hfin. unfold sequentialRun, bind, dateNow. simpl.
  destruct (sequentialTry _ _ _ _ _ _) as [[[[sts ok] final]|e] w1] eqn:Etry;
    [|discriminate].
  unfold onRunComplete, ret. simpl. intros [= <- <-] Hfin.
  apply sequentialTry_block in Etry as (block & Hev & Hown & Hends). simpl in Hev.
  exists block. split; [exact Hev|]. split_and!.
  - exact Hown.
  - intros Hs. destruct (Hfin Hs) as (_ & Hsteps & Hkeys). split; [exact Hsteps|].
    simpl in Hkeys. rewrite Hev, map_app in Hkeys.
    now apply app_inv_head in Hkeys.
  - intros Hcut. unfold notCutShort in Hcut. simpl in Hcut.
    destruct (forallb stepSuccess sts) eqn:Hall; [|elim Hcut; discriminate].
    apply Hends; [reflexivity|]. intros Hlen. elim Hcut. auto.
Qed.

(** The events of a loop over runs, run by run. *)
Lemma runLoop_blocks (oneRun : nat -> M Run) (R : Run -> list TestProgress -> Prop) :
  (forall runNum w run w',
     oneRun runNum w = (Normal run, w') ->
     exists block, events w' = events w ++ block /\ R run block) ->
  forall fuel runNum acc w runs w',
    runLoop oneRun fuel runNum acc w = (Normal runs, w') ->
    exists new blocks,
      runs = acc ++ new
      /\ events w' = events w ++ concat blocks
      /\ Forall2 R new blocks.
Proof.
  intros Hone. induction fuel as [|fuel IH]; intros runNum acc w runs w' Hrun.
  - simpl in Hrun. injection Hrun as <- <-. exists [], []. simpl.
    rewrite !app_nil_r. split_and!; [reflexivity | reflexivity | constructor].
  - simpl in Hrun. unfold bind in Hrun.
    destruct (oneRun runNum w) as [[run|e] w1] eqn:Eone; [|discriminate].
    apply Hone in Eone as (block & Hev1 & Hr).
    apply IH in Hrun as (new & blocks & -> & Hev & Hall).
    exists (run :: new), (block :: blocks). rewrite <- app_assoc. simpl.
    rewrite Hev, Hev1, <- app_assoc.
    split_and!; [reflexivity | reflexivity | now constructor].
Qed.

(** *** What the events of one run do to the row *)

Lemma sameRow_refl sp : sameRow sp sp.
Proof. unfold sameRow. tauto. Qed.

Lemma sameRow_trans sp1 sp2 sp3 : sameRow sp1 sp2 -> sameRow sp2 sp3 -> sameRow sp1 sp3.
Proof.
  unfold sameRow. intros (? & ? & ? & ? & ? & ? & ?) (? & ? & ? & ? & ? & ? & ?).
  split_and!; congruence.
Qed.

Lemma paintAll_one_run maxAttempts n0 : forall block sp,
  Forall (fun p => tp_runNumber p = S n0) block ->
  sameRow sp (paintAll maxAttempts block sp)
  /\ forall j, j <> n0 ->
       sc_runs (paintAll maxAttempts block sp) !! j = sc_runs sp !! j.
Proof.
  unfold paintAll. induction block as [|p block IH]; intros sp Hown; simpl.
  - split; [apply sameRow_refl | reflexivity].
  - apply Forall_cons in Hown as [Hp Hown].
    destruct (IH (fst (paint maxAttempts p sp)) Hown) as (Hsame & Hother). split.
    + eapply sameRow_trans; [apply paint_sameRow | exact Hsame].
    + intros j Hj. rewrite (Hother j Hj). apply paint_other_runs. lia.
Qed.

(** An event that ends no run leaves the final status of its run and the
    count of completed runs as they are. *)
Lemma paint_endsNoRun maxAttempts p sp n0 row :
  (tp_scenario p =? 3) || (tp_scenario p =? 4) = true ->
  tp_runNumber p = S n0 ->
  sc_runs sp !! n0 = Some row ->
  is_Some (rp_steps row) ->
  endsNoRun maxAttempts p ->
  sc_completedRuns (fst (paint maxAttempts p sp)) = sc_completedRuns sp
  /\ exists row',
       sc_runs (fst (paint maxAttempts p sp)) !! n0 = Some row'
       /\ is_Some (rp_steps row')
       /\ rp_final row' = rp_final row.
Proof.
  intros Hseq Hn Hrow [steps Hsteps] Hends.
  pose proof (lookup_lt_Some _ _ _ Hrow) as Hlt.
  unfold paint. rewrite Hn, Hrow, Hseq, Hsteps.
  destruct (steps !! _) as [step|]; [|simpl; eauto].
  unfold endsNoRun in Hends.
  destruct (tp_status p) eqn:Hst; simpl.
  - split; [reflexivity|]. rewrite list_lookup_insert_eq by exact Hlt. eauto.
  - destruct (_ =? 2) eqn:Hthird.
    + exfalso. apply Hends. apply Nat.eqb_eq in Hthird.
      destruct (tp_stepNumber p) as [[|n]|]; simpl in Hthird; try discriminate.
      f_equal. lia.
    + simpl. split; [reflexivity|]. rewrite list_lookup_insert_eq by exact Hlt. eauto.
  - destruct (_ =? _)%Z eqn:Hlast; [exfalso; apply Hends; lia|].
    simpl. split; [reflexivity|]. rewrite list_lookup_insert_eq by exact Hlt. eauto.
  - split; [reflexivity|]. rewrite list_lookup_insert_eq by exact Hlt. eauto.
Qed.

Lemma paintAll_endsNoRun maxAttempts scenario n0 : forall block sp row,
  (scenario =? 3) || (scenario =? 4) = true ->
  Forall (fun p => tp_scenario p = scenario /\ tp_runNumber p = S n0) block ->
  Forall (endsNoRun maxAttempts) block ->
  sc_runs sp !! n0 = Some row ->
  is_Some (rp_steps row) ->
  sc_completedRuns (paintAll maxAttempts block sp) = sc_completedRuns sp
  /\ exists row',
       sc_runs (paintAll maxAttempts block sp) !! n0 = Some row'
       /\ rp_final row' = rp_final row.
Proof.
  unfold paintAll. induction block as [|p block IH]; intros sp row Hseq Hown Hends Hrow Hsteps;
    simpl; [eauto|].
  apply Forall_cons in Hown as [[Hsc Hn] Hown].
  apply Forall_cons in Hends as [Hp Hends].
  destruct (paint_endsNoRun maxAttempts p sp n0 row) as (Hdone & row1 & Hrow1 & Hst1 & Hfin1);
    auto; [now rewrite Hsc|].
  destruct (IH _ row1 Hseq Hown Hends Hrow1 Hst1) as (Hdone2 & row2 & Hrow2 & Hfin2).
  split; [congruence|]. exists row2. split; [exact Hrow2 | congruence].
Qed.

(** The rows after the events of runs numbered from [n0 + 1]: the row of
    a run that ran to its end shows its bars, the row of a run that was cut
    short keeps its final status, and the runs that ran to their end are
    the ones counted as completed. *)
Lemma paint_blocks maxAttempts model scenario :
  (scenario =? 3) || (scenario =? 4) = true ->
  0 < maxAttempts ->
  forall (runs : list Run) blocks n0 sp,
    Forall2 (runBlock maxAttempts model scenario) runs blocks ->
    map runNumber runs = seq (S n0) (length runs) ->
    n0 + length runs <= length (sc_runs sp) ->
    (forall j row, n0 <= j -> sc_runs sp !! j = Some row ->
       exists gridSteps,
         rp_steps row = Some gridSteps /\ length gridSteps = 3
         /\ Forall (fun g => length (sp_attempts g) = maxAttempts) gridSteps) ->
    let sp' := paintAll maxAttempts (concat blocks) sp in
    sameRow sp sp'
    /\ (forall j, j < n0 -> sc_runs sp' !! j = sc_runs sp !! j)
    /\ (forall i run row,
          runs !! i = Some run -> sc_runs sp !! (n0 + i) = Some row ->
          exists row',
            sc_runs sp' !! (n0 + i) = Some row'
            /\ (notCutShort run -> row' = barsOfSequentialRun maxAttempts row run)
            /\ (~ notCutShort run -> rp_final row' = rp_final row))
    /\ sc_completedRuns sp' = sc_completedRuns sp + length (filter notCutShort runs).
Proof.
  intros Hseq Hpos. induction runs as [|run rest IH];
    intros blocks n0 sp Hall Hnum Hlen Hgrid; inversion Hall as [|? block ? blocks' Hr Hall'];
    subst; simpl.
  - split_and!; [apply sameRow_refl | reflexivity | | lia].
    intros i run row Hi. discriminate.
  - simpl in Hnum, Hlen. injection Hnum as Hn Hnum.
    destruct Hr as (Hown & Hfit & Hcut).
    destruct (lookup_lt_is_Some_2 (sc_runs sp) n0) as [row0 Hrow0]; [lia|].
    destruct (Hgrid n0 row0 (Nat.le_refl _) Hrow0) as (grid0 & Hgrid0 & Hthree0 & Hcells0).
    rewrite paintAll_app.
    set (sp1 := paintAll maxAttempts block sp).
    assert (Hone : Forall (fun p => tp_runNumber p = S n0) block).
    { eapply Forall_impl; [exact Hown|]. intros p (_ & _ & Hp). congruence. }
    destruct (paintAll_one_run maxAttempts n0 block sp Hone) as (Hsame1 & Hother1).
    fold sp1 in Hsame1, Hother1.
    assert (Hhere : sc_completedRuns sp1
                    = sc_completedRuns sp + (if decide (notCutShort run) then 1 else 0)
                    /\ exists row1,
                         sc_runs sp1 !! n0 = Some row1
                         /\ (notCutShort run ->
                             row1 = barsOfSequentialRun maxAttempts row0 run)
                         /\ (~ notCutShort run -> rp_final row1 = rp_final row0)).
    { destruct (decide (notCutShort run)) as [Hs|Hs].
      - destruct (Hfit Hs) as (Hsteps & Hkeys).
        assert (Hpaint : sp1 = repainted sp
                                 (<[n0 := barsOfSequentialRun maxAttempts row0 run]>
                                    (sc_runs sp)) 1).
        { apply (paint_sequential_run _ model scenario); eauto. }
        rewrite Hpaint. simpl. split; [reflexivity|].
        eexists. split; [apply list_lookup_insert_eq; lia|]. split; [auto | tauto].
      - assert (Hmine : Forall (fun p => tp_scenario p = scenario /\ tp_runNumber p = S n0)
                                block).
        { eapply Forall_impl; [exact Hown|]. intros p (_ & Hsc & Hp). split; congruence. }
        assert (Hsome : is_Some (rp_steps row0)) by (rewrite Hgrid0; eauto).
        destruct (paintAll_endsNoRun maxAttempts scenario n0 block sp row0 Hseq Hmine
                    (Hcut Hs) Hrow0 Hsome) as (Hdone & row1 & Hrow1 & Hfin1).
        fold sp1 in Hdone, Hrow1. split; [lia|].
        exists row1. split; [exact Hrow1|]. split; [tauto | auto]. }
    destruct Hhere as (Hdone1 & row1 & Hrow1 & Hbars1 & Hfinal1).
    destruct (IH blocks' (S n0) sp1 Hall' Hnum) as (Hsame2 & Hbefore2 & Hin2 & Hdone2).
    + destruct Hsame1 as (_ & _ & _ & _ & _ & _ & Hl). lia.
    + intros j row Hj Hrow. rewrite Hother1 in Hrow by lia.
      apply (Hgrid j row); [lia | exact Hrow].
    + split_and!.
      * eapply sameRow_trans; [exact Hsame1 | exact Hsame2].
      * intros j Hj. rewrite Hbefore2 by lia. apply Hother1. lia.
      * intros [|i] run' row Hi Hrow.
        -- simpl in Hi. injection Hi as <-. rewrite Nat.add_0_r in *.
           replace row with row0 by congruence.
           exists row1. rewrite Hbefore2 by lia. auto.
        -- simpl in Hi. replace (n0 + S i) with (S n0 + i) in * by lia.
           apply Hin2; [exact Hi|]. rewrite Hother1 by lia. exact Hrow.
      * rewrite Hdone2, Hdone1. rewrite filter_cons.
        destruct (decide (notCutShort run)); simpl; lia.
Qed.

(** The rows of a finished sequential scenario none of whose runs was cut
    short, for a retry budget that is a count. *)
Lemma sequential_rows_painted :
  forall strict scenario model (config : Config) w runs w' st sp,
    (scenario =? 3) || (scenario =? 4) = true ->
    runLoop (sequentialRun strict scenario model config) (runsPerScenario config) 1 [] w
    = (Normal runs, w') ->
    Forall notCutShort runs ->
    rowOf (model_id model) scenario st = Some sp ->
    length (sc_runs sp) = runsPerScenario config ->
    Forall (fun row => exists gridSteps,
                rp_steps row = Some gridSteps /\ length gridSteps = 3
                /\ Forall (fun g => length (sp_attempts g) = maxRetries config + 1)
                          gridSteps)
           (sc_runs sp) ->
    rowOf (model_id model) scenario
      (afterEvents (maxRetries config + 1) (drop (length (events w)) (events w')) st)
    = Some (repainted sp
              (zip_with (barsOfSequentialRun (maxRetries config + 1)) (sc_runs sp) runs)
              (runsPerScenario config)).
Proof.
  intros strict scenario model config w runs w' st sp Hseq Hloop Hall Hsp Hrows Hgrid.
  apply sequential_scenario_facts in Hloop as (Hfin & Hnum & Hlen & Hkeys);
    [|exact Hall].
  rewrite rowOf_afterEvents, Hsp.
  - simpl. f_equal. rewrite <- Hlen.
    apply (paint_all_rows (maxRetries config + 1) (sequentialKeys model scenario)
             (fun row => exists gridSteps,
                  rp_steps row = Some gridSteps /\ length gridSteps = 3
                  /\ Forall (fun g => length (sp_attempts g) = maxRetries config + 1)
                            gridSteps)
             (fun run => exists sts,
                  steps run = Some sts /\ finishedSteps (maxRetries config + 1) sts)
             (barsOfSequentialRun (maxRetries config + 1)));
      [|exact Hfin | exact Hnum | lia | exact Hgrid | exact Hkeys].
    intros sp0 n0 row run evs Hrow Hgood Hfit Hn Hk.
    apply (paint_sequential_run _ model scenario); auto. lia.
  - apply Forall_forall. intros p Hp.
    apply list_elem_of_In, (in_map eventKey) in Hp. rewrite Hkeys in Hp.
    apply in_concat in Hp as (ks & Hks & Hp).
    apply in_map_iff in Hks as (run & <- & _).
    apply sequentialKeys_for in Hp. exact Hp.
Qed.

(** X17. When a sequential scenario has finished, its row of the live
    table shows what the bar chart of the results shows for every run that
    no thrown error cut short, provided the [maxRetries] of the request is
    a whole number that is not negative: the cells of each recorded step
    of such a run are the statuses that [RunProgressBars] draws for the
    step's attempts, the cells of a step that was not reached are skipped,
    and the final status is success when its three steps succeeded,
    whatever the validation of the merged object says, and failed
    otherwise.  A run that a thrown error cut short keeps the final status
    it had, and the count of completed runs has advanced by the number of
    the other runs.  In strict mode no run is cut short.  With a negative
    [maxRetries] the runner makes no attempt and reports no progress:
    every run is recorded as failed, and the row is never repainted. *)
Theorem a_finished_sequential_scenario_shows_the_bars_of_its_steps :
  forall scenario model (config : RequestConfig) w runs w' st sp,
    scenario = 3 \/ scenario = 4 ->
    Requested.dispatchScenario scenario model config w = (Normal runs, w') ->
    rowOf (model_id model) scenario st = Some sp ->
    length (sc_runs sp) = Requested.rq_runsPerScenario config ->
    ((0 <= Requested.rq_maxRetries config)%Z ->
     Forall (fun row => exists gridSteps,
                 rp_steps row = Some gridSteps /\ length gridSteps = 3
                 /\ Forall (fun g => length (sp_attempts g)
                                     = Requested.attemptRounds config) gridSteps)
            (sc_runs sp) ->
     exists sp',
       rowOf (model_id model) scenario
         (afterEvents (Requested.attemptRounds config)
            (drop (length (events w)) (events w')) st)
       = Some sp'
       /\ sameRow sp sp'
       /\ (forall i run row,
             runs !! i = Some run -> sc_runs sp !! i = Some row ->
             exists row',
               sc_runs sp' !! i = Some row'
               /\ (notCutShort run ->
                   row' = barsOfSequentialRun (Requested.attemptRounds config) row run)
               /\ (~ notCutShort run -> rp_final row' = rp_final row))
       /\ sc_completedRuns sp' = sc_completedRuns sp + length (filter notCutShort runs)
       /\ (scenario = 4 -> Forall notCutShort runs)
       /\ (Forall notCutShort runs ->
           sp' = repainted sp
                   (zip_with (barsOfSequentialRun (Requested.attemptRounds config))
                      (sc_runs sp) runs)
                   (Requested.rq_runsPerScenario config)))
    /\ ((Requested.rq_maxRetries config < 0)%Z ->
        events w' = events w
        /\ length runs = Requested.rq_runsPerScenario config
        /\ Forall (fun run => runSuccess run = false /\ attemptsOfRun run = []) runs).
Proof.
  intros scenario model config w runs w' st sp Hscen Hrun Hsp Hrows. split.
  - intros Hm Hgrid.
    rewrite (requested_dispatchScenario_count _ _ _ Hm) in Hrun.
    rewrite (attemptRounds_count config Hm) in *.
    set (nat_config := Requested.runnerConfig config) in *.
    change (Requested.rq_runsPerScenario config) with (runsPerScenario nat_config) in *.
    clearbody nat_config.
    assert (Hfacts : exists strict,
              runLoop (sequentialRun strict scenario model nat_config)
                (runsPerScenario nat_config) 1 [] w = (Normal runs, w')
              /\ (scenario =? 3) || (scenario =? 4) = true
              /\ (scenario = 4 -> strict = true)).
    { destruct Hscen as [-> | ->]; [exists false | exists true]; split_and!;
        try exact Hrun; try reflexivity. discriminate. }
    destruct Hfacts as (strict & Hloop & Hseq & Hstrict).
    pose proof (runLoop_spec _ (fun _ => True) (fun _ _ _ _ _ => I)
                  _ _ _ _ _ _ Hloop ltac:(constructor)) as (_ & Hlen). simpl in Hlen.
    pose proof Hloop as Hrep.
    eapply (runLoop_reported _ (reported model scenario true)) in Hrep;
      [|intros; eapply sequentialRun_reported; eassumption].
    destruct Hrep as (new & Hnew & _ & Hnum). simpl in Hnew. subst new.
    pose proof Hloop as Hblocks.
    eapply (runLoop_blocks _ (runBlock (maxRetries nat_config + 1) model scenario))
      in Hblocks; [|intros; eapply sequentialRun_block; eassumption].
    destruct Hblocks as (new & blocks & Hnew & Hev & Hall). simpl in Hnew. subst new.
    assert (Hdrop : drop (length (events w)) (events w') = concat blocks).
    { rewrite Hev. apply drop_app_length. }
    assert (Hmine : Forall (fun p => tp_modelId p = model_id model
                                     /\ tp_scenario p = scenario) (concat blocks)).
    { apply Forall_concat. clear -Hall.
      induction Hall as [|run block ? ? (Hown & _) _ IH]; constructor; [|exact IH].
      eapply Forall_impl; [exact Hown|]. intros p (? & ? & _). auto. }
    rewrite Hdrop, (rowOf_afterEvents _ _ _ _ _ Hmine), Hsp. simpl.
    destruct (paint_blocks (maxRetries nat_config + 1) model scenario Hseq ltac:(lia)
                runs blocks 0 sp Hall) as (Hsame & _ & Hin & Hdone).
    { rewrite Hnum, Hlen. reflexivity. }
    { simpl. lia. }
    { intros j row _ Hrow. exact (proj1 (Forall_lookup _ _) Hgrid _ _ Hrow). }
    eexists. split; [reflexivity|]. split_and!.
    + exact Hsame.
    + intros i run row. apply (Hin i run row).
    + exact Hdone.
    + intros H4. specialize (Hstrict H4). subst strict.
      eapply (runLoop_spec _ notCutShort) in Hloop; [apply Hloop | | constructor].
      intros runNum w0 run w1. apply strict_run_notCutShort.
    + intros Hshort.
      pose proof (sequential_rows_painted strict scenario model nat_config w runs w' st sp
                    Hseq Hloop Hshort Hsp Hrows Hgrid) as Hwhole.
      rewrite Hdrop, (rowOf_afterEvents _ _ _ _ _ Hmine), Hsp in Hwhole. simpl in Hwhole.
      now injection Hwhole.
  - intros Hm.
    assert (Hloop : exists strict,
              runLoop (Requested.sequentialRun strict scenario model config)
                (Requested.rq_runsPerScenario config) 1 [] w = (Normal runs, w')).
    { destruct Hscen as [-> | ->]; [exists false | exists true]; exact Hrun. }
    destruct Hloop as (strict & Hloop).
    pose proof (runLoop_spec _ (fun _ => True) (fun _ _ _ _ _ => I)
                  _ _ _ _ _ _ Hloop ltac:(constructor)) as (_ & Hlen).
    eapply (runLoop_silent _ (fun run => runSuccess run = false /\ attemptsOfRun run = []))
      in Hloop as (Hev & Hall); [| |constructor].
    + split_and!; [exact Hev | exact Hlen | exact Hall].
    + intros runNum w0 run w1 Hone.
      apply (requested_sequentialRun_no_round _ _ _ _ _ _ _ _ Hm) in Hone. tauto.
Qed.

(** X18. The live table and the recorded result disagree on a run whose
    merged object fails validation: the run is recorded as failed, with its
    three successful steps, but the "success" event of the third step has
    made the table count the run as completed with the final status
    success, and that is what the table shows when the run has ended. *)
Theorem a_run_failed_by_the_merge_is_shown_as_a_success :
  forall strict scenario model (config : Config) runIndex w run w' st sp row s1 s2 s3,
    scenario = 3 \/ scenario = 4 ->
    sequentialRun strict scenario model config (S runIndex) w = (Normal run, w') ->
    runSuccess run = false ->
    steps run = Some [s1; s2; s3] ->
    stepSuccess s3 = true ->
    rowOf (model_id model) scenario st = Some sp ->
    sc_runs sp !! runIndex = Some row ->
    (exists gridSteps,
       rp_steps row = Some gridSteps /\ length gridSteps = 3
       /\ Forall (fun g => length (sp_attempts g) = maxRetries config + 1) gridSteps) ->
    exists sp' row',
      rowOf (model_id model) scenario
        (afterEvents (maxRetries config + 1) (drop (length (events w)) (events w')) st)
      = Some sp'
      /\ sc_runs sp' !! runIndex = Some row'
      /\ rp_final row' = AsSuccess
      /\ sc_completedRuns sp' = sc_completedRuns sp + 1.
Proof.
  intros strict scenario model config runIndex w run w' st sp row s1 s2 s3
    Hscen Hrun Hfail Hsteps Hs3 Hsp Hrow Hgrid.
  assert (Hseq : (scenario =? 3) || (scenario =? 4) = true)
    by (destruct Hscen as [-> | ->]; reflexivity).
  assert (Hshort : notCutShort run).
  { unfold notCutShort. rewrite Hsteps. reflexivity. }
  destruct (sequentialRun_finished _ _ _ _ _ _ _ _ Hrun Hshort)
    as (Hn & (sts & Hsts & Hfin) & Hev).
  apply keys_of_new_events in Hev.
  assert (Hshape : stepSuccess s1 = true /\ stepSuccess s2 = true).
  { rewrite Hsteps in Hsts. injection Hsts as <-. exact (proj1 Hfin). }
  exists (repainted sp
            (<[runIndex := barsOfSequentialRun (maxRetries config + 1) row run]>
               (sc_runs sp)) 1),
    (barsOfSequentialRun (maxRetries config + 1) row run).
  split_and!.
  - rewrite rowOf_afterEvents, Hsp.
    + simpl. f_equal. apply (paint_sequential_run _ model scenario); eauto. lia.
    + apply Forall_forall. intros p Hp.
      apply list_elem_of_In, (in_map eventKey) in Hp. rewrite Hev in Hp.
      apply sequentialKeys_for in Hp. exact Hp.
  - simpl. apply list_lookup_insert_eq. eapply lookup_lt_Some, Hrow.
  - unfold barsOfSequentialRun. rewrite Hsteps. simpl.
    destruct Hshape as [-> ->]. now rewrite Hs3.
  - reflexivity.
Qed.

End Bars.

(** ** The table of the start handler and the runner *)



Section StartTable.
Context `{env : Environment}.


End StartTable.

End LiveFacts.

(** * The model at concrete inputs *)

Module Examples.
Import Demo.

Definition errorWith (message : string) : JsError := newError message.

Definition thrownObject (status : option Z) (repr : string) : JsError :=
  {| err_class := NotAnError; err_message := repr; err_status := status;
     err_text := None; err_issues := [] |}.

Example rate_limit_signals :
  isRateLimitError (errorWith "HTTP 429") = true
  /\ isRateLimitError (errorWith "Rate Limit exceeded for model") = true
  /\ isRateLimitError (errorWith "Too Many Requests") = true
  /\ isRateLimitError (thrownObject (Some 429%Z) "[object Object]") = true
  /\ isRateLimitError (errorWith "connect ECONNREFUSED") = false
  /\ isRateLimitError (thrownObject (Some 500%Z) "[object Object]") = false
  /\ isRateLimitError (thrownObject None "429") = false.
Proof. vm_compute. repeat split. Qed.

(** Five answers 429: four retries, then the error is thrown. *)
Example backoff_gives_up_after_four_retries :
  let env := environment (fun _ => Thrown tooManyRequests)
                         (fun _ => Thrown tooManyRequests) rejectBad in
  let out := @withExponentialBackoff env _
               (@callGenerateText env (@generateArgs env groqModel [] (config 3 1)))
               BACKOFF_MAX_RETRIES (@initialWorld env) in
  fst out = Thrown tooManyRequests
  /\ slept (snd out) = [5000; 10000; 20000; 40000]%Z
  /\ calls (snd out) = 5.
Proof. vm_compute. repeat split. Qed.

(** Offline, scenario 1 is left by the thrown error; scenario 2 records
    failed attempts; scenario 3 records a failed run without steps. *)
Example offline_scenarios :
  fst (@runScenario1 offline gpt4o (config 1 1) (@initialWorld offline))
  = Thrown networkError
  /\ match fst (@runScenario2 offline gpt4o (config 1 1) (@initialWorld offline)) with
     | Normal runs =>
         map (fun run => (runSuccess run, map success (attempts run))) runs
         = [(false, [false; false])]
     | Thrown _ => False
     end
  /\ match fst (@runScenario3 offline gpt4o (config 1 1) (@initialWorld offline)) with
     | Normal runs => map (fun run => (runSuccess run, steps run)) runs = [(false, Some [])]
     | Thrown _ => False
     end.
Proof. vm_compute. repeat split. Qed.

End Examples.

(** * The properties at concrete inputs *)

Module Witnesses.
Import Demo.

Definition limitedCall : @M rateLimitedTwice TextResult :=
  @callGenerateText rateLimitedTwice
    (@generateArgs rateLimitedTwice groqModel [] (config 3 1)).

(** Two answers 429, then a result: two sleeps, of 5 and of 10 seconds. *)
Lemma withExponentialBackoff_policy_witness :
  exists result w',
    @withExponentialBackoff rateLimitedTwice _ limitedCall BACKOFF_MAX_RETRIES
      (@initialWorld rateLimitedTwice) = (Normal result, w')
    /\ slept w' = [5000; 10000]%Z
    /\ calls w' = 3.
Proof.
  pose proof (proj1 (proj2 (@withExponentialBackoff_policy rateLimitedTwice)) _
                limitedCall BACKOFF_MAX_RETRIES 2 (@initialWorld rateLimitedTwice)) as H.
  destruct H as [Heq Hslept].
  - unfold BACKOFF_MAX_RETRIES. lia.
  - intros i Hi. exists tooManyRequests.
    destruct i as [|[|i]];
      [split; vm_compute; reflexivity | split; vm_compute; reflexivity | lia].
  - right. intros e He. vm_compute in He. discriminate.
  - eexists _, _. rewrite Heq.
    split; [vm_compute; reflexivity|]. split; vm_compute; reflexivity.
Defined.

(** Offline, a non-strict attempt throws the network error. *)
Lemma runNonStrictAttempt_lets_transport_error_escape_witness :
  @runNonStrictAttempt offline groqModel [] rejectBad (config 3 1) (@initialWorld offline)
  = (Thrown networkError, @nextCall offline (@initialWorld offline)).
Proof.
  apply (@runNonStrictAttempt_lets_transport_error_escape offline).
  - reflexivity.
  - vm_compute. reflexivity.
Defined.

(** A Zod failure in non-strict mode, a transport failure in strict mode. *)
Lemma attempt_errors_agree_with_success_witness :
  (exists r w',
     @runNonStrictAttempt alwaysBad groqModel [] rejectBad (config 3 1)
       (@initialWorld alwaysBad) = (Normal r, w')
     /\ @errorsAgree alwaysBad r /\ ao_success r = false)
  /\ (exists r w',
        @runStrictAttempt alwaysBad gpt4o [] rejectBad (config 3 1)
          (@initialWorld alwaysBad) = (Normal r, w')
        /\ @errorsAgree alwaysBad r).
Proof.
  destruct (@attempt_errors_agree_with_success alwaysBad) as (Hnon & Hstrict & _).
  split.
  - eexists _, _. split; [vm_compute; reflexivity|]. split; [|reflexivity].
    eapply (Hnon groqModel [] rejectBad (config 3 1) (@initialWorld alwaysBad));
      [|vm_compute; reflexivity].
    intros value issues. unfold rejectBad.
    destruct (JsString.includes "bad" value); intros [= <-]. discriminate.
  - destruct (Hstrict gpt4o [] rejectBad (config 3 1) (@initialWorld alwaysBad))
      as (r & w' & Hrun & Hagree & _).
    + intros n args e. vm_compute. intros [= <-]. discriminate.
    + eauto.
Defined.

(** The three steps answer and the merged object is rejected. *)
Lemma merge_failure_fails_the_run_not_the_steps_witness :
  exists s1 s2 s3 wk,
    @recordedAsFailed mergeFails false 3 groqModel (config 0 1) 1
      (@initialWorld mergeFails) wk [s1; s2; s3]
    /\ stepSuccess s1 = true /\ stepSuccess s2 = true /\ stepSuccess s3 = true.
Proof.
  eexists _, _, _, _.
  pose proof (@merge_failure_fails_the_run_not_the_steps mergeFails false 3 groqModel
                (config 0 1) 1 (@initialWorld mergeFails)) as H.
  edestruct H as (H1 & H2 & H3 & H4 & _);
    [ vm_compute; reflexivity | vm_compute; reflexivity
    | vm_compute; reflexivity | vm_compute; reflexivity | ].
  split_and!; eassumption.
Defined.

(** A run that ends at step 1, at step 2 and at step 3. *)
Lemma exhausted_step_ends_the_run_witness :
  (exists s1 wk,
     @recordedAsFailed alwaysBad false 3 groqModel (config 1 1) 1
       (@initialWorld alwaysBad) wk [s1]
     /\ length (stepAttempts s1) = 2)
  /\ (exists s1 s2 wk,
        @recordedAsFailed secondStepFails true 4 gpt4o (config 1 1) 1
          (@initialWorld secondStepFails) wk [s1; s2]
        /\ length (stepAttempts s2) = 2)
  /\ (exists s1 s2 s3 wk,
        @recordedAsFailed thirdStepFails false 3 groqModel (config 2 1) 1
          (@initialWorld thirdStepFails) wk [s1; s2; s3]
        /\ length (stepAttempts s3) = 3).
Proof.
  split_and!.
  - destruct (@exhausted_step_ends_the_run alwaysBad false 3 groqModel (config 1 1) 1
                (@initialWorld alwaysBad)) as (H & _ & _).
    eexists _, _.
    edestruct H as (Hlen & _ & Hrec);
      [vm_compute; reflexivity | repeat constructor | ].
    split; [exact Hrec | exact Hlen].
  - destruct (@exhausted_step_ends_the_run secondStepFails true 4 gpt4o (config 1 1) 1
                (@initialWorld secondStepFails)) as (_ & H & _).
    eexists _, _, _.
    edestruct H as (Hlen & _ & Hrec);
      [vm_compute; reflexivity | vm_compute; reflexivity | repeat constructor | ].
    split; [exact Hrec | exact Hlen].
  - destruct (@exhausted_step_ends_the_run thirdStepFails false 3 groqModel (config 2 1) 1
                (@initialWorld thirdStepFails)) as (_ & _ & H).
    eexists _, _, _, _.
    edestruct H as (Hlen & _ & Hrec);
      [ vm_compute; reflexivity | vm_compute; reflexivity | vm_compute; reflexivity
      | repeat constructor | ].
    split; [exact Hrec | exact Hlen].
Defined.

(** Scenario 1 with a first answer that is invalid and a second that is
    valid, run twice. *)
Lemma attempt_loops_bounded_and_stop_at_success_witness :
  exists runs w',
    @runScenario1 secondTry groqModel (config 3 2) (@initialWorld secondTry)
    = (Normal runs, w')
    /\ length runs = 2
    /\ Forall (@flatRunWellFormed secondTry (config 3 2)) runs.
Proof.
  destruct (@attempt_loops_bounded_and_stop_at_success secondTry groqModel (config 3 2)
              (@initialWorld secondTry)) as (H1 & _).
  eexists _, _. split; [vm_compute; reflexivity|].
  eapply H1. vm_compute. reflexivity.
Defined.

(** The four scenarios asked of a model without strict mode. *)
Lemma strict_scenarios_are_skipped_witness :
  exists results w',
    @runModelTests alwaysValid "groq-kimi-k2" [1; 2; 3; 4] (config 0 1)
      (@initialWorld alwaysValid) = (Normal results, w')
    /\ results !! "2" = None
    /\ results !! "4" = None
    /\ is_Some (results !! "1")
    /\ is_Some (results !! "3").
Proof.
  destruct (@runModelTests alwaysValid "groq-kimi-k2" [1; 2; 3; 4] (config 0 1)
              (@initialWorld alwaysValid)) as [[results|e] w'] eqn:Hrun;
    [|vm_compute in Hrun; discriminate].
  exists results, w'. split; [reflexivity|].
  destruct (@strict_scenarios_are_skipped alwaysValid "groq-kimi-k2" groqModel
              [1; 2; 3; 4] (config 0 1) (@initialWorld alwaysValid) results w')
    as (H2 & H4 & Hsome).
  - vm_compute. reflexivity.
  - reflexivity.
  - exact Hrun.
  - split_and!; [exact H2 | exact H4 | |].
    + apply (Hsome 1); [|now left]. repeat constructor.
    + apply (Hsome 3); [|now right]. repeat constructor.
Defined.

(** Scenario 4 with a second step that fails in the network. *)
Lemma errorMessage_is_always_null_witness :
  exists runs w',
    @runScenario4 secondStepFails gpt4o (config 1 1) (@initialWorld secondStepFails)
    = (Normal runs, w')
    /\ Forall (@noErrorMessage secondStepFails) runs.
Proof.
  destruct (@errorMessage_is_always_null secondStepFails) as (_ & H).
  eexists _, _. split; [vm_compute; reflexivity|].
  eapply (H gpt4o (config 1 1) (@initialWorld secondStepFails)).
  right. right. right. vm_compute. reflexivity.
Defined.

End Witnesses.

(** * The further properties at concrete inputs *)

Module MoreWitnesses.
Import Demo Live LiveFacts LiveDemo.

(** Scenario 1, two runs, the first answer of all invalid. *)
Lemma returned_runs_are_the_reported_runs_witness :
  exists runs w',
    @dispatchScenario secondTry 1 groqModel (config 3 2) (@initialWorld secondTry)
    = (Normal runs, w')
    /\ completed w' = map (@reported secondTry groqModel 1 false) runs
    /\ map runNumber runs = [1; 2].
Proof.
  destruct (@dispatchScenario secondTry 1 groqModel (config 3 2) (@initialWorld secondTry))
    as [[runs|e] w'] eqn:Hrun; [|vm_compute in Hrun; discriminate].
  exists runs, w'. split; [reflexivity|].
  exact (@returned_runs_are_the_reported_runs secondTry 1 groqModel (config 3 2)
           (@initialWorld secondTry) runs w' Hrun).
Defined.

(** The same scenario: two events for each of its three attempts. *)
Lemma every_attempt_is_announced_twice_witness :
  exists runs w',
    @runScenario1 secondTry groqModel (config 3 2) (@initialWorld secondTry)
    = (Normal runs, w')
    /\ length (events w') = 6
    /\ map eventKey (events w')
       = concat (map (fun run =>
                        concat (map (@attemptEventKeys secondTry groqModel 1
                                       (runNumber run) None) (attempts run))) runs).
Proof.
  destruct (@runScenario1 secondTry groqModel (config 3 2) (@initialWorld secondTry))
    as [[runs|e] w'] eqn:Hrun; [|vm_compute in Hrun; discriminate].
  exists runs, w'. split; [reflexivity|]. split.
  - vm_compute in Hrun. injection Hrun as _ <-. reflexivity.
  - exact (proj1 (@every_attempt_is_announced_twice secondTry) groqModel (config 3 2)
             (@initialWorld secondTry) runs w' Hrun).
Defined.

(** The retry of a one-shot run is sent the failed response. *)
Lemma retry_prompts_carry_the_failed_responses_witness :
  exists run w' a0 a1,
    @oneShotRun secondTry false 1 groqModel (config 3 1) 1 (@initialWorld secondTry)
    = (Normal run, w')
    /\ attempts run = [a0; a1]
    /\ prompt a1
       = renderPrompt
           (@oneShotBase secondTry false ++ @retryMessages secondTry a0).
Proof.
  destruct (@oneShotRun secondTry false 1 groqModel (config 3 1) 1 (@initialWorld secondTry))
    as [[run|e] w'] eqn:Hrun; [|vm_compute in Hrun; discriminate].
  pose proof (proj2 (@retry_prompts_carry_the_failed_responses secondTry) false 1
                groqModel (config 3 1) 1 (@initialWorld secondTry) run w' 1) as Hprompt.
  assert (Hatts : exists a0 a1, attempts run = [a0; a1]).
  { vm_compute in Hrun. injection Hrun as <- _. eexists _, _. reflexivity. }
  destruct Hatts as (a0 & a1 & Hatts).
  exists run, w', a0, a1. split_and!; [reflexivity | exact Hatts |].
  rewrite Hatts in Hprompt. exact (Hprompt a1 Hrun eq_refl).
Defined.

(** Scenario 4 with a second step that fails in the network. *)
Lemma recorded_attempts_are_consistent_witness :
  exists runs w',
    @dispatchScenario secondStepFails 4 gpt4o (config 1 1) (@initialWorld secondStepFails)
    = (Normal runs, w')
    /\ Forall (fun run => Forall (@attemptConsistent secondStepFails true)
                                 (@attemptsOfRun secondStepFails run)) runs.
Proof.
  destruct (@dispatchScenario secondStepFails 4 gpt4o (config 1 1)
              (@initialWorld secondStepFails))
    as [[runs|e] w'] eqn:Hrun; [|vm_compute in Hrun; discriminate].
  exists runs, w'. split; [reflexivity|].
  exact (@recorded_attempts_are_consistent secondStepFails 4 gpt4o (config 1 1)
           (@initialWorld secondStepFails) runs w' Hrun).
Defined.

(** Scenario 1 with a retry, and scenario 3 with a merge that fails. *)
Lemma runs_end_with_their_final_response_witness :
  (exists runs w',
     @dispatchScenario secondTry 1 groqModel (config 3 1) (@initialWorld secondTry)
     = (Normal runs, w')
     /\ Forall (@oneShotEnding secondTry (config 3 1)) runs)
  /\ (exists runs w',
        @dispatchScenario mergeFails 3 groqModel (config 0 1) (@initialWorld mergeFails)
        = (Normal runs, w')
        /\ Forall (@sequentialEnding mergeFails) runs).
Proof.
  split.
  - destruct (@dispatchScenario secondTry 1 groqModel (config 3 1)
                (@initialWorld secondTry))
      as [[runs|e] w'] eqn:Hrun; [|vm_compute in Hrun; discriminate].
    exists runs, w'. split; [reflexivity|].
    exact (@runs_end_with_their_final_response secondTry 1 groqModel (config 3 1)
             (@initialWorld secondTry) runs w' Hrun).
  - destruct (@dispatchScenario mergeFails 3 groqModel (config 0 1)
                (@initialWorld mergeFails))
      as [[runs|e] w'] eqn:Hrun; [|vm_compute in Hrun; discriminate].
    exists runs, w'. split; [reflexivity|].
    exact (@runs_end_with_their_final_response mergeFails 3 groqModel (config 0 1)
             (@initialWorld mergeFails) runs w' Hrun).
Defined.

(** A Groq model sleeps five seconds after its answer, an OpenAI model
    does not. *)
Lemma throttled_providers_sleep_after_each_answer_witness :
  (exists r w',
     @runNonStrictAttempt alwaysValid groqModel [] rejectBad (config 3 1)
       (@initialWorld alwaysValid) = (Normal r, w')
     /\ slept w' = [5000%Z])
  /\ (exists r w',
        @runStrictAttempt alwaysValid gpt4o [] rejectBad (config 3 1)
          (@initialWorld alwaysValid) = (Normal r, w')
        /\ slept w' = []).
Proof.
  destruct (@throttled_providers_sleep_after_each_answer alwaysValid)
    as (Hnon & Hstrict & _).
  split.
  - destruct (Hnon groqModel [] rejectBad (config 3 1) (@initialWorld alwaysValid)
                {| tr_text := "{ok}"; tr_usage := usage 100 50 |} eq_refl)
      as (r & w' & Hrun & _ & _ & Hslept).
    exists r, w'. split; [exact Hrun | exact Hslept].
  - destruct (Hstrict gpt4o [] rejectBad (config 3 1) (@initialWorld alwaysValid)
                {| or_object := "{ok}"; or_usage := usage 100 50 |} eq_refl)
      as (r & w' & Hrun & _ & _ & Hslept).
    exists r, w'. split; [exact Hrun | exact Hslept].
Defined.

(** An id that is not in the table, and a scenario 5 after a valid one. *)
Lemma runModelTests_fails_loudly_witness :
  @runModelTests alwaysValid "gpt-9" [1] (config 0 1) (@initialWorld alwaysValid)
  = (Thrown (newError "Model not found or missing API key: gpt-9"),
     @initialWorld alwaysValid)
  /\ forall results w',
       @runModelTests alwaysValid "groq-kimi-k2" [1; 5] (config 0 1)
         (@initialWorld alwaysValid) <> (Normal results, w').
Proof.
  split.
  - apply (proj1 (@runModelTests_fails_loudly alwaysValid "gpt-9" [1] (config 0 1)
                    (@initialWorld alwaysValid))).
    vm_compute. reflexivity.
  - intros results w' Hrun.
    apply (proj1 (proj2 (@runModelTests_fails_loudly alwaysValid "groq-kimi-k2" [1; 5]
                           (config 0 1) (@initialWorld alwaysValid)))) in Hrun.
    destruct Hrun as (_ & Hall).
    apply Forall_cons in Hall as (_ & Hall). apply Forall_cons in Hall as (H5 & _). lia.
Defined.


(** A suite of one model: the map has its id and no other. *)
Lemma runFullTestSuite_is_all_or_nothing_witness :
  exists results w',
    @runFullTestSuite alwaysValid ["groq-kimi-k2"] [1; 3] (config 0 1)
      (@initialWorld alwaysValid) = (Normal results, w')
    /\ is_Some (results !! "groq-kimi-k2")
    /\ results !! "openai-gpt4o" = None.
Proof.
  destruct (@runFullTestSuite alwaysValid ["groq-kimi-k2"] [1; 3] (config 0 1)
              (@initialWorld alwaysValid)) as [[results|e] w'] eqn:Hrun;
    [|vm_compute in Hrun; discriminate].
  destruct (@runFullTestSuite_is_all_or_nothing alwaysValid ["groq-kimi-k2"] [1; 3]
              (config 0 1) (@initialWorld alwaysValid) results w' Hrun)
    as (_ & _ & Hkeys & _).
  exists results, w'. split_and!; [reflexivity | |].
  - apply Hkeys. repeat constructor.
  - apply eq_None_not_Some. intros Hsome. apply Hkeys in Hsome.
    apply list_elem_of_singleton in Hsome. discriminate.
Defined.

(** The Groq key of the environment resolves a Groq model. *)
Lemma getModelWithKeys_resolves_defined_models_with_a_key_witness :
  exists model,
    @getModelWithKeys alwaysValid "groq-kimi-k2" noApiKeys = Some model
    /\ model_id model = "groq-kimi-k2".
Proof.
  destruct (@getModelWithKeys_resolves_defined_models_with_a_key alwaysValid
              "groq-kimi-k2" noApiKeys) as (Hsome & Hfields).
  destruct (proj2 Hsome) as [model Hmodel].
  { exists (mkDefinition "groq-kimi-k2" "Kimi K2" "groq"
              "moonshotai/kimi-k2-instruct-0905" false false).
    split_and!; [apply list_elem_of_In; vm_compute; tauto | reflexivity
                | vm_compute; reflexivity]. }
  exists model. split; [exact Hmodel|].
  destruct (Hfields model Hmodel) as (d & _ & _ & Hid & _). exact Hid.
Defined.

(** A request for a Groq model and scenarios 1 and 3 is registered. *)
Lemma start_handler_registers_only_runnable_work_witness :
  exists response table' entry,
    @Route.POST_after_await alwaysValid RouteFacts.startRequest "run-1" ∅
    = (response, table')
    /\ Route.resp_status response = 200%Z
    /\ table' !! "run-1" = Some entry
    /\ Route.ar_maxAttempts entry = 4.
Proof.
  destruct (@Route.POST_after_await alwaysValid RouteFacts.startRequest "run-1" ∅)
    as [response table'] eqn:Hpost.
  destruct (@start_handler_registers_only_runnable_work alwaysValid
              RouteFacts.startRequest "run-1" ∅ table' response Hpost)
    as (_ & _ & Hok).
  assert (Hstatus : Route.resp_status response = 200%Z).
  { vm_compute in Hpost. injection Hpost as <- _. reflexivity. }
  destruct (Hok Hstatus) as (_ & _ & entry & body & Hentry & Hbody & _ & _ & _ & _ & _
                             & Hmax & _).
  exists response, table', entry. split_and!; [reflexivity | exact Hstatus | exact Hentry |].
  rewrite Hmax. vm_compute in Hbody. injection Hbody as <-. reflexivity.
Defined.

(** With the Groq key only, the Groq models are available. *)
Lemma available_models_are_the_resolvable_ones_witness :
  groqModel ∈ @getAvailableModels alwaysValid noApiKeys.
Proof.
  apply (proj1 (@available_models_are_the_resolvable_ones alwaysValid noApiKeys)).
  vm_compute. reflexivity.
Defined.

(** ** The live table *)

(** The first request paints the first cell of the first run as running. *)
Lemma a_progress_event_repaints_one_run_witness :
  exists sp',
    rowOf "groq-kimi-k2" 1 (snd (onProgress 4 firstRequest table)) = Some sp'
    /\ sc_runs sp' !! 1 = sc_runs (initialScenario 2 4 "groq-kimi-k2" 1) !! 1
    /\ rowOf "groq-kimi-k2" 3 (snd (onProgress 4 firstRequest table))
       = rowOf "groq-kimi-k2" 3 table.
Proof.
  destruct (a_progress_event_repaints_one_run 4 firstRequest table)
    as (Hother & Hown & _).
  destruct (Hown (initialScenario 2 4 "groq-kimi-k2" 1)) as (sp' & Hsp' & Hrest);
    [vm_compute; reflexivity|].
  exists sp'. split_and!; [exact Hsp' | | apply Hother; discriminate].
  destruct Hrest as (_ & _ & _ & _ & _ & _ & _ & Hruns & _).
  apply Hruns. discriminate.
Defined.

(** The log after the six events of a scenario holds their six entries. *)
Lemma the_log_keeps_the_latest_hundred_entries_witness :
  exists runs w',
    @runScenario1 secondTry groqModel (config 3 2) (@initialWorld secondTry)
    = (Normal runs, w')
    /\ logEntries (progress (afterEvents 4 (events w') table))
       = omap tp_logEntry (events w').
Proof.
  destruct (@runScenario1 secondTry groqModel (config 3 2) (@initialWorld secondTry))
    as [[runs|e] w'] eqn:Hrun; [|vm_compute in Hrun; discriminate].
  exists runs, w'. split; [reflexivity|].
  rewrite (the_log_keeps_the_latest_hundred_entries 4 (events w') table)
    by (simpl; lia).
  vm_compute in Hrun. injection Hrun as _ <-. vm_compute. reflexivity.
Defined.

(** Scenario 1, two runs: the first fails once and then succeeds, the
    second succeeds at once.  The same request with [maxRetries = -1]:
    nothing is reported and both runs are recorded as failed. *)
Lemma a_finished_one_shot_scenario_shows_the_bars_of_its_runs_witness :
  (exists runs w' sp',
     @Requested.dispatchScenario secondTry 1 groqModel (requested 3 2)
       (@initialWorld secondTry)
     = (Normal runs, w')
     /\ rowOf "groq-kimi-k2" 1 (afterEvents 4 (events w') table) = Some sp'
     /\ map rp_attempts (sc_runs sp')
        = [ Some [Some AsFailed; Some AsSuccess; Some AsSkipped; Some AsSkipped];
            Some [Some AsSuccess; Some AsSkipped; Some AsSkipped; Some AsSkipped] ]
     /\ map rp_final (sc_runs sp') = [AsSuccess; AsSuccess]
     /\ sc_completedRuns sp' = 2)
  /\ (exists runs w',
        @Requested.dispatchScenario secondTry 1 groqModel (requested (-1) 2)
          (@initialWorld secondTry)
        = (Normal runs, w')
        /\ events w' = []
        /\ map runSuccess runs = [false; false]
        /\ map attemptsOfRun runs = [[]; []]).
Proof.
  split.
  - destruct (@Requested.dispatchScenario secondTry 1 groqModel (requested 3 2)
                (@initialWorld secondTry))
      as [[runs|e] w'] eqn:Hrun; [|vm_compute in Hrun; discriminate].
    destruct (@a_finished_one_shot_scenario_shows_the_bars_of_its_runs secondTry 1
                groqModel (requested 3 2) (@initialWorld secondTry) runs w' table
                (initialScenario 2 4 "groq-kimi-k2" 1) (or_introl eq_refl) Hrun)
      as [Hbars _].
    + vm_compute. reflexivity.
    + reflexivity.
    + exists runs, w'. eexists. split; [reflexivity|].
      split; [apply Hbars|].
      * simpl. lia.
      * repeat (constructor; [eexists; split; reflexivity|]). constructor.
      * vm_compute in Hrun. injection Hrun as <- _. vm_compute. auto.
  - destruct (@Requested.dispatchScenario secondTry 1 groqModel (requested (-1) 2)
                (@initialWorld secondTry))
      as [[runs|e] w'] eqn:Hrun; [|vm_compute in Hrun; discriminate].
    destruct (@a_finished_one_shot_scenario_shows_the_bars_of_its_runs secondTry 1
                groqModel (requested (-1) 2) (@initialWorld secondTry) runs w' table
                (initialScenario 2 4 "groq-kimi-k2" 1) (or_introl eq_refl) Hrun)
      as [_ Hnone].
    + vm_compute. reflexivity.
    + reflexivity.
    + destruct Hnone as (Hev & Hlen & Hall); [simpl; lia|].
      exists runs, w'. split; [reflexivity|]. split; [exact Hev|].
      destruct runs as [|r1 [|r2 [|]]]; try discriminate.
      apply Forall_cons in Hall as [[Hs1 Ha1] Hall].
      apply Forall_cons in Hall as [[Hs2 Ha2] _].
      split; [exact (f_equal2 (fun a b => [a; b]) Hs1 Hs2)
             | exact (f_equal2 (fun a b => [a; b]) Ha1 Ha2)].
Defined.

(** Scenario 3, two runs, when the first call fails in the network: the
    error cuts the first run short, and its row stays pending; the second
    run fills its row.  The same request with [maxRetries = -1]: nothing
    is reported and both runs are recorded as failed. *)
Lemma a_finished_sequential_scenario_shows_the_bars_of_its_steps_witness :
  (exists runs w' sp' row1 row2,
     @Requested.dispatchScenario firstCallDrops 3 groqModel (requested 1 2)
       (@initialWorld firstCallDrops)
     = (Normal runs, w')
     /\ map runSuccess runs = [false; true]
     /\ rowOf "groq-kimi-k2" 3
          (afterEvents 2 (events w') (initialState ["groq-kimi-k2"] [3] 2 1))
        = Some sp'
     /\ sc_runs sp' !! 0 = Some row1
     /\ rp_final row1 = AsPending
     /\ sc_runs sp' !! 1 = Some row2
     /\ (map sp_attempts <$> rp_steps row2)
        = Some [ [Some AsSuccess; Some AsSkipped];
                 [Some AsSuccess; Some AsSkipped];
                 [Some AsSuccess; Some AsSkipped] ]
     /\ rp_final row2 = AsSuccess
     /\ sc_completedRuns sp' = 1)
  /\ (exists runs w',
        @Requested.dispatchScenario firstCallDrops 4 gpt4o (requested (-1) 2)
          (@initialWorld firstCallDrops)
        = (Normal runs, w')
        /\ events w' = []
        /\ map runSuccess runs = [false; false]
        /\ map attemptsOfRun runs = [[]; []]).
Proof.
  split.
  - destruct (@Requested.dispatchScenario firstCallDrops 3 groqModel (requested 1 2)
                (@initialWorld firstCallDrops))
      as [[runs|e] w'] eqn:Hrun; [|vm_compute in Hrun; discriminate].
    destruct (@a_finished_sequential_scenario_shows_the_bars_of_its_steps firstCallDrops
                3 groqModel (requested 1 2) (@initialWorld firstCallDrops) runs w'
                (initialState ["groq-kimi-k2"] [3] 2 1)
                (initialScenario 2 2 "groq-kimi-k2" 3) (or_introl eq_refl) Hrun)
      as [Hbars _].
    + vm_compute. reflexivity.
    + reflexivity.
    + destruct Hbars as (sp' & Hsp' & _ & Hin & Hdone & _).
      * simpl. lia.
      * repeat (constructor;
                [eexists; split; [reflexivity|]; split; [reflexivity|]; repeat constructor|]).
        constructor.
      * vm_compute in Hrun. injection Hrun as <- _.
        destruct (Hin 0 _ _ eq_refl eq_refl) as (row1 & Hrow1 & _ & Hcut).
        destruct (Hin 1 _ _ eq_refl eq_refl) as (row2 & Hrow2 & Hfull & _).
        eexists _, w', sp', row1, row2.
        split; [reflexivity|]. split; [reflexivity|]. split; [exact Hsp'|].
        split; [exact Hrow1|].
        split; [rewrite Hcut; [reflexivity|]; intros Hs; specialize (Hs eq_refl);
                discriminate|].
        split; [exact Hrow2|].
        rewrite Hfull by (intros _; reflexivity).
        split; [vm_compute; reflexivity|]. split; [vm_compute; reflexivity|].
        rewrite Hdone. vm_compute. reflexivity.
  - destruct (@Requested.dispatchScenario firstCallDrops 4 gpt4o (requested (-1) 2)
                (@initialWorld firstCallDrops))
      as [[runs|e] w'] eqn:Hrun; [|vm_compute in Hrun; discriminate].
    destruct (@a_finished_sequential_scenario_shows_the_bars_of_its_steps firstCallDrops
                4 gpt4o (requested (-1) 2) (@initialWorld firstCallDrops) runs w'
                (initialState ["openai-gpt4o"] [4] 2 1)
                (initialScenario 2 2 "openai-gpt4o" 4) (or_intror eq_refl) Hrun)
      as [_ Hnone].
    + vm_compute. reflexivity.
    + reflexivity.
    + destruct Hnone as (Hev & Hlen & Hall); [simpl; lia|].
      exists runs, w'. split; [reflexivity|]. split; [exact Hev|].
      destruct runs as [|r1 [|r2 [|]]]; try discriminate.
      apply Forall_cons in Hall as [[Hs1 Ha1] Hall].
      apply Forall_cons in Hall as [[Hs2 Ha2] _].
      split; [exact (f_equal2 (fun a b => [a; b]) Hs1 Hs2)
             | exact (f_equal2 (fun a b => [a; b]) Ha1 Ha2)].
Defined.

(** Scenario 3 with three valid steps and a merged object that the full
    schema rejects. *)
Lemma a_run_failed_by_the_merge_is_shown_as_a_success_witness :
  exists run w' sp' row',
    @sequentialRun mergeFails false 3 groqModel (config 0 1) 1 (@initialWorld mergeFails)
    = (Normal run, w')
    /\ runSuccess run = false
    /\ rowOf "groq-kimi-k2" 3
         (afterEvents 1 (events w') (initialState ["groq-kimi-k2"] [3] 1 0))
       = Some sp'
    /\ sc_runs sp' !! 0 = Some row'
    /\ rp_final row' = AsSuccess
    /\ sc_completedRuns sp' = 1.
Proof.
  destruct (@sequentialRun mergeFails false 3 groqModel (config 0 1) 1
              (@initialWorld mergeFails))
    as [[run|e] w'] eqn:Hrun; [|vm_compute in Hrun; discriminate].
  assert (Hshape : exists s1 s2 s3,
            steps run = Some [s1; s2; s3] /\ stepSuccess s3 = true
            /\ runSuccess run = false).
  { vm_compute in Hrun. injection Hrun as <- _. eexists _, _, _. split_and!; reflexivity. }
  destruct Hshape as (s1 & s2 & s3 & Hsteps & Hs3 & Hfail).
  destruct (@a_run_failed_by_the_merge_is_shown_as_a_success mergeFails false 3 groqModel
              (config 0 1) 0 (@initialWorld mergeFails) run w'
              (initialState ["groq-kimi-k2"] [3] 1 0)
              (initialScenario 1 1 "groq-kimi-k2" 3)
              (initialRun true false 1 0) s1 s2 s3
              (or_introl eq_refl) Hrun Hfail Hsteps Hs3)
    as (sp' & row' & Hsp' & Hrow' & Hfinal & Hdone).
  - vm_compute. reflexivity.
  - reflexivity.
  - eexists. split; [reflexivity|]. split; [reflexivity|]. repeat constructor.
  - exists run, w', sp', row'. split_and!; auto.
Defined.


End MoreWitnesses.
